(** * Tenant migration runner: a shallow embedding of
      [scripts/run_migrations/run_tenant_migrations.py]

    The runner walks the migration files of [migrations/tenant_versions]
    (outer loop) over the tenant databases listed in [auth.companies]
    (inner loop).  Each tenant database carries a [migration_history]
    table.  The embedding keeps the databases in a finite map, threads
    the world through a state-and-exception monad, and logs the calls and
    the printed lines in a trace. *)

From Stdlib Require Import ZArith String List.
From stdpp Require Import base decidable option list sorting strings gmap.

Local Open Scope string_scope.
Local Open Scope Z_scope.
Local Open Scope stdpp_scope.
Local Open Scope list_scope.

(** ** Data model *)

(** The values the program writes into [migration_history.status]. *)
Inductive Status := applied | checkpoint | rolled_back.

Global Instance Status_eq_dec : EqDecision Status.
Proof. solve_decision. Defined.

(** [checkpoint_data]: the dictionary built by [create_checkpoint]. *)
Record CheckpointData := {
  cd_timestamp : Z;
  cd_tables : list string;
  cd_checkpoint_name : string;
}.

(** One row of [migration_history]. *)
Record MigrationRecord := {
  row_id : Z;
  migration_file : string;
  migration_hash : string;
  applied_at : Z;
  status : Status;
  checkpoint_data : option CheckpointData;
}.

(** The table with its [SERIAL] sequence. *)
Record TrackingTable := {
  rows : list MigrationRecord;
  next_id : Z;
}.

(** A tenant database: the user tables of schema [public], the tracking
    table when it exists, and whether the connecting role may create
    tables. *)
Record TenantDb := {
  tables : list string;
  history : option TrackingTable;
  create_allowed : bool;
}.

(** What importing a migration file gives: the import raises, the module
    has no [upgrade] attribute, or [upgrade] is a schema change that may
    raise ([None]). *)
Inductive MigrationModule :=
  | LoadError
  | NoUpgrade
  | Upgrade (f : list string → option (list string)).

(** A file of [migrations/tenant_versions]. *)
Record MigrationFile := {
  name : string;
  content : string;
  module : MigrationModule;
}.

(** Lines the program prints. *)
Inductive Msg :=
  | MsgNoCredentials
  | MsgNoTenants
  | MsgNoMigrationFiles
  | MsgDirNotFound
  | MsgInitWarning (tenant : string)
  | MsgRunning (file : string)
  | MsgSkippedFailed (tenant : string)
  | MsgSkippedApplied (file tenant : string)
  | MsgApplied (file tenant : string)
  | MsgNoUpgrade (file : string)
  | MsgError (file tenant : string)
  | MsgRollingBack (tenant : string)
  | MsgNoCheckpoint (checkpoint_name tenant : string)
  | MsgRolledBack (tenant checkpoint_name : string)
  | MsgRollbackError (tenant : string)
  | MsgSummary (successful failed : list string) (checkpoint_name : string)
  | MsgRunError
  | MsgTenantList (tenants : list string)
  | MsgListError
  | MsgHistory (tenant : string) (applied_rows : list (string * string * Z))
  | MsgHistoryError
  | MsgUsage.

(** The trace, in program order: a checkpoint row committed by
    [create_checkpoint], an entry into [run_tenant_migration], an entry
    into [rollback_to_checkpoint], and the printed lines. *)
Inductive Event :=
  | Checkpointed (tenant checkpoint_name : string)
  | MigrateCall (tenant file : string)
  | RollbackCall (tenant checkpoint_name : string)
  | Print (m : Msg).

(** The environment the program reads: the [.env] credentials, the
    registry table [auth.companies] ([None] when the [auth] database
    cannot be reached), the directory listing ([None] when the
    directory does not exist), the tenant databases (a name that is not
    a key cannot be connected to), and the two clocks as counters of the
    readings taken so far. *)
Record World := {
  db_username : option string;
  db_password : option string;
  companies : option (list string);
  tenant_versions : option (list MigrationFile);
  dbs : gmap string TenantDb;
  db_txns : nat;
  py_reads : nat;
  trace : list Event;
}.

(** Library functions the program calls, taken as parameters:
    [hashlib.sha256(..).hexdigest()], the database's
    [CURRENT_TIMESTAMP] at its n-th reading, [datetime.now()] at its n-th
    reading and [strftime('%Y%m%d_%H%M%S')]. *)
Class Env := {
  sha256_hexdigest : string → string;
  current_timestamp : nat → Z;
  datetime_now : nat → Z;
  strftime : Z → string;
}.

(** ** The state-and-exception monad *)

Inductive Result (A : Type) :=
  | Ok (a : A)
  | Raise.
Arguments Ok {A} a.
Arguments Raise {A}.

Definition M (A : Type) : Type := World → Result A * World.

Global Instance M_ret : MRet M := λ A a w, (Ok a, w).

Global Instance M_bind : MBind M := λ A B f m w,
  match m w with
  | (Ok a, w') => f a w'
  | (Raise, w') => (Raise, w')
  end.

(** [try: body except Exception: handler]. *)
Definition try_except {A} (body handler : M A) : M A := λ w,
  match body w with
  | (Ok a, w') => (Ok a, w')
  | (Raise, w') => handler w'
  end.

Definition raise {A} : M A := λ w, (Raise, w).

Definition with_trace (w : World) (tr : list Event) : World :=
  {| db_username := db_username w; db_password := db_password w;
     companies := companies w; tenant_versions := tenant_versions w;
     dbs := dbs w; db_txns := db_txns w; py_reads := py_reads w;
     trace := tr |}.

Definition with_dbs (w : World) (m : gmap string TenantDb) : World :=
  {| db_username := db_username w; db_password := db_password w;
     companies := companies w; tenant_versions := tenant_versions w;
     dbs := m; db_txns := db_txns w; py_reads := py_reads w;
     trace := trace w |}.

Definition with_db_txns (w : World) (n : nat) : World :=
  {| db_username := db_username w; db_password := db_password w;
     companies := companies w; tenant_versions := tenant_versions w;
     dbs := dbs w; db_txns := n; py_reads := py_reads w;
     trace := trace w |}.

Definition with_py_reads (w : World) (n : nat) : World :=
  {| db_username := db_username w; db_password := db_password w;
     companies := companies w; tenant_versions := tenant_versions w;
     dbs := dbs w; db_txns := db_txns w; py_reads := n;
     trace := trace w |}.

Definition emit (e : Event) : M unit := λ w,
  (Ok tt, with_trace w (trace w ++ [e])).

Definition print (m : Msg) : M unit := emit (Print m).

(** [with tenant_engine.connect() as connection]. *)
Definition connect (tenant_db : string) : M TenantDb := λ w,
  match dbs w !! tenant_db with
  | Some db => (Ok db, w)
  | None => (Raise, w)
  end.

(** [connection.commit()] of a transaction that turned the database into
    [db]. *)
Definition commit (tenant_db : string) (db : TenantDb) : M unit := λ w,
  (Ok tt, with_dbs w (<[tenant_db := db]> (dbs w))).

Definition with_history (db : TenantDb) (h : TrackingTable) : TenantDb :=
  {| tables := tables db; history := Some h;
     create_allowed := create_allowed db |}.

Definition with_tables (db : TenantDb) (t : list string) : TenantDb :=
  {| tables := t; history := history db;
     create_allowed := create_allowed db |}.

Definition with_status (r : MigrationRecord) (s : Status) : MigrationRecord :=
  {| row_id := row_id r; migration_file := migration_file r;
     migration_hash := migration_hash r; applied_at := applied_at r;
     status := s; checkpoint_data := checkpoint_data r |}.

(** ** Queries on the tracking table *)

Definition applied_at_le (r1 r2 : MigrationRecord) : Prop :=
  applied_at r1 ≤ applied_at r2.
Definition applied_at_ge (r1 r2 : MigrationRecord) : Prop :=
  applied_at r2 ≤ applied_at r1.

Global Instance applied_at_le_dec : RelDecision applied_at_le.
Proof. intros r1 r2. unfold applied_at_le. apply _. Defined.
Global Instance applied_at_ge_dec : RelDecision applied_at_ge.
Proof. intros r1 r2. unfold applied_at_ge. apply _. Defined.

(** [SELECT migration_file, migration_hash, applied_at
     FROM migration_history WHERE status = 'applied' ORDER BY applied_at]. *)
Definition select_applied (t : TrackingTable) : list (string * string * Z) :=
  (λ r, (migration_file r, migration_hash r, applied_at r)) <$>
  merge_sort applied_at_le (filter (λ r, status r = applied) (rows t)).

(** [SELECT ... WHERE migration_file = :checkpoint_name
     AND status = 'checkpoint' ORDER BY applied_at DESC LIMIT 1]. *)
Definition select_latest_checkpoint (t : TrackingTable)
    (checkpoint_name : string) : option MigrationRecord :=
  head (merge_sort applied_at_ge
          (filter (λ r, migration_file r = checkpoint_name
                        ∧ status r = checkpoint) (rows t))).

(** [UPDATE migration_history SET status = 'rolled_back'
     WHERE applied_at > since AND status = 'applied']. *)
Definition update_rolled_back (since : Z) (r : MigrationRecord)
    : MigrationRecord :=
  if decide (applied_at r > since ∧ status r = applied)
  then with_status r rolled_back else r.

(** [INSERT INTO migration_history (...) VALUES (...)]: [id] comes from
    the sequence and [applied_at] from [CURRENT_TIMESTAMP]. *)
Definition insert_row (t : TrackingTable) (file hash : string) (now : Z)
    (s : Status) (data : option CheckpointData) : TrackingTable :=
  {| rows := rows t ++ [ {| row_id := next_id t; migration_file := file;
                            migration_hash := hash; applied_at := now;
                            status := s; checkpoint_data := data |} ];
     next_id := next_id t + 1 |}.

(** [SELECT table_name FROM information_schema.tables
     WHERE table_schema = 'public' ORDER BY table_name]. *)
Definition select_public_tables (db : TenantDb) : list string :=
  merge_sort String.le
    (tables db ++ match history db with
                  | Some _ => ["migration_history"]
                  | None => []
                  end).

(** The loop of [run_tenant_migration] over [applied_migrations]. *)
Fixpoint already_applied (applied_migrations : list (string * string * Z))
    (file_name hash : string) : bool :=
  match applied_migrations with
  | [] => false
  | (applied_file, applied_hash, _) :: rest =>
      if decide (applied_file = file_name ∧ applied_hash = hash) then true
      else already_applied rest file_name hash
  end.

Section Runner.
Context `{Env}.

Definition read_current_timestamp : M Z := λ w,
  (Ok (current_timestamp (db_txns w)), with_db_txns w (S (db_txns w))).

Definition read_datetime_now : M Z := λ w,
  (Ok (datetime_now (py_reads w)), with_py_reads w (S (py_reads w))).

Definition get_migration_hash (migration_file : MigrationFile) : string :=
  sha256_hexdigest (content migration_file).

(** [CREATE TABLE IF NOT EXISTS migration_history]: the privilege to
    create in schema [public] is checked before the table is looked for,
    so a role without it is refused even when the table exists. *)
Definition create_migration_tracking_table (tenant_db : string) : M unit :=
  db ← connect tenant_db;
  match history db with
  | Some _ => if create_allowed db then mret tt else raise
  | None =>
      if create_allowed db
      then commit tenant_db (with_history db {| rows := []; next_id := 1 |})
      else raise
  end.

Definition get_applied_migrations (tenant_db : string)
    : M (list (string * string * Z)) :=
  try_except
    (db ← connect tenant_db;
     match history db with
     | Some t => mret (select_applied t)
     | None => raise
     end)
    (mret []).

Definition create_checkpoint (tenant_db checkpoint_name : string)
    : M CheckpointData :=
  db ← connect tenant_db;
  let tables := select_public_tables db in
  now ← read_datetime_now;
  let checkpoint_data :=
    {| cd_timestamp := now; cd_tables := tables;
       cd_checkpoint_name := checkpoint_name |} in
  match history db with
  | None => raise
  | Some t =>
      ts ← read_current_timestamp;
      commit tenant_db
        (with_history db
           (insert_row t checkpoint_name "checkpoint" ts checkpoint
              (Some checkpoint_data)));;
      emit (Checkpointed tenant_db checkpoint_name);;
      mret checkpoint_data
  end.

Definition rollback_to_checkpoint (tenant_db checkpoint_name : string)
    : M bool :=
  emit (RollbackCall tenant_db checkpoint_name);;
  db ← connect tenant_db;
  match history db with
  | None => raise
  | Some t =>
      match select_latest_checkpoint t checkpoint_name with
      | None =>
          print (MsgNoCheckpoint checkpoint_name tenant_db);;
          mret false
      | Some c =>
          commit tenant_db
            (with_history db
               {| rows := update_rolled_back (applied_at c) <$> rows t;
                  next_id := next_id t |});;
          print (MsgRolledBack tenant_db checkpoint_name);;
          mret true
      end
  end.

Definition record_migration_success (tenant_db : string)
    (migration_file : MigrationFile) (migration_hash : string) : M unit :=
  db ← connect tenant_db;
  match history db with
  | None => raise
  | Some t =>
      ts ← read_current_timestamp;
      commit tenant_db
        (with_history db
           (insert_row t (name migration_file) migration_hash ts applied None))
  end.

Definition run_tenant_migration (tenant_db : string)
    (migration_file : MigrationFile) : M bool :=
  emit (MigrateCall tenant_db (name migration_file));;
  let migration_hash := get_migration_hash migration_file in
  applied_migrations ← get_applied_migrations tenant_db;
  if already_applied applied_migrations (name migration_file) migration_hash
  then
    print (MsgSkippedApplied (name migration_file) tenant_db);;
    mret true
  else
    match module migration_file with
    | LoadError => raise
    | tenant_migration =>
        try_except
          (db ← connect tenant_db;
           match tenant_migration with
           | Upgrade upgrade =>
               match upgrade (tables db) with
               | None => raise
               | Some tables' =>
                   commit tenant_db (with_tables db tables');;
                   record_migration_success tenant_db migration_file
                     migration_hash;;
                   print (MsgApplied (name migration_file) tenant_db);;
                   mret true
               end
           | _ =>
               print (MsgNoUpgrade (name migration_file));;
               mret false
           end)
          (print (MsgError (name migration_file) tenant_db);;
           mret false)
    end.

(** ** Discovery *)

Definition falsy (v : option string) : bool :=
  match v with
  | None => true
  | Some s => bool_decide (s = "")
  end.

(** [SELECT db_name FROM companies ORDER BY db_name], over a connection
    to [auth]. *)
Definition get_tenant_databases : M (list string) := λ w,
  match companies w with
  | Some rows => (Ok (merge_sort String.le rows), w)
  | None => (Raise, w)
  end.

Definition ends_with (suffix s : string) : bool :=
  bool_decide (String.length suffix ≤ String.length s)%nat
  && String.eqb
       (substring (String.length s - String.length suffix)
                  (String.length suffix) s) suffix.

Definition file_le (f1 f2 : MigrationFile) : Prop :=
  String.le (name f1) (name f2).

Global Instance file_le_dec : RelDecision file_le.
Proof. intros f1 f2. unfold file_le. apply _. Defined.

(** [glob("*.py")], minus [__init__.py], sorted. *)
Definition discover (dir : list MigrationFile) : list MigrationFile :=
  merge_sort file_le
    (filter (λ f, name f ≠ "__init__.py")
       (filter (λ f, ends_with ".py" (name f) = true) dir)).

Definition get_tenant_migration_files : M (list MigrationFile) :=
  λ w,
  match tenant_versions w with
  | None => (print MsgDirNotFound;; mret []) w
  | Some dir => (Ok (discover dir), w)
  end.

(** ** The orchestrator *)

(** [successful_dbs] and [failed_dbs]; [skipped_dbs] is never written
    nor read. *)
Record RunState := {
  successful_dbs : list string;
  failed_dbs : list string;
}.

Definition add_successful (rs : RunState) (tenant_db : string) : RunState :=
  if decide (tenant_db ∈ successful_dbs rs) then rs
  else {| successful_dbs := successful_dbs rs ++ [tenant_db];
          failed_dbs := failed_dbs rs |}.

Definition add_failed (rs : RunState) (tenant_db : string) : RunState :=
  if decide (tenant_db ∈ failed_dbs rs) then rs
  else {| successful_dbs := successful_dbs rs;
          failed_dbs := failed_dbs rs ++ [tenant_db] |}.

(** The body of the inner loop. *)
Definition attempt (checkpoint_name : string) (migration_file : MigrationFile)
    (tenant_db : string) (rs : RunState) : M RunState :=
  if decide (tenant_db ∈ failed_dbs rs) then
    print (MsgSkippedFailed tenant_db);;
    mret rs
  else
    try_except
      (create_checkpoint tenant_db checkpoint_name;;
       success ← run_tenant_migration tenant_db migration_file;
       if success : bool then mret (add_successful rs tenant_db)
       else
         print (MsgRollingBack tenant_db);;
         rollback_to_checkpoint tenant_db checkpoint_name;;
         mret (add_failed rs tenant_db))
      (print (MsgError (name migration_file) tenant_db);;
       try_except
         (rollback_to_checkpoint tenant_db checkpoint_name;; mret tt)
         (print (MsgRollbackError tenant_db));;
       mret (add_failed rs tenant_db)).

Fixpoint for_tenants (checkpoint_name : string)
    (migration_file : MigrationFile) (tenant_dbs : list string)
    (rs : RunState) : M RunState :=
  match tenant_dbs with
  | [] => mret rs
  | tenant_db :: rest =>
      rs' ← attempt checkpoint_name migration_file tenant_db rs;
      for_tenants checkpoint_name migration_file rest rs'
  end.

Fixpoint for_files (checkpoint_name : string)
    (migration_files : list MigrationFile) (tenant_dbs : list string)
    (rs : RunState) : M RunState :=
  match migration_files with
  | [] => mret rs
  | migration_file :: rest =>
      print (MsgRunning (name migration_file));;
      rs' ← for_tenants checkpoint_name migration_file tenant_dbs rs;
      for_files checkpoint_name rest tenant_dbs rs'
  end.

Fixpoint init_tracking (tenant_dbs : list string) : M unit :=
  match tenant_dbs with
  | [] => mret tt
  | tenant_db :: rest =>
      try_except (create_migration_tracking_table tenant_db)
                 (print (MsgInitWarning tenant_db));;
      init_tracking rest
  end.

Definition make_checkpoint_name : M string :=
  now ← read_datetime_now;
  mret ("pre_migration_" +:+ strftime now).

(** The part of [run_all_tenant_migrations] from "Track results" to the
    end of the loops. *)
Definition migration_loops (migration_files : list MigrationFile)
    (tenant_dbs : list string) : M (string * RunState) :=
  checkpoint_name ← make_checkpoint_name;
  rs ← for_files checkpoint_name migration_files tenant_dbs
         {| successful_dbs := []; failed_dbs := [] |};
  mret (checkpoint_name, rs).

Definition run_all_tenant_migrations : M bool :=
  try_except
    (creds ← (λ w, (Ok (db_username w, db_password w), w)) : M _;
     if falsy creds.1 || falsy creds.2 then
       print MsgNoCredentials;;
       mret false
     else
       tenant_dbs ← get_tenant_databases;
       if decide (tenant_dbs = []) then
         print MsgNoTenants;;
         mret true
       else
         migration_files ← get_tenant_migration_files;
         if decide (migration_files = []) then
           print MsgNoMigrationFiles;;
           mret true
         else
           init_tracking tenant_dbs;;
           r ← migration_loops migration_files tenant_dbs;
           print (MsgSummary (successful_dbs r.2) (failed_dbs r.2) r.1);;
           mret (bool_decide (length (failed_dbs r.2) = 0%nat)))
    (print MsgRunError;;
     mret false).

Fixpoint show_tenants_history (tenant_dbs : list string) : M unit :=
  match tenant_dbs with
  | [] => mret tt
  | tenant_db :: rest =>
      try_except
        (applied_migrations ← get_applied_migrations tenant_db;
         print (MsgHistory tenant_db applied_migrations))
        (print MsgHistoryError);;
      show_tenants_history rest
  end.

Definition show_migration_history : M unit :=
  try_except
    (tenant_dbs ← get_tenant_databases;
     if decide (tenant_dbs = []) then print MsgNoTenants
     else show_tenants_history tenant_dbs)
    (print MsgHistoryError).

(** [main]: the process exit code.  [argv] is [sys.argv]; the three
    switches return without [sys.exit], that is with code 0. *)
Definition main (argv : list string) : M Z :=
  let run :=
    success ← run_all_tenant_migrations;
    mret (if success : bool then 0 else 1) in
  match argv !! 1%nat with
  | Some arg =>
      if decide (arg = "--list") then
        try_except
          (tenant_dbs ← get_tenant_databases;
           print (MsgTenantList tenant_dbs))
          (print MsgListError);;
        mret 0
      else if decide (arg = "--history") then
        show_migration_history;;
        mret 0
      else if decide (arg = "--help") then
        print MsgUsage;;
        mret 0
      else run
  | None => run
  end.

End Runner.

(** ** Sample deployment

    The one tenant migration of the repository,
    [dcbb9a6075b4_create_activity_table.py], whose [upgrade] is
    [CREATE TABLE activity], and a few variations of it. *)

Definition sample_env : Env :=
  {| sha256_hexdigest := λ s, "sha256:" +:+ s;
     current_timestamp := λ n, 100 + Z.of_nat n;
     datetime_now := λ n, Z.of_nat n;
     strftime := λ _, "20250609_174925" |}.

Definition create_table (table : string) (tables : list string)
    : option (list string) :=
  if decide (table ∈ tables) then None else Some (tables ++ [table]).

Definition create_activity_table : MigrationFile :=
  {| name := "dcbb9a6075b4_create_activity_table.py";
     content := "CREATE TABLE activity";
     module := Upgrade (create_table "activity") |}.

(** The same file name with other content. *)
Definition create_activity_table_v2 : MigrationFile :=
  {| name := "dcbb9a6075b4_create_activity_table.py";
     content := "CREATE TABLE activity_log";
     module := Upgrade (create_table "activity_log") |}.

(** A later file that creates [activity] once more, so its [upgrade]
    raises wherever the first file was applied. *)
Definition create_activity_again : MigrationFile :=
  {| name := "e1f0a2b3c4d5_create_activity_again.py";
     content := "CREATE TABLE activity -- again";
     module := Upgrade (create_table "activity") |}.

(** A file without [upgrade]. *)
Definition only_downgrade : MigrationFile :=
  {| name := "f00dfeedbeef_only_downgrade.py";
     content := "def downgrade(): pass";
     module := NoUpgrade |}.

Definition package_marker : MigrationFile :=
  {| name := "__init__.py"; content := ""; module := NoUpgrade |}.

Definition empty_table : TrackingTable := {| rows := []; next_id := 1 |}.

Definition fresh_db : TenantDb :=
  {| tables := ["leads"]; history := Some empty_table;
     create_allowed := true |}.

(** A tenant database on which [run_initial_setup] has run but the
    tracking table was never created. *)
Definition untracked_db : TenantDb :=
  {| tables := ["leads"]; history := None; create_allowed := true |}.

(** A tenant database whose role may not create tables. *)
Definition locked_db : TenantDb :=
  {| tables := ["leads"]; history := None; create_allowed := false |}.

Definition sample_world (dir : list MigrationFile)
    (tenants : list (string * TenantDb)) : World :=
  {| db_username := Some "postgres"; db_password := Some "secret";
     companies := Some (tenants.*1);
     tenant_versions := Some dir;
     dbs := list_to_map tenants;
     db_txns := 0; py_reads := 0; trace := [] |}.

Definition sample_row (i : Z) (file hash : string) (at_ : Z) (s : Status)
    : MigrationRecord :=
  {| row_id := i; migration_file := file; migration_hash := hash;
     applied_at := at_; status := s; checkpoint_data := None |}.

(** A tracking table with two checkpoints of one name and applied rows
    before, between and after them. *)
Definition sample_history : TrackingTable :=
  {| rows := [ sample_row 1 "a.py" "h1" 10 applied;
               sample_row 2 "cp" "checkpoint" 20 checkpoint;
               sample_row 3 "b.py" "h2" 30 applied;
               sample_row 4 "cp" "checkpoint" 40 checkpoint;
               sample_row 5 "c.py" "h3" 50 applied;
               sample_row 6 "d.py" "h4" 60 rolled_back ];
     next_id := 7 |}.


(** A tenant whose tracking table already carries an [applied] row for
    [only_downgrade] under the hash of its present content. *)
Definition stamped_db : TenantDb :=
  {| tables := ["leads"];
     history :=
       Some {| rows := [ sample_row 1 "f00dfeedbeef_only_downgrade.py"
                           "sha256:def downgrade(): pass" 90 applied ];
               next_id := 2 |};
     create_allowed := true |}.

Definition no_runs : RunState := {| successful_dbs := []; failed_dbs := [] |}.

Definition tracked_db : TenantDb :=
  {| tables := ["leads"; "a"; "b"; "c"]; history := Some sample_history;
     create_allowed := true |}.

(** The checkpoint row of [sample_history] with the latest [applied_at]. *)
Definition latest_sample_checkpoint : MigrationRecord :=
  sample_row 4 "cp" "checkpoint" 40 checkpoint.

(** A second migration, and a tenant on which it cannot run because the
    table is already there. *)
Definition create_audit_table : MigrationFile :=
  {| name := "e7a1c0ffee42_create_audit_table.py";
     content := "CREATE TABLE audit";
     module := Upgrade (create_table "audit") |}.

Definition audited_db : TenantDb :=
  {| tables := ["leads"; "audit"]; history := Some empty_table;
     create_allowed := true |}.

Definition readme_file : MigrationFile :=
  {| name := "README.md"; content := "tenant migrations";
     module := LoadError |}.

(** Two tenants and two migrations; the second migration fails on the
    second tenant only. *)
Definition two_tenants : World :=
  sample_world
    [package_marker; create_audit_table; readme_file; create_activity_table]
    [("db_bbb", audited_db); ("db_aaa", fresh_db)].
(** * Specification vocabulary *)

Definition is_checkpoint_named (checkpoint_name : string)
    (r : MigrationRecord) : Prop :=
  migration_file r = checkpoint_name ∧ status r = checkpoint.

(** A printed line other than the final summary. *)
Definition is_print (e : Event) : Prop :=
  match e with
  | Print (MsgSummary _ _ _) => False
  | Print _ => True
  | _ => False
  end.

(** Printed lines and rollback calls of one tenant: what an attempt may
    log apart from its checkpoint and its call of the executor. *)
Definition is_aftermath (t cn : string) (e : Event) : Prop :=
  match e with
  | Print (MsgSummary _ _ _) => False
  | Print _ => True
  | RollbackCall t' cn' => t' = t ∧ cn' = cn
  | _ => False
  end.

(** The tenant of a call. *)
Definition call_tenant (e : Event) : option string :=
  match e with
  | Checkpointed t _ | MigrateCall t _ | RollbackCall t _ => Some t
  | Print _ => None
  end.

(** The calls of tenant [t] in a trace. *)
Definition calls_of (t : string) (tr : list Event) : list Event :=
  filter (λ e, call_tenant e = Some t) tr.

(** The files on which the executor was called for tenant [t]. *)
Definition attempts_of (t : string) (tr : list Event) : list string :=
  omap (λ e, match e with
             | MigrateCall t' f => if decide (t' = t) then Some f else None
             | _ => None
             end) tr.

(** The (file, tenant) pairs on which the executor was called. *)
Definition executor_calls (tr : list Event) : list (string * string) :=
  omap (λ e, match e with
             | MigrateCall t f => Some (f, t)
             | _ => None
             end) tr.

(** Every call of the executor in [evs] comes right after a checkpoint
    of the same tenant under the name [cn]. *)
Definition checkpoint_before_each_call (cn : string) (evs : list Event)
    : Prop :=
  ∀ pre t f post, evs = pre ++ MigrateCall t f :: post →
                  ∃ pre', pre = pre' ++ [Checkpointed t cn].

(** What the run never writes. *)
Definition static (w w' : World) : Prop :=
  db_username w' = db_username w ∧ db_password w' = db_password w ∧
  companies w' = companies w ∧ tenant_versions w' = tenant_versions w.

Definition others_same (t : string) (w w' : World) : Prop :=
  ∀ t', t' ≠ t → dbs w' !! t' = dbs w !! t'.

(** The tenant has no usable tracking table: the database cannot be
    connected to, or it has no [migration_history]. *)
Definition no_tracking (t : string) (w : World) : Prop :=
  ∀ db, dbs w !! t = Some db → history db = None.

(** ... and none can be created. *)
Definition tracking_unavailable (t : string) (w : World) : Prop :=
  ∀ db, dbs w !! t = Some db →
        history db = None ∧ create_allowed db = false.

Definition applied_with (file hash : string) (r : MigrationRecord) : Prop :=
  status r = applied ∧ migration_file r = file ∧ migration_hash r = hash.


(** The two loops of the orchestrator as one sequence of steps: a file is
    announced, then attempted on each tenant. *)
Inductive Step :=
  | Announce (f : MigrationFile)
  | Attempt (f : MigrationFile) (t : string).

Definition schedule (migration_files : list MigrationFile)
    (tenant_dbs : list string) : list Step :=
  migration_files ≫= λ f, Announce f :: (Attempt f <$> tenant_dbs).

(** The files the schedule attempts on tenant [t], and all its
    (file, tenant) pairs. *)
Definition planned_for (t : string) (ss : list Step) : list string :=
  omap (λ s, match s with
             | Attempt f t' => if decide (t' = t) then Some (name f) else None
             | Announce _ => None
             end) ss.

Definition planned (ss : list Step) : list (string * string) :=
  omap (λ s, match s with
             | Attempt f t => Some (name f, t)
             | Announce _ => None
             end) ss.

Section Steps.
Context `{Env}.

Definition run_step (checkpoint_name : string) (s : Step) (rs : RunState)
    : M RunState :=
  match s with
  | Announce f => print (MsgRunning (name f));; mret rs
  | Attempt f t => attempt checkpoint_name f t rs
  end.

Fixpoint run_steps (checkpoint_name : string) (ss : list Step)
    (rs : RunState) : M RunState :=
  match ss with
  | [] => mret rs
  | s :: rest =>
      rs' ← run_step checkpoint_name s rs;
      run_steps checkpoint_name rest rs'
  end.

End Steps.

Global Instance applied_with_dec file hash r :
  Decision (applied_with file hash r).
Proof. unfold applied_with. apply _. Defined.

(** Every checkpoint logged in [evs] carries the name [cn]. *)
Definition checkpoints_named (cn : string) (evs : list Event) : Prop :=
  ∀ t n, Checkpointed t n ∈ evs → n = cn.

(** The catalogue and the tenant list a run works with. *)
Definition catalog (w : World) : list MigrationFile :=
  match tenant_versions w with
  | Some dir => discover dir
  | None => []
  end.

(** [DB_USERNAME] and [DB_PASSWORD] are both set and not empty. *)
Definition credentials_configured (w : World) : Prop :=
  falsy (db_username w) = false ∧ falsy (db_password w) = false.

(** The program can reach the registry: it has credentials to connect
    with and the [auth] database answers the query. *)
Definition registry_reachable (w : World) : Prop :=
  credentials_configured w ∧ is_Some (companies w).

(** A logged event other than the final summary. *)
Definition is_progress (e : Event) : Prop :=
  match e with
  | Print (MsgSummary _ _ _) => False
  | _ => True
  end.

Definition tenant_list (w : World) : list string :=
  match companies w with
  | Some rows => merge_sort String.le rows
  | None => []
  end.

(** Files outer, tenants inner. *)
Definition in_catalog_order (fs : list MigrationFile) (ts : list string)
    : list (string * string) :=
  fs ≫= λ f, (λ t, (name f, t)) <$> ts.

(** * Further vocabulary *)

(** What [get_applied_migrations] reports for a tenant. *)
Definition applied_migrations_of (w : World) (t : string)
    : list (string * string * Z) :=
  match dbs w !! t with
  | Some db => from_option select_applied [] (history db)
  | None => []
  end.

(** The rows of a tenant's tracking table, none without a table. *)
Definition rows_of (db : TenantDb) : list MigrationRecord :=
  from_option rows [] (history db).

(** The tenant database after the initialisation loop over [ts]: a
    missing tracking table is created, empty, when the tenant is listed
    and its role may create tables. *)
Definition initialised (ts : list string) (t : string) (db : TenantDb)
    : TenantDb :=
  {| tables := tables db;
     history :=
       match history db with
       | Some table => Some table
       | None =>
           if decide (t ∈ ts) then
             if create_allowed db then Some {| rows := []; next_id := 1 |}
             else None
           else None
       end;
     create_allowed := create_allowed db |}.

(** A migration file whose import raises. *)
Definition broken_import : MigrationFile :=
  {| name := "a3b1c2d4e5f6_broken_import.py";
     content := "import missing_module";
     module := LoadError |}.

(** A relation between the tenant databases before and after, taken
    database by database: no database appears or disappears. *)
Definition lifted (Rdb : relation TenantDb) (w w' : World) : Prop :=
  ∀ t, option_Forall2 Rdb (dbs w !! t) (dbs w' !! t).

(** A computation whose final world is always related to its initial
    one, whether it returns or raises. *)
Definition preserves {A} (R : relation World) (m : M A) : Prop :=
  ∀ w, R w (m w).2.

(** A tracking row and what it may become: only [status] may change, and
    only from [applied] to [rolled_back]. *)
Definition row_evolves (r r' : MigrationRecord) : Prop :=
  row_id r' = row_id r
  ∧ migration_file r' = migration_file r
  ∧ migration_hash r' = migration_hash r
  ∧ applied_at r' = applied_at r
  ∧ checkpoint_data r' = checkpoint_data r
  ∧ (status r' = status r
     ∨ (status r = applied ∧ status r' = rolled_back)).

(** A tenant database and what it may become: the tracking table is not
    dropped, its rows stay in place, evolved, and rows are only added at
    the end. *)
Definition db_evolves (db db' : TenantDb) : Prop :=
  create_allowed db' = create_allowed db
  ∧ (is_Some (history db) → is_Some (history db'))
  ∧ ∃ kept new,
      rows_of db' = kept ++ new ∧ Forall2 row_evolves (rows_of db) kept.

(** The primary key of the tracking table: the ids in use are distinct
    and below the next value of the sequence. *)
Definition ids_ok (db : TenantDb) : Prop :=
  match history db with
  | Some table =>
      NoDup (row_id <$> rows table)
      ∧ Forall (λ r, row_id r < next_id table) (rows table)
  | None => True
  end.

Definition keeps_ids_ok (db db' : TenantDb) : Prop := ids_ok db → ids_ok db'.

(** The database clock never goes back from one reading to the next. *)
Definition clock_nondecreasing `{Env} : Prop :=
  ∀ n m, (n ≤ m)%nat → current_timestamp n ≤ current_timestamp m.

(** No tracking row is dated after the next reading of the database
    clock. *)
Definition dated `{Env} (w : World) : Prop :=
  ∀ t db r, dbs w !! t = Some db → r ∈ rows_of db →
            applied_at r ≤ current_timestamp (db_txns w).

(** A tenant database whose tracking rows are all kept as they are, with
    rows added at the end, none of them [rolled_back]. *)
Definition grows (db db' : TenantDb) : Prop :=
  ∃ new, rows_of db' = rows_of db ++ new
         ∧ Forall (λ r, status r ≠ rolled_back) new.

(** The tenant's table holds a checkpoint of the name that no row is
    dated after. *)
Definition fresh_checkpoint (t cn : string) (w : World) : Prop :=
  ∃ db table c,
    dbs w !! t = Some db ∧ history db = Some table ∧ c ∈ rows table
    ∧ is_checkpoint_named cn c
    ∧ ∀ r, r ∈ rows table → applied_at r ≤ applied_at c.

Definition advances `{Env} (w w' : World) : Prop :=
  (db_txns w ≤ db_txns w')%nat
  ∧ lifted grows w w'
  ∧ (dated w → dated w').

(** From a world with no row dated in the future, the final world
    [advances] on the initial one. *)
Definition steady `{Env} (w w' : World) : Prop := dated w → advances w w'.

(** Two tenants that carry an [applied] row each; [create_audit_table]
    fails on the first, which is rolled back. *)
Definition stamped_audited_db : TenantDb :=
  {| tables := ["leads"; "audit"]; history := history stamped_db;
     create_allowed := true |}.

Definition stamped_fleet : World :=
  sample_world [create_audit_table; create_activity_table]
    [("db_bbb", stamped_audited_db); ("db_aaa", stamped_db)].

(** The tenant's tracking table holds an [applied] row for the file under
    the hash of its present content. *)
Definition recorded `{Env} (w : World) (t : string) (f : MigrationFile)
    : Prop :=
  ∃ db table r,
    dbs w !! t = Some db ∧ history db = Some table ∧ r ∈ rows table
    ∧ applied_with (name f) (get_migration_hash f) r.

(** Every file of the catalogue is recorded on every listed tenant. *)
Definition up_to_date `{Env} (w : World) : Prop :=
  ∀ t f, t ∈ tenant_list w → f ∈ catalog w → recorded w t f.

(** A tenant database with the same tables and the same tracking rows,
    followed by checkpoint rows only. *)
Definition checkpointed (db db' : TenantDb) : Prop :=
  tables db' = tables db
  ∧ ∃ new, rows_of db' = rows_of db ++ new
           ∧ Forall (λ r, status r = checkpoint) new.

Definition step_recorded `{Env} (w : World) (s : Step) : Prop :=
  match s with
  | Announce _ => True
  | Attempt f t => recorded w t f
  end.

(** A tenant on which [create_activity_table] has been applied and
    recorded. *)
Definition migrated_db : TenantDb :=
  {| tables := ["leads"; "activity"];
     history :=
       Some {| rows := [ sample_row 1 "dcbb9a6075b4_create_activity_table.py"
                           "sha256:CREATE TABLE activity" 90 applied ];
               next_id := 2 |};
     create_allowed := true |}.

Definition migrated_fleet : World :=
  sample_world [package_marker; create_activity_table]
    [("db_aaa", migrated_db)].
(** * Proof automation *)

Ltac munfold :=
  unfold mbind, mret, M_bind, M_ret, try_except, raise, print, emit,
    connect, commit in *; simpl in *.

(** Case analysis on the innermost [match] of the goal. *)
Ltac mcase1 :=
  match goal with
  | |- context [match ?x with _ => _ end] =>
      lazymatch x with
      | context [match _ with _ => _ end] => fail
      | _ => destruct x eqn:?; simpl
      end
  end.

Ltac mcase := repeat first [ rewrite lookup_insert_eq | mcase1 ].

Ltac trace_norm := rewrite <- ?(assoc (++)); simpl.

Ltac frame_goals :=
  repeat match goal with
  | |- _ ∧ _ => split
  | |- static _ _ => by repeat split
  | |- others_same _ _ _ =>
      let t' := fresh "t'" in let Hne := fresh "Hne" in
      intros t' Hne; simpl; rewrite ?lookup_insert_ne by done; done
  | |- trace _ = _ => simpl; trace_norm; reflexivity
  | |- _ ++ _ = _ ++ _ => trace_norm; reflexivity
  | |- Forall _ _ => by repeat constructor
  | |- (_, _) = (_, _) => reflexivity
  | |- dbs _ = _ => reflexivity
  end.

(** * Properties *)

(** ** Order facts used by the sorted queries *)

Global Instance applied_at_ge_trans : Transitive applied_at_ge.
Proof. intros x y z. unfold applied_at_ge. lia. Qed.
Global Instance applied_at_ge_total : Total applied_at_ge.
Proof. intros x y. unfold applied_at_ge. lia. Qed.
Global Instance applied_at_le_trans : Transitive applied_at_le.
Proof. intros x y z. unfold applied_at_le. lia. Qed.
Global Instance applied_at_le_total : Total applied_at_le.
Proof. intros x y. unfold applied_at_le. lia. Qed.
Global Instance file_le_trans : Transitive file_le.
Proof. intros x y z. unfold file_le. apply transitivity. Qed.
Global Instance file_le_total : Total file_le.
Proof. intros x y. unfold file_le. apply total, _. Qed.

(** ** The latest checkpoint of a name *)

Lemma select_latest_checkpoint_None t cn :
  select_latest_checkpoint t cn = None ↔
  ∀ r, r ∈ rows t → ¬ is_checkpoint_named cn r.
Proof.
  unfold select_latest_checkpoint, is_checkpoint_named.
  set (l := filter _ (rows t)).
  pose proof (merge_sort_Permutation applied_at_ge l) as Hp.
  split.
  - intros Hh r Hr Hc.
    assert (r ∈ merge_sort applied_at_ge l) as Hin.
    { rewrite Hp. apply list_elem_of_filter. done. }
    revert Hh Hin. destruct (merge_sort applied_at_ge l); [|done].
    intros _ Hin. by apply not_elem_of_nil in Hin.
  - intros Hno. destruct (merge_sort applied_at_ge l) as [|c l'] eqn:E; [done|].
    exfalso. assert (c ∈ l) as Hc by (rewrite <- Hp; left).
    apply list_elem_of_filter in Hc as [Hc Hin]. by apply (Hno c).
Qed.

Lemma select_latest_checkpoint_Some t cn c :
  select_latest_checkpoint t cn = Some c →
  c ∈ rows t ∧ is_checkpoint_named cn c ∧
  ∀ c', c' ∈ rows t → is_checkpoint_named cn c' →
        applied_at c' ≤ applied_at c.
Proof.
  unfold select_latest_checkpoint, is_checkpoint_named.
  set (l := filter _ (rows t)).
  pose proof (merge_sort_Permutation applied_at_ge l) as Hp.
  pose proof (StronglySorted_merge_sort applied_at_ge l) as Hs.
  intros [l' E]%head_Some. rewrite E in Hp, Hs.
  assert (c ∈ l) as Hc by (rewrite <- Hp; left).
  apply list_elem_of_filter in Hc as [Hc Hin].
  split; [done|]. split; [done|].
  intros c' Hin' Hc'.
  assert (c' ∈ c :: l') as Hm.
  { rewrite Hp. apply list_elem_of_filter. done. }
  apply StronglySorted_inv in Hs as [_ Hall].
  apply elem_of_cons in Hm as [->|Hm]; [lia|].
  rewrite Forall_forall in Hall. by apply Hall.
Qed.

(** ** Rollback *)

(** C2. On a reachable tenant with a tracking table: without a checkpoint
    row of the given name, [rollback_to_checkpoint] returns [False] and
    leaves every database as it was; with [c] a most recent checkpoint
    row of that name, it returns [True], and the tracking table keeps its
    rows in place, each with all its fields, except that [status] becomes
    [rolled_back] exactly on the rows that were [applied] with
    [applied_at] strictly after that of [c].  Nothing else changes in the
    tenant database, and no other database changes. *)
Theorem rollback_to_checkpoint_scope (tenant_db cn : string) (w : World)
    (db : TenantDb) (t : TrackingTable) :
  dbs w !! tenant_db = Some db →
  history db = Some t →
  ((∀ r, r ∈ rows t → ¬ is_checkpoint_named cn r) →
     ∃ w', rollback_to_checkpoint tenant_db cn w = (Ok false, w')
           ∧ dbs w' = dbs w)
  ∧
  (∀ c, c ∈ rows t → is_checkpoint_named cn c →
     (∀ c', c' ∈ rows t → is_checkpoint_named cn c' →
            applied_at c' ≤ applied_at c) →
     ∃ w' t',
       rollback_to_checkpoint tenant_db cn w = (Ok true, w')
       ∧ dbs w' = <[tenant_db := {| tables := tables db;
                                    history := Some t';
                                    create_allowed := create_allowed db |}]>
                    (dbs w)
       ∧ next_id t' = next_id t
       ∧ length (rows t') = length (rows t)
       ∧ ∀ i r, rows t !! i = Some r →
           ∃ r', rows t' !! i = Some r'
                 ∧ row_id r' = row_id r
                 ∧ migration_file r' = migration_file r
                 ∧ migration_hash r' = migration_hash r
                 ∧ applied_at r' = applied_at r
                 ∧ checkpoint_data r' = checkpoint_data r
                 ∧ status r' =
                     if decide (status r = applied
                                ∧ applied_at c < applied_at r)
                     then rolled_back else status r).
Proof.
  intros Hdb Hh. split.
  - intros Hno. apply select_latest_checkpoint_None in Hno.
    unfold rollback_to_checkpoint. munfold.
    rewrite Hdb. simpl. rewrite Hh, Hno. simpl.
    eexists. split; [reflexivity|done].
  - intros c Hc Hcp Hmax.
    destruct (select_latest_checkpoint t cn) as [c0|] eqn:Hsel.
    2:{ exfalso. rewrite select_latest_checkpoint_None in Hsel.
        by apply (Hsel c). }
    pose proof (select_latest_checkpoint_Some _ _ _ Hsel)
      as (Hc0 & Hcp0 & Hmax0).
    assert (applied_at c0 = applied_at c) as Heq.
    { pose proof (Hmax0 c Hc Hcp). pose proof (Hmax c0 Hc0 Hcp0). lia. }
    unfold rollback_to_checkpoint. munfold.
    rewrite Hdb. simpl. rewrite Hh, Hsel. simpl.
    eexists. eexists. split; [reflexivity|].
    split; [reflexivity|]. split; [reflexivity|]. simpl.
    split; [by rewrite length_fmap|].
    intros i r Hr. rewrite list_lookup_fmap, Hr. simpl.
    eexists. split; [reflexivity|].
    unfold update_rolled_back. rewrite Heq.
    destruct (decide (applied_at r > applied_at c ∧ status r = applied))
      as [[Hgt Hst]|Hn]; simpl.
    + repeat (split; [reflexivity|]).
      rewrite decide_True; [done|]. split; [done|lia].
    + repeat (split; [reflexivity|]).
      rewrite decide_False; [done|]. intros [? ?]. apply Hn. split; [lia|done].
Qed.

(** ** What each operation may touch *)

Lemma run_tenant_migration_frame `{Env} t f w :
  ∃ r w' evs,
    run_tenant_migration t f w = (r, w')
    ∧ static w w' ∧ others_same t w w'
    ∧ trace w' = trace w ++ MigrateCall t (name f) :: evs
    ∧ Forall is_print evs.
Proof.
  unfold run_tenant_migration, get_applied_migrations,
    record_migration_success, read_current_timestamp.
  munfold. mcase.
  all: do 3 eexists; split; [reflexivity|]; simpl.
  all: frame_goals.
Qed.

Lemma rollback_to_checkpoint_frame t cn w :
  ∃ r w' evs,
    rollback_to_checkpoint t cn w = (r, w')
    ∧ static w w' ∧ others_same t w w'
    ∧ trace w' = trace w ++ RollbackCall t cn :: evs
    ∧ Forall is_print evs
    ∧ (no_tracking t w → r = Raise ∧ dbs w' = dbs w).
Proof.
  unfold rollback_to_checkpoint, no_tracking.
  munfold. mcase.
  all: do 3 eexists; split; [reflexivity|]; simpl.
  all: frame_goals.
  all: try (intros Hno; naive_solver).
Qed.

Lemma create_checkpoint_cases `{Env} t cn w :
  (∃ db tt data w',
      dbs w !! t = Some db ∧ history db = Some tt
      ∧ create_checkpoint t cn w = (Ok data, w')
      ∧ static w w'
      ∧ dbs w' =
          <[t := with_history db
                   (insert_row tt cn "checkpoint"
                      (current_timestamp (db_txns w)) checkpoint
                      (Some data))]> (dbs w)
      ∧ trace w' = trace w ++ [Checkpointed t cn])
  ∨ (no_tracking t w
     ∧ ∃ w', create_checkpoint t cn w = (Raise, w')
             ∧ static w w' ∧ dbs w' = dbs w ∧ trace w' = trace w).
Proof.
  unfold create_checkpoint, read_current_timestamp, read_datetime_now,
    no_tracking.
  munfold. mcase.
  - left. do 4 eexists. split; [reflexivity|]. split; [eassumption|].
    split; [reflexivity|]. simpl. frame_goals; reflexivity.
  - right. split; [naive_solver|]. eexists. by frame_goals.
  - right. split; [naive_solver|]. eexists. by frame_goals.
Qed.

Lemma rollback_to_checkpoint_scope_witness :
  dbs (sample_world [] [("db_aaa", tracked_db)]) !! "db_aaa" = Some tracked_db
  ∧ history tracked_db = Some sample_history
  ∧ ∃ w' t',
      rollback_to_checkpoint "db_aaa" "cp"
        (sample_world [] [("db_aaa", tracked_db)]) = (Ok true, w')
      ∧ dbs w' !! "db_aaa" =
          Some {| tables := tables tracked_db; history := Some t';
                  create_allowed := true |}
      ∧ length (rows t') = 6%nat.
Proof.
  split; [reflexivity|]. split; [reflexivity|].
  destruct (rollback_to_checkpoint_scope "db_aaa" "cp"
              (sample_world [] [("db_aaa", tracked_db)])
              tracked_db sample_history eq_refl eq_refl) as [_ Hfound].
  destruct (Hfound latest_sample_checkpoint)
    as (w' & t' & Hrun & Hdbs & _ & Hlen & _).
  - apply (list_elem_of_lookup_2 _ 3). reflexivity.
  - split; reflexivity.
  - apply (Forall_forall
             (λ c', is_checkpoint_named "cp" c' →
                    applied_at c' ≤ applied_at latest_sample_checkpoint)).
    repeat constructor; simpl; intros [_ ?]; first [lia | done].
  - exists w', t'. split; [exact Hrun|]. split; [|exact Hlen].
    rewrite Hdbs. apply lookup_insert_eq.
Defined.

(** ** One step of the inner loop *)

Lemma is_print_aftermath t cn evs :
  Forall is_print evs → Forall (is_aftermath t cn) evs.
Proof. intros Hp. eapply Forall_impl; [exact Hp|]. by intros []. Qed.

Ltac solve_aftermath :=
  repeat first
    [ rewrite Forall_app | rewrite Forall_cons | split
    | by apply is_print_aftermath | by constructor | done ].

(** The three ways an attempt can go: the tenant is skipped; its
    checkpoint cannot be written; or the checkpoint is written and the
    executor is called. *)
Lemma attempt_cases `{Env} cn f t rs w :
  ∃ rs' w' evs,
    attempt cn f t rs w = (Ok rs', w')
    ∧ static w w' ∧ others_same t w w'
    ∧ trace w' = trace w ++ evs
    ∧ ((t ∈ failed_dbs rs ∧ rs' = rs ∧ dbs w' = dbs w
        ∧ evs = [Print (MsgSkippedFailed t)])
       ∨ ((t ∉ failed_dbs rs) ∧ no_tracking t w
          ∧ rs' = add_failed rs t ∧ dbs w' = dbs w
          ∧ Forall (is_aftermath t cn) evs)
       ∨ ((t ∉ failed_dbs rs)
          ∧ (∃ db tt, dbs w !! t = Some db ∧ history db = Some tt)
          ∧ ∃ rest,
              evs = Checkpointed t cn :: MigrateCall t (name f) :: rest
              ∧ Forall (is_aftermath t cn) rest
              ∧ (rs' = add_successful rs t ∨ rs' = add_failed rs t))).
Proof.
  unfold attempt. destruct (decide (t ∈ failed_dbs rs)) as [Hin|Hnin].
  { munfold. do 3 eexists. split; [reflexivity|]. frame_goals.
    left. by frame_goals. }
  unfold try_except, mbind, M_bind at 1 2.
  destruct (create_checkpoint_cases t cn w)
    as [(db & tt & data & w1 & Hdb & Hh & -> & Hst1 & Hdbs1 & Htr1)
       |(Hno & w1 & -> & Hst1 & Hdbs1 & Htr1)].
  - (* the checkpoint is written *)
    destruct (run_tenant_migration_frame t f w1)
      as (r & w2 & evs2 & Hrun & Hst2 & Hoth2 & Htr2 & Hpr2).
    assert (others_same t w w2) as Hoth12.
    { intros t' Hne. rewrite Hoth2, Hdbs1 by done. by rewrite lookup_insert_ne. }
    assert (static w w2) as Hst12.
    { destruct Hst1 as (?&?&?&?), Hst2 as (?&?&?&?). repeat split; congruence. }
    unfold mbind, M_bind. rewrite Hrun.
    destruct r as [[|]|].
    + (* success *)
      do 3 eexists. split; [reflexivity|]. split; [done|]. split; [done|].
      split; [rewrite Htr2, Htr1; by trace_norm|].
      right; right. split; [done|]. split; [eauto|].
      eexists. split; [reflexivity|]. split; [|by left].
      by apply is_print_aftermath.
    + (* failure returned: roll back *)
      munfold.
      destruct (rollback_to_checkpoint_frame t cn
                  (with_trace w2 (trace w2 ++ [Print (MsgRollingBack t)])))
        as (r3 & w3 & evs3 & Hrb & Hst3 & Hoth3 & Htr3 & Hpr3 & _).
      rewrite Hrb. simpl in *.
      destruct r3 as [b|].
      * do 3 eexists. split; [reflexivity|].
        split. { destruct Hst12 as (?&?&?&?), Hst3 as (?&?&?&?).
                 repeat split; simpl in *; congruence. }
        split. { intros t' Hne. rewrite Hoth3 by done. simpl. by apply Hoth12. }
        split; [rewrite Htr3, Htr2, Htr1; by trace_norm|].
        right; right. split; [done|]. split; [eauto|].
        eexists. split; [reflexivity|]. split; [|by right].
        apply Forall_app. split; [by apply is_print_aftermath|].
        constructor; [done|]. constructor; [done|].
        by apply is_print_aftermath.
      * (* the rollback raised: the handler rolls back once more *)
        destruct (rollback_to_checkpoint_frame t cn
                    (with_trace w3 (trace w3 ++ [Print (MsgError (name f) t)])))
          as (r4 & w4 & evs4 & Hrb4 & Hst4 & Hoth4 & Htr4 & Hpr4 & _).
        rewrite Hrb4. simpl in *.
        destruct r4 as [b|]; simpl.
        all: do 3 eexists; (split; [reflexivity|]).
        all: split;
          [ destruct Hst12 as (?&?&?&?), Hst3 as (?&?&?&?), Hst4 as (?&?&?&?);
            repeat split; simpl in *; congruence |].
        all: split;
          [ intros t' Hne; simpl; rewrite Hoth4 by done; simpl;
            rewrite Hoth3 by done; simpl; by apply Hoth12 |].
        all: split; [simpl; rewrite ?Htr4; simpl; rewrite Htr3; simpl;
                     rewrite Htr2, Htr1; by trace_norm|].
        all: right; right; split; [done|]; split; [eauto|].
        all: eexists; split; [reflexivity|]; split; [|by right].
        all: solve_aftermath.
    + (* the executor raised *)
      munfold.
      destruct (rollback_to_checkpoint_frame t cn
                  (with_trace w2 (trace w2 ++ [Print (MsgError (name f) t)])))
        as (r4 & w4 & evs4 & Hrb4 & Hst4 & Hoth4 & Htr4 & Hpr4 & _).
      rewrite Hrb4. simpl in *.
      destruct r4 as [b|]; simpl.
      all: do 3 eexists; (split; [reflexivity|]).
      all: split;
        [ destruct Hst12 as (?&?&?&?), Hst4 as (?&?&?&?);
          repeat split; simpl in *; congruence |].
      all: split;
        [ intros t' Hne; simpl; rewrite Hoth4 by done; simpl;
          by apply Hoth12 |].
      all: split; [simpl; rewrite ?Htr4; simpl;
                   rewrite Htr2, Htr1; by trace_norm|].
      all: right; right; split; [done|]; split; [eauto|].
      all: eexists; split; [reflexivity|]; split; [|by right].
      all: solve_aftermath.
  - (* no checkpoint can be written *)
    munfold.
    destruct (rollback_to_checkpoint_frame t cn
                (with_trace w1 (trace w1 ++ [Print (MsgError (name f) t)])))
      as (r4 & w4 & evs4 & Hrb4 & Hst4 & Hoth4 & Htr4 & Hpr4 & Hfail).
    destruct Hfail as [-> Hdbs4].
    { intros db Hdb. simpl in Hdb. rewrite Hdbs1 in Hdb. by apply Hno. }
    rewrite Hrb4. simpl in *.
    do 3 eexists. split; [reflexivity|].
    split. { destruct Hst1 as (?&?&?&?), Hst4 as (?&?&?&?).
             repeat split; simpl in *; congruence. }
    split. { intros t' Hne. simpl. by rewrite Hdbs4, Hdbs1. }
    split; [simpl; rewrite Htr4; simpl; rewrite Htr1; by trace_norm|].
    right; left. split; [done|]. split; [done|]. split; [done|].
    split; [simpl; by rewrite Hdbs4, Hdbs1|].
    solve_aftermath.
Qed.

(** ** The loops as a sequence of steps *)

Lemma run_steps_app `{Env} cn ss1 ss2 rs w :
  run_steps cn (ss1 ++ ss2) rs w =
  (rs' ← run_steps cn ss1 rs; run_steps cn ss2 rs') w.
Proof.
  revert rs w. induction ss1 as [|s ss1 IH]; intros rs w; [done|].
  simpl. unfold mbind, M_bind in *.
  destruct (run_step cn s rs w) as [[rs1|] w1]; [|done]. apply IH.
Qed.

Lemma for_tenants_steps `{Env} cn f ts rs w :
  for_tenants cn f ts rs w = run_steps cn (Attempt f <$> ts) rs w.
Proof.
  revert rs w. induction ts as [|t ts IH]; intros rs w; [done|].
  simpl. unfold mbind, M_bind.
  destruct (attempt cn f t rs w) as [[rs1|] w1]; [|done]. apply IH.
Qed.

Lemma for_files_steps `{Env} cn fs ts rs w :
  for_files cn fs ts rs w = run_steps cn (schedule fs ts) rs w.
Proof.
  revert rs w. induction fs as [|f fs IH]; intros rs w; [done|].
  unfold schedule. simpl. fold (schedule fs ts).
  munfold. rewrite (run_steps_app cn (Attempt f <$> ts)).
  munfold. rewrite for_tenants_steps.
  destruct (run_steps cn (Attempt f <$> ts) rs _) as [[rs1|] w1]; [|done].
  apply IH.
Qed.

(** One step, by cases. *)
Lemma run_step_cases `{Env} cn s rs w :
  ∃ rs' w' evs,
    run_step cn s rs w = (Ok rs', w')
    ∧ static w w'
    ∧ trace w' = trace w ++ evs
    ∧ match s with
      | Announce f =>
          rs' = rs ∧ dbs w' = dbs w ∧ evs = [Print (MsgRunning (name f))]
      | Attempt f t =>
          others_same t w w'
          ∧ ((t ∈ failed_dbs rs ∧ rs' = rs ∧ dbs w' = dbs w
              ∧ evs = [Print (MsgSkippedFailed t)])
             ∨ ((t ∉ failed_dbs rs) ∧ no_tracking t w
                ∧ rs' = add_failed rs t ∧ dbs w' = dbs w
                ∧ Forall (is_aftermath t cn) evs)
             ∨ ((t ∉ failed_dbs rs)
                ∧ (∃ db tt, dbs w !! t = Some db ∧ history db = Some tt)
                ∧ ∃ rest,
                    evs = Checkpointed t cn :: MigrateCall t (name f) :: rest
                    ∧ Forall (is_aftermath t cn) rest
                    ∧ (rs' = add_successful rs t ∨ rs' = add_failed rs t)))
      end.
Proof.
  destruct s as [f|f t]; simpl.
  - munfold. do 3 eexists. split; [reflexivity|]. by frame_goals.
  - destruct (attempt_cases cn f t rs w)
      as (rs' & w' & evs & Hrun & Hst & Hoth & Htr & Hcases).
    by exists rs', w', evs.
Qed.

(** The invariant rule of the loops: the run never raises, and what
    every step preserves holds at the end. *)
Lemma run_steps_invariant `{Env} cn
    (I : list Step → RunState → World → Prop) :
  (∀ s ss rs w rs' w',
      I (s :: ss) rs w → run_step cn s rs w = (Ok rs', w') → I ss rs' w') →
  ∀ ss rs w, I ss rs w →
    ∃ rs' w', run_steps cn ss rs w = (Ok rs', w') ∧ I [] rs' w'.
Proof.
  intros Hstep ss. induction ss as [|s ss IH]; intros rs w HI.
  - by exists rs, w.
  - destruct (run_step_cases cn s rs w) as (rs1 & w1 & evs & Hrun & _).
    simpl. unfold mbind, M_bind. rewrite Hrun.
    apply IH. by eapply Hstep.
Qed.

(** ** The executor *)

Lemma already_applied_true l n h :
  already_applied l n h = true ↔ ∃ a, (n, h, a) ∈ l.
Proof.
  induction l as [|[[f0 h0] a0] l IH]; simpl.
  - split; [done|]. intros [a Ha]. by apply not_elem_of_nil in Ha.
  - destruct (decide (f0 = n ∧ h0 = h)) as [[-> ->]|Hne].
    + split; [|done]. intros _. exists a0. left.
    + rewrite IH. split.
      * intros [a Ha]. exists a. by right.
      * intros [a Ha]. apply elem_of_cons in Ha as [Heq|Ha]; [|by exists a].
        exfalso. apply Hne. by simplify_eq.
Qed.

Lemma already_applied_iff tt n h :
  already_applied (select_applied tt) n h = true ↔
  ∃ r, r ∈ rows tt ∧ applied_with n h r.
Proof.
  rewrite already_applied_true. unfold select_applied, applied_with.
  split.
  - intros [a Ha]. apply list_elem_of_fmap in Ha as (r & Heq & Hr).
    rewrite merge_sort_Permutation in Hr.
    apply list_elem_of_filter in Hr as [Hst Hr].
    exists r. by simplify_eq.
  - intros (r & Hr & Hst & <- & <-). exists (applied_at r).
    apply list_elem_of_fmap. exists r. split; [done|].
    rewrite merge_sort_Permutation. by apply list_elem_of_filter.
Qed.

Lemma already_applied_none tt n h :
  (∀ r, r ∈ rows tt → ¬ applied_with n h r) →
  already_applied (select_applied tt) n h = false.
Proof.
  intros Hno. apply not_true_is_false. rewrite already_applied_iff.
  intros (r & Hr & Hw). by apply (Hno r).
Qed.

(** A recorded (name, hash): the executor prints "Skipped" and returns
    [True]; the world is as before but for the two trace entries. *)
Lemma run_tenant_migration_skip `{Env} t f w db tt :
  dbs w !! t = Some db → history db = Some tt →
  (∃ r, r ∈ rows tt ∧ applied_with (name f) (get_migration_hash f) r) →
  run_tenant_migration t f w =
    (Ok true,
     with_trace w (trace w ++ [MigrateCall t (name f);
                               Print (MsgSkippedApplied (name f) t)])).
Proof.
  intros Hdb Hh Hex. apply already_applied_iff in Hex.
  unfold run_tenant_migration, get_applied_migrations. munfold.
  rewrite Hdb. simpl. rewrite Hh. simpl. rewrite Hex. simpl.
  by trace_norm.
Qed.

(** No recorded (name, hash) and an [upgrade] that goes through: the
    schema change is committed and one [applied] row is appended. *)
Lemma run_tenant_migration_apply `{Env} t f w db tt upgrade tables' :
  dbs w !! t = Some db → history db = Some tt →
  (∀ r, r ∈ rows tt → ¬ applied_with (name f) (get_migration_hash f) r) →
  module f = Upgrade upgrade → upgrade (tables db) = Some tables' →
  ∃ w1,
    run_tenant_migration t f w = (Ok true, w1)
    ∧ static w w1
    ∧ trace w1 = trace w ++ [MigrateCall t (name f);
                             Print (MsgApplied (name f) t)]
    ∧ dbs w1 =
        <[t := {| tables := tables';
                  history :=
                    Some (insert_row tt (name f) (get_migration_hash f)
                            (current_timestamp (db_txns w)) applied None);
                  create_allowed := create_allowed db |}]> (dbs w).
Proof.
  intros Hdb Hh Hno Hmod Hup. apply already_applied_none in Hno.
  unfold run_tenant_migration, get_applied_migrations,
    record_migration_success, read_current_timestamp. munfold.
  rewrite Hdb. simpl. rewrite Hh. simpl. rewrite Hno, Hmod. simpl.
  rewrite Hdb. simpl. rewrite Hup. simpl.
  rewrite lookup_insert_eq. simpl. rewrite Hh. simpl.
  eexists. split; [reflexivity|]. frame_goals.
  simpl. by rewrite insert_insert_eq.
Qed.

Lemma filter_none {A} (P : A → Prop) `{∀ x, Decision (P x)} (l : list A) :
  (∀ x, x ∈ l → ¬ P x) → filter P l = [].
Proof.
  induction l as [|x l IH]; intros Hno; [done|].
  rewrite filter_cons_False by (apply Hno; left).
  apply IH. intros y Hy. apply Hno. by right.
Qed.

(** C3. On a reachable tenant with a tracking table: (1) if an [applied]
    row already carries the file's name and the hash of its content, the
    executor prints "Skipped" and returns [True], and nothing but the
    trace changes: no [upgrade], no new row.  (2) If no such row exists
    and the [upgrade] goes through, the first call applies the file and
    appends one [applied] row, a second call with the same content is
    skipped and changes no database, so exactly one [applied] row carries
    this (name, hash); and a file of the same name whose content hashes
    differently (and was not applied before) is not skipped: its
    [upgrade] is run and a second [applied] row, under the new hash, is
    appended. *)
Theorem run_tenant_migration_idempotent `{Env} (t : string)
    (f : MigrationFile) (w : World) (db : TenantDb) (tt : TrackingTable) :
  dbs w !! t = Some db →
  history db = Some tt →
  ((∃ r, r ∈ rows tt ∧ applied_with (name f) (get_migration_hash f) r) →
   run_tenant_migration t f w =
     (Ok true,
      with_trace w (trace w ++ [MigrateCall t (name f);
                                Print (MsgSkippedApplied (name f) t)])))
  ∧
  (∀ upgrade tables',
     (∀ r, r ∈ rows tt → ¬ applied_with (name f) (get_migration_hash f) r) →
     module f = Upgrade upgrade →
     upgrade (tables db) = Some tables' →
     ∃ w1 db1 tt1 row,
       run_tenant_migration t f w = (Ok true, w1)
       ∧ trace w1 = trace w ++ [MigrateCall t (name f);
                                Print (MsgApplied (name f) t)]
       ∧ dbs w1 !! t = Some db1
       ∧ tables db1 = tables'
       ∧ history db1 = Some tt1
       ∧ rows tt1 = rows tt ++ [row]
       ∧ applied_with (name f) (get_migration_hash f) row
       ∧ length (filter (applied_with (name f) (get_migration_hash f))
                   (rows tt1)) = 1%nat
       ∧ (∃ w2,
            run_tenant_migration t f w1 = (Ok true, w2)
            ∧ dbs w2 = dbs w1
            ∧ trace w2 = trace w1 ++ [MigrateCall t (name f);
                                      Print (MsgSkippedApplied (name f) t)])
       ∧ (∀ f' upgrade' tables'',
            name f' = name f →
            get_migration_hash f' ≠ get_migration_hash f →
            (∀ r, r ∈ rows tt →
                  ¬ applied_with (name f) (get_migration_hash f') r) →
            module f' = Upgrade upgrade' →
            upgrade' tables' = Some tables'' →
            ∃ w3 db3 tt3 row',
              run_tenant_migration t f' w1 = (Ok true, w3)
              ∧ trace w3 = trace w1 ++ [MigrateCall t (name f);
                                        Print (MsgApplied (name f) t)]
              ∧ dbs w3 !! t = Some db3
              ∧ tables db3 = tables''
              ∧ history db3 = Some tt3
              ∧ rows tt3 = rows tt ++ [row; row']
              ∧ applied_with (name f) (get_migration_hash f') row')).
Proof.
  intros Hdb Hh. split; [by apply (run_tenant_migration_skip t f w db tt)|].
  intros upgrade tables' Hno Hmod Hup.
  destruct (run_tenant_migration_apply t f w db tt upgrade tables'
              Hdb Hh Hno Hmod Hup) as (w1 & Hrun & Hst & Htr & Hdbs).
  set (row := {| row_id := next_id tt; migration_file := name f;
                 migration_hash := get_migration_hash f;
                 applied_at := current_timestamp (db_txns w);
                 status := applied; checkpoint_data := None |}).
  set (tt1 := insert_row tt (name f) (get_migration_hash f)
                (current_timestamp (db_txns w)) applied None) in *.
  set (db1 := {| tables := tables'; history := Some tt1;
                 create_allowed := create_allowed db |}) in *.
  assert (dbs w1 !! t = Some db1) as Hdb1
    by (rewrite Hdbs; apply lookup_insert_eq).
  assert (applied_with (name f) (get_migration_hash f) row) as Hrow by done.
  exists w1, db1, tt1, row.
  split; [done|]. split; [done|]. split; [done|]. split; [done|].
  split; [done|]. split; [done|]. split; [done|].
  split.
  { simpl. rewrite filter_app, (filter_none _ (rows tt)) by done.
    by rewrite filter_cons_True. }
  split.
  { eexists. split.
    - apply (run_tenant_migration_skip t f w1 db1 tt1); [done..|].
      exists row. split; [|done]. simpl. apply elem_of_app. right. left.
    - done. }
  intros f' upgrade' tables'' Hname Hhash Hno' Hmod' Hup'.
  destruct (run_tenant_migration_apply t f' w1 db1 tt1 upgrade' tables'')
    as (w3 & Hrun3 & Hst3 & Htr3 & Hdbs3); [done|done| |done|done|].
  { intros r Hr [Hs [Hf Hhh]]. simpl in Hr.
    apply elem_of_app in Hr as [Hr|Hr].
    - apply (Hno' r Hr). rewrite <- Hname. done.
    - apply list_elem_of_singleton in Hr. subst r. simpl in Hhh. done. }
  rewrite Hname in *.
  eexists w3, _, _, _. split; [done|]. split; [done|].
  split; [rewrite Hdbs3; apply lookup_insert_eq|].
  split; [done|]. split; [done|].
  split; [simpl; by rewrite <- (assoc (++))|].
  done.
Qed.

Lemma run_tenant_migration_idempotent_witness :
  dbs (sample_world [create_activity_table] [("db_aaa", fresh_db)]) !! "db_aaa"
    = Some fresh_db
  ∧ history fresh_db = Some empty_table
  ∧ ∃ w1 w2,
      @run_tenant_migration sample_env "db_aaa" create_activity_table
        (sample_world [create_activity_table] [("db_aaa", fresh_db)])
        = (Ok true, w1)
      ∧ @run_tenant_migration sample_env "db_aaa" create_activity_table w1
        = (Ok true, w2)
      ∧ dbs w2 = dbs w1.
Proof.
  split; [reflexivity|]. split; [reflexivity|].
  destruct (@run_tenant_migration_idempotent sample_env "db_aaa"
              create_activity_table
              (sample_world [create_activity_table] [("db_aaa", fresh_db)])
              fresh_db empty_table eq_refl eq_refl) as [_ Happly].
  destruct (Happly (create_table "activity") ["leads"; "activity"])
    as (w1 & db1 & tt1 & row & Hrun & _ & _ & _ & _ & _ & _ & _
        & (w2 & Hrun2 & Hdbs2 & _) & _).
  - intros r Hr. simpl in Hr. by apply not_elem_of_nil in Hr.
  - reflexivity.
  - reflexivity.
  - exists w1, w2. split; [exact Hrun|]. split; [exact Hrun2|exact Hdbs2].
Defined.

(** ** Failures of the executor *)

(** With a tracking table in place, anything but a [True] result leaves
    every database as it was. *)
Lemma run_tenant_migration_failure_keeps_dbs `{Env} t f w db tt r w' :
  dbs w !! t = Some db → history db = Some tt →
  run_tenant_migration t f w = (r, w') → r ≠ Ok true →
  dbs w' = dbs w.
Proof.
  intros Hdb Hh. 
  unfold run_tenant_migration, get_applied_migrations,
    record_migration_success, read_current_timestamp. munfold.
  rewrite Hdb. simpl. rewrite Hh. simpl.
  mcase; intros Hrun Hr; simplify_eq; simpl in *; congruence.
Qed.

(** C4, at the failing input: a reachable tenant database without the
    tracking table and the repository's migration file.  The executor
    commits [CREATE TABLE activity], cannot record the success, and
    returns [False]: the schema has changed although the call failed. *)
Theorem run_tenant_migration_commits_then_fails :
  let w := sample_world [create_activity_table] [("db_aaa", untracked_db)] in
  ∃ w',
    @run_tenant_migration sample_env "db_aaa" create_activity_table w
      = (Ok false, w')
    ∧ tables <$> dbs w !! "db_aaa" = Some ["leads"]
    ∧ tables <$> dbs w' !! "db_aaa" = Some ["leads"; "activity"]
    ∧ history <$> dbs w' !! "db_aaa" = Some None
    ∧ trace w' =
        [MigrateCall "db_aaa" "dcbb9a6075b4_create_activity_table.py";
         Print (MsgError "dcbb9a6075b4_create_activity_table.py" "db_aaa")].
Proof.
  eexists. split; [vm_compute; reflexivity|]. by vm_compute.
Qed.

(** A file without [upgrade] that is not recorded as applied: the
    executor returns [False] and changes no database. *)
Lemma run_tenant_migration_no_upgrade `{Env} t f w :
  module f = NoUpgrade →
  (∀ db tt, dbs w !! t = Some db → history db = Some tt →
     ∀ r, r ∈ rows tt → ¬ applied_with (name f) (get_migration_hash f) r) →
  ∃ w' m,
    run_tenant_migration t f w = (Ok false, w')
    ∧ static w w' ∧ dbs w' = dbs w
    ∧ trace w' = trace w ++ [MigrateCall t (name f); Print m]
    ∧ (is_Some (dbs w !! t) → m = MsgNoUpgrade (name f)).
Proof.
  intros Hmod Hno.
  unfold run_tenant_migration, get_applied_migrations. munfold.
  destruct (dbs w !! t) as [db|] eqn:Hdb; simpl.
  - destruct (history db) as [tt|] eqn:Hh; simpl.
    + rewrite (already_applied_none tt) by eauto. rewrite Hmod. simpl.
      rewrite Hdb. simpl. do 2 eexists. split; [reflexivity|].
      by frame_goals.
    + rewrite Hmod. simpl. rewrite Hdb. simpl.
      do 2 eexists. split; [reflexivity|]. by frame_goals.
  - rewrite Hmod. simpl. rewrite Hdb. simpl.
    do 2 eexists. split; [reflexivity|]. frame_goals. by intros [? ?].
Qed.

Lemma rollback_to_checkpoint_found t cn w db tt c :
  dbs w !! t = Some db → history db = Some tt →
  select_latest_checkpoint tt cn = Some c →
  ∃ w',
    rollback_to_checkpoint t cn w = (Ok true, w')
    ∧ static w w'
    ∧ trace w' = trace w ++ [RollbackCall t cn; Print (MsgRolledBack t cn)]
    ∧ dbs w' =
        <[t := with_history db
                 {| rows := update_rolled_back (applied_at c) <$> rows tt;
                    next_id := next_id tt |}]> (dbs w).
Proof.
  intros Hdb Hh Hsel. unfold rollback_to_checkpoint. munfold.
  rewrite Hdb. simpl. rewrite Hh, Hsel. simpl.
  eexists. split; [reflexivity|]. by frame_goals.
Qed.

(** C10, as the code has it.  A file without [upgrade], attempted on a tenant that
    is not yet failed, whose checkpoint can be written and whose
    tracking table has no [applied] row for the file's (name, hash): the
    executor returns [False] without changing any database; the
    orchestrator then calls the rollback under the run's checkpoint name
    and adds the tenant to [failed_dbs]; the tenant's tables are as
    before. *)
Theorem no_upgrade_marks_failed `{Env} (cn : string) (f : MigrationFile)
    (t : string) (rs : RunState) (w : World) (db : TenantDb)
    (tt : TrackingTable) :
  module f = NoUpgrade →
  t ∉ failed_dbs rs →
  dbs w !! t = Some db →
  history db = Some tt →
  (∀ r, r ∈ rows tt → ¬ applied_with (name f) (get_migration_hash f) r) →
  ∃ data w1 w2 w' db',
    create_checkpoint t cn w = (Ok data, w1)
    ∧ run_tenant_migration t f w1 = (Ok false, w2)
    ∧ dbs w2 = dbs w1
    ∧ attempt cn f t rs w = (Ok (add_failed rs t), w')
    ∧ trace w' = trace w ++ [Checkpointed t cn;
                             MigrateCall t (name f);
                             Print (MsgNoUpgrade (name f));
                             Print (MsgRollingBack t);
                             RollbackCall t cn;
                             Print (MsgRolledBack t cn)]
    ∧ dbs w' !! t = Some db'
    ∧ tables db' = tables db.
Proof.
  intros Hmod Hnin Hdb Hh Hno.
  destruct (create_checkpoint_cases t cn w)
    as [(db0 & tt0 & data & w1 & Hdb0 & Hh0 & Hcp & Hst1 & Hdbs1 & Htr1)
       |(Hnt & _)].
  2:{ exfalso. specialize (Hnt db Hdb). congruence. }
  assert (db0 = db) as -> by congruence.
  assert (tt0 = tt) as -> by congruence.
  set (tt1 := insert_row tt cn "checkpoint" (current_timestamp (db_txns w))
                checkpoint (Some data)) in *.
  assert (dbs w1 !! t = Some (with_history db tt1)) as Hdb1
    by (rewrite Hdbs1; apply lookup_insert_eq).
  destruct (run_tenant_migration_no_upgrade t f w1 Hmod)
    as (w2 & m & Hrun & Hst2 & Hdbs2 & Htr2 & Hm).
  { intros db' tt' Hdb' Hh' r Hr. rewrite Hdb1 in Hdb'. simplify_eq.
    simpl in Hh'. simplify_eq. simpl in Hr.
    apply elem_of_app in Hr as [Hr|Hr]; [by apply Hno|].
    apply list_elem_of_singleton in Hr. subst r. by intros [? _]. }
  rewrite Hm in Htr2 by (rewrite Hdb1; eauto). clear Hm.
  destruct (select_latest_checkpoint tt1 cn) as [c|] eqn:Hsel.
  2:{ exfalso. rewrite select_latest_checkpoint_None in Hsel.
      eapply (Hsel _); [|split]; simpl.
      - apply elem_of_app. right. left.
      - done.
      - done. }
  destruct (rollback_to_checkpoint_found t cn
              (with_trace w2 (trace w2 ++ [Print (MsgRollingBack t)]))
              (with_history db tt1) tt1 c)
    as (w3 & Hrb & Hst3 & Htr3 & Hdbs3); [simpl; by rewrite Hdbs2|done..|].
  exists data, w1, w2, w3. eexists.
  split; [done|]. split; [done|]. split; [done|].
  split.
  { unfold attempt. rewrite decide_False by done.
    unfold try_except, mbind, M_bind at 1 2. rewrite Hcp.
    unfold mbind, M_bind. rewrite Hrun. munfold. by rewrite Hrb. }
  split.
  { rewrite Htr3. simpl. rewrite Htr2, Htr1. by trace_norm. }
  split; [rewrite Hdbs3; apply lookup_insert_eq|done].
Qed.

(** C10 does not hold as stated where the tracking table already has an
    [applied] row for the file: the executor skips the file and returns
    [True], no rollback is called, and the tenant is listed as
    successful. *)
Lemma no_upgrade_skipped_when_recorded :
  module only_downgrade = NoUpgrade
  ∧ ∃ w',
      @attempt sample_env "pre_migration_20250609_174925" only_downgrade
        "db_aaa" no_runs
        (sample_world [only_downgrade] [("db_aaa", stamped_db)])
      = (Ok {| successful_dbs := ["db_aaa"]; failed_dbs := [] |}, w')
      ∧ trace w' =
          [Checkpointed "db_aaa" "pre_migration_20250609_174925";
           MigrateCall "db_aaa" "f00dfeedbeef_only_downgrade.py";
           Print (MsgSkippedApplied "f00dfeedbeef_only_downgrade.py"
                    "db_aaa")].
Proof.
  split; [done|]. eexists. split; [vm_compute; reflexivity|]. by vm_compute.
Qed.

Lemma no_upgrade_marks_failed_witness :
  module only_downgrade = NoUpgrade
  ∧ ("db_aaa" ∉ failed_dbs no_runs)
  ∧ dbs (sample_world [only_downgrade] [("db_aaa", fresh_db)]) !! "db_aaa"
      = Some fresh_db
  ∧ history fresh_db = Some empty_table
  ∧ ∃ w',
      @attempt sample_env "pre_migration_20250609_174925" only_downgrade
        "db_aaa" no_runs
        (sample_world [only_downgrade] [("db_aaa", fresh_db)])
      = (Ok {| successful_dbs := []; failed_dbs := ["db_aaa"] |}, w').
Proof.
  split; [reflexivity|]. split; [apply not_elem_of_nil|].
  split; [reflexivity|]. split; [reflexivity|].
  destruct (@no_upgrade_marks_failed sample_env
              "pre_migration_20250609_174925" only_downgrade "db_aaa" no_runs
              (sample_world [only_downgrade] [("db_aaa", fresh_db)])
              fresh_db empty_table)
    as (data & w1 & w2 & w' & db' & _ & _ & _ & Hatt & _).
  - reflexivity.
  - apply not_elem_of_nil.
  - reflexivity.
  - reflexivity.
  - intros r Hr. simpl in Hr. by apply not_elem_of_nil in Hr.
  - exists w'. exact Hatt.
Defined.

(** ** The two lists of the run *)

Lemma add_successful_failed rs t :
  failed_dbs (add_successful rs t) = failed_dbs rs.
Proof. unfold add_successful. by destruct (decide _). Qed.

Lemma add_failed_successful rs t :
  successful_dbs (add_failed rs t) = successful_dbs rs.
Proof. unfold add_failed. by destruct (decide _). Qed.

Lemma elem_of_add_successful rs t x :
  x ∈ successful_dbs (add_successful rs t) ↔ x ∈ successful_dbs rs ∨ x = t.
Proof.
  unfold add_successful. destruct (decide _) as [Hin|Hnin]; simpl.
  - split; [by left|]. by intros [?| ->].
  - rewrite elem_of_app, list_elem_of_singleton. done.
Qed.

Lemma elem_of_add_failed rs t x :
  x ∈ failed_dbs (add_failed rs t) ↔ x ∈ failed_dbs rs ∨ x = t.
Proof.
  unfold add_failed. destruct (decide _) as [Hin|Hnin]; simpl.
  - split; [by left|]. by intros [?| ->].
  - rewrite elem_of_app, list_elem_of_singleton. done.
Qed.

Lemma add_successful_NoDup rs t :
  NoDup (successful_dbs rs) → NoDup (successful_dbs (add_successful rs t)).
Proof.
  unfold add_successful. destruct (decide _) as [Hin|Hnin]; simpl; [done|].
  intros Hnd. apply NoDup_app. split; [done|]. split; [|apply NoDup_singleton].
  intros x Hx ->%list_elem_of_singleton. done.
Qed.

Lemma add_failed_NoDup rs t :
  NoDup (failed_dbs rs) → NoDup (failed_dbs (add_failed rs t)).
Proof.
  unfold add_failed. destruct (decide _) as [Hin|Hnin]; simpl; [done|].
  intros Hnd. apply NoDup_app. split; [done|]. split; [|apply NoDup_singleton].
  intros x Hx ->%list_elem_of_singleton. done.
Qed.

(** What a step does to the two lists. *)
Lemma run_step_lists `{Env} cn s rs w rs' w' :
  run_step cn s rs w = (Ok rs', w') →
  rs' = rs
  ∨ (∃ f t, s = Attempt f t ∧ (t ∉ failed_dbs rs)
            ∧ (rs' = add_successful rs t ∨ rs' = add_failed rs t)).
Proof.
  intros Hrun.
  destruct (run_step_cases cn s rs w) as (rs1 & w1 & evs & Hrun1 & _ & _ & Hc).
  rewrite Hrun in Hrun1. simplify_eq.
  destruct s as [f|f t]; [by left; destruct Hc|].
  destruct Hc as [_ [(_ & -> & _)|[(Hnin & _ & -> & _)|(Hnin & _ & rest & _ & _ & Hrs)]]].
  - by left.
  - right. exists f, t. eauto.
  - right. exists f, t. eauto.
Qed.

Lemma run_step_failed_mono `{Env} cn s rs w rs' w' x :
  run_step cn s rs w = (Ok rs', w') →
  x ∈ failed_dbs rs → x ∈ failed_dbs rs'.
Proof.
  intros Hrun Hx.
  destruct (run_step_lists cn s rs w rs' w' Hrun)
    as [->|(f & t & _ & _ & [->| ->])]; [done|..].
  - by rewrite add_successful_failed.
  - apply elem_of_add_failed. by left.
Qed.

(** C1, as the code has it.  Every pass through the body of the inner loop returns
    and leaves the two lists as they were, or appends the tenant to
    [successful_dbs], or appends it to [failed_dbs]; the tenant is not in
    [failed_dbs] when either happens.  Nothing is ever removed from a
    list, and a list never holds a tenant twice.  So a tenant can be in
    both lists only by succeeding first and failing later, and then it
    stays in [successful_dbs]. *)
Theorem run_state_lists `{Env} (cn : string) :
  (∀ f t rs w,
     ∃ rs' w',
       attempt cn f t rs w = (Ok rs', w')
       ∧ (rs' = rs
          ∨ ((t ∉ failed_dbs rs)
             ∧ (rs' = add_successful rs t ∨ rs' = add_failed rs t)))
       ∧ successful_dbs rs ⊆ successful_dbs rs'
       ∧ failed_dbs rs ⊆ failed_dbs rs'
       ∧ (NoDup (successful_dbs rs) → NoDup (successful_dbs rs'))
       ∧ (NoDup (failed_dbs rs) → NoDup (failed_dbs rs')))
  ∧ (∀ fs ts w,
       ∃ rs' w',
         for_files cn fs ts {| successful_dbs := []; failed_dbs := [] |} w
           = (Ok rs', w')
         ∧ NoDup (successful_dbs rs') ∧ NoDup (failed_dbs rs')).
Proof.
  assert (∀ s rs w rs' w', run_step cn s rs w = (Ok rs', w') →
            successful_dbs rs ⊆ successful_dbs rs'
            ∧ failed_dbs rs ⊆ failed_dbs rs'
            ∧ (NoDup (successful_dbs rs) → NoDup (successful_dbs rs'))
            ∧ (NoDup (failed_dbs rs) → NoDup (failed_dbs rs'))) as Hstep.
  { intros s rs w rs' w' Hrun.
    destruct (run_step_lists cn s rs w rs' w' Hrun)
      as [->|(f & t & _ & _ & [->| ->])]; [done|..].
    - rewrite add_successful_failed. split; [|split; [done|]].
      + intros x Hx. apply elem_of_add_successful. by left.
      + split; [apply add_successful_NoDup|done].
    - rewrite add_failed_successful. split; [done|]. split.
      + intros x Hx. apply elem_of_add_failed. by left.
      + split; [done|apply add_failed_NoDup]. }
  split.
  - intros f t rs w.
    destruct (run_step_cases cn (Attempt f t) rs w)
      as (rs' & w' & evs & Hrun & _).
    exists rs', w'. split; [done|]. split.
    + destruct (run_step_lists cn _ rs w rs' w' Hrun)
        as [->|(f' & t' & ? & ? & ?)]; [by left|]. simplify_eq. by right.
    + by apply (Hstep (Attempt f t) rs w rs' w').
  - intros fs ts w.
    destruct (run_steps_invariant cn
                (λ _ rs _, NoDup (successful_dbs rs) ∧ NoDup (failed_dbs rs)))
      with (ss := schedule fs ts)
           (rs := {| successful_dbs := []; failed_dbs := [] |}) (w := w)
      as (rs' & w' & Hrun & Hnd).
    + intros s ss rs0 w0 rs1 w1 [Hs Hf] Hrun.
      destruct (Hstep s rs0 w0 rs1 w1 Hrun) as (_ & _ & Hs' & Hf'). eauto.
    + simpl. split; apply NoDup_nil_2.
    + exists rs', w'. by rewrite for_files_steps.
Qed.

(** C1 does not hold as stated.  Two tenants, two migrations, the second
    migration failing on [db_bbb] only: [db_bbb] succeeded on the first
    and is listed as successful and as failed in the summary. *)
Lemma succeeded_then_failed_in_both :
  (@run_all_tenant_migrations sample_env two_tenants).1 = Ok false
  ∧ last (trace (@run_all_tenant_migrations sample_env two_tenants).2)
    = Some (Print (MsgSummary ["db_aaa"; "db_bbb"] ["db_bbb"]
                     "pre_migration_20250609_174925")).
Proof. split; by vm_compute. Qed.

(** ** Isolation of a failed tenant *)

Lemma attempts_of_app t tr1 tr2 :
  attempts_of t (tr1 ++ tr2) = attempts_of t tr1 ++ attempts_of t tr2.
Proof. apply omap_app. Qed.

Lemma calls_of_app t tr1 tr2 :
  calls_of t (tr1 ++ tr2) = calls_of t tr1 ++ calls_of t tr2.
Proof. apply filter_app. Qed.

Lemma aftermath_attempts t t' cn evs :
  Forall (is_aftermath t' cn) evs → attempts_of t evs = [].
Proof.
  induction 1 as [|e evs He _ IH]; [done|].
  destruct e as [| | |m]; simpl in *; try done.
Qed.

Lemma aftermath_calls t t' cn evs :
  t' ≠ t → Forall (is_aftermath t' cn) evs → calls_of t evs = [].
Proof.
  intros Hne. induction 1 as [|e evs He _ IH]; [done|].
  unfold calls_of in *.
  destruct e as [| |t0 cn0|m]; simpl in *; try done.
  destruct He as [-> ->]. rewrite filter_cons_False; [done|].
  simpl. congruence.
Qed.

(** A step that is not an attempt on [t] leaves the database of [t] and
    its calls alone. *)
Lemma run_step_other `{Env} cn s rs w rs' w' t :
  run_step cn s rs w = (Ok rs', w') →
  (∀ f, s ≠ Attempt f t) →
  dbs w' !! t = dbs w !! t
  ∧ ∃ evs, trace w' = trace w ++ evs
           ∧ calls_of t evs = [] ∧ attempts_of t evs = [].
Proof.
  intros Hrun Hs.
  destruct (run_step_cases cn s rs w)
    as (rs1 & w1 & evs & Hrun1 & _ & Htr & Hc).
  rewrite Hrun in Hrun1. simplify_eq.
  destruct s as [f|f t'].
  { destruct Hc as (_ & -> & ->). split; [done|]. by eexists. }
  assert (t' ≠ t) as Hne by (intros ->; by apply (Hs f)).
  destruct Hc as [Hoth Hc]. split; [by apply Hoth|].
  exists evs. split; [done|].
  destruct Hc as [(_ & _ & _ & ->)
                 |[(_ & _ & _ & _ & Haft)|(_ & _ & rest & -> & Haft & _)]].
  - done.
  - split; [by eapply aftermath_calls|by eapply aftermath_attempts].
  - split.
    + unfold calls_of. rewrite !filter_cons_False by (simpl; congruence).
      by eapply aftermath_calls.
    + simpl. rewrite decide_False by done. by eapply aftermath_attempts.
Qed.

(** An attempt on a tenant of [failed_dbs] only prints. *)
Lemma run_step_skipped `{Env} cn f t rs w rs' w' :
  run_step cn (Attempt f t) rs w = (Ok rs', w') →
  t ∈ failed_dbs rs →
  rs' = rs ∧ dbs w' = dbs w
  ∧ trace w' = trace w ++ [Print (MsgSkippedFailed t)].
Proof.
  intros Hrun Hin.
  destruct (run_step_cases cn (Attempt f t) rs w)
    as (rs1 & w1 & evs & Hrun1 & _ & Htr & _ & Hc).
  rewrite Hrun in Hrun1. simplify_eq.
  destruct Hc as [(_ & -> & -> & ->)|[(Hnin & _)|(Hnin & _)]]; done.
Qed.

(** An attempt on a tenant outside [failed_dbs] either adds it there or
    calls the executor on the file, once. *)
Lemma run_step_attempted `{Env} cn f t rs w rs' w' :
  run_step cn (Attempt f t) rs w = (Ok rs', w') →
  t ∉ failed_dbs rs →
  t ∈ failed_dbs rs'
  ∨ ∃ evs, trace w' = trace w ++ evs ∧ attempts_of t evs = [name f].
Proof.
  intros Hrun Hnin.
  destruct (run_step_cases cn (Attempt f t) rs w)
    as (rs1 & w1 & evs & Hrun1 & _ & Htr & _ & Hc).
  rewrite Hrun in Hrun1. simplify_eq.
  destruct Hc as [(Hin & _)
                 |[(_ & _ & -> & _)|(_ & _ & rest & -> & Haft & _)]].
  - done.
  - left. apply elem_of_add_failed. by right.
  - right. eexists. split; [done|]. simpl. rewrite decide_True by done.
    by erewrite aftermath_attempts.
Qed.

Lemma planned_for_schedule t fs ts :
  planned_for t (schedule fs ts) =
  fs ≫= λ f, replicate (length (filter (λ x, x = t) ts)) (name f).
Proof.
  unfold planned_for, schedule. induction fs as [|f fs IH]; [done|].
  rewrite !bind_cons, omap_app, IH. f_equal. simpl.
  clear IH. induction ts as [|t' ts IH]; [done|]. simpl.
  destruct (decide (t' = t)) as [->|Hne].
  - rewrite filter_cons_True by done. simpl. by f_equal.
  - by rewrite filter_cons_False.
Qed.

Lemma planned_for_schedule_NoDup t fs ts :
  NoDup ts → t ∈ ts → planned_for t (schedule fs ts) = name <$> fs.
Proof.
  intros Hnd Hin. rewrite planned_for_schedule.
  assert (length (filter (λ x, x = t) ts) = 1%nat) as ->.
  { induction Hnd as [|x l Hx Hnd IH]; [by apply not_elem_of_nil in Hin|].
    apply elem_of_cons in Hin as [->|Hin].
    - rewrite filter_cons_True by done. simpl. f_equal.
      rewrite filter_none; [done|]. by intros y Hy ->.
    - rewrite filter_cons_False by (by intros ->). by apply IH. }
  induction fs as [|f fs IH]; [done|]. rewrite bind_cons, IH. done.
Qed.

Lemma step_attempt_cases s t :
  (∃ f, s = Attempt f t) ∨ (∀ f, s ≠ Attempt f t).
Proof.
  destruct s as [f|f t']; [by right|].
  destruct (decide (t' = t)) as [->|Hne]; [left; eauto|right; congruence].
Qed.

Lemma run_steps_failed_frozen `{Env} cn t ss rs w :
  t ∈ failed_dbs rs →
  ∃ rs' w',
    run_steps cn ss rs w = (Ok rs', w')
    ∧ t ∈ failed_dbs rs'
    ∧ dbs w' !! t = dbs w !! t
    ∧ calls_of t (trace w') = calls_of t (trace w).
Proof.
  intros Hin.
  apply (run_steps_invariant cn
           (λ _ rs1 w1, t ∈ failed_dbs rs1 ∧ dbs w1 !! t = dbs w !! t
                        ∧ calls_of t (trace w1) = calls_of t (trace w)));
    [|done].
  intros s ss' rs0 w0 rs1 w1 (Hin0 & Hdb0 & Hcalls0) Hrun.
  split; [by eapply run_step_failed_mono|].
  destruct (step_attempt_cases s t) as [[f ->]|Hother].
  - destruct (run_step_skipped cn f t rs0 w0 rs1 w1 Hrun Hin0)
      as (_ & -> & ->).
    split; [done|]. rewrite calls_of_app, Hcalls0. apply app_nil_r.
  - destruct (run_step_other cn s rs0 w0 rs1 w1 t Hrun)
      as (Hdb & evs & -> & Hc & _); [done|].
    split; [congruence|]. rewrite calls_of_app, Hc, Hcalls0. apply app_nil_r.
Qed.

Lemma run_steps_attempts `{Env} cn t ss rs w rs' w' :
  run_steps cn ss rs w = (Ok rs', w') →
  t ∉ failed_dbs rs' →
  ∃ evs, trace w' = trace w ++ evs ∧ attempts_of t evs = planned_for t ss.
Proof.
  intros Hrun Hnin.
  destruct (run_steps_invariant cn
              (λ ss1 rs1 w1,
                 t ∈ failed_dbs rs1
                 ∨ ∃ evs, trace w1 = trace w ++ evs
                          ∧ attempts_of t evs ++ planned_for t ss1
                            = planned_for t ss)) with (ss := ss) (rs := rs)
      (w := w) as (rs1 & w1 & Hrun1 & HI).
  - intros s ss' rs0 w0 rs1 w1 HI Hstep.
    destruct (decide (t ∈ failed_dbs rs0)) as [Hin0|Hnin0].
    { left. by eapply run_step_failed_mono. }
    destruct HI as [?|(evs0 & Htr0 & Hplan)]; [done|].
    destruct (step_attempt_cases s t) as [[f ->]|Hother].
    + destruct (run_step_attempted cn f t rs0 w0 rs1 w1 Hstep Hnin0)
        as [?|(evs & Htr & Hatt)]; [by left|].
      right. exists (evs0 ++ evs). split.
      * by rewrite Htr, Htr0, (assoc (++)).
      * rewrite attempts_of_app, Hatt, <- Hplan, <- (assoc (++)).
        simpl. by rewrite decide_True.
    + destruct (run_step_other cn s rs0 w0 rs1 w1 t Hstep)
        as (_ & evs & Htr & _ & Hatt); [done|].
      right. exists (evs0 ++ evs). split.
      * by rewrite Htr, Htr0, (assoc (++)).
      * rewrite attempts_of_app, Hatt, app_nil_r, <- Hplan. f_equal.
        destruct s as [f|f t']; [done|]. simpl.
        rewrite decide_False; [done|]. intros ->. by apply (Hother f).
  - right. exists []. by rewrite app_nil_r.
  - rewrite Hrun in Hrun1. simplify_eq.
    destruct HI as [?|(evs & Htr & Hatt)]; [done|].
    exists evs. split; [done|]. by rewrite app_nil_r in Hatt.
Qed.

(** The body of the inner loop on a tenant that is not failed, by the
    result of the checkpoint and of the executor. *)
Lemma attempt_outcome `{Env} cn f t rs w :
  t ∉ failed_dbs rs →
  (no_tracking t w ∧ (attempt cn f t rs w).1 = Ok (add_failed rs t))
  ∨ ∃ data w1,
      create_checkpoint t cn w = (Ok data, w1)
      ∧ match run_tenant_migration t f w1 with
        | (Ok true, w2) =>
            attempt cn f t rs w = (Ok (add_successful rs t), w2)
        | _ => (attempt cn f t rs w).1 = Ok (add_failed rs t)
        end.
Proof.
  intros Hnin.
  destruct (create_checkpoint_cases t cn w)
    as [(db & tt & data & w1 & _ & _ & Hcp & _)|(Hno & w1 & Hcp & _)].
  - right. exists data, w1. split; [done|].
    destruct (run_tenant_migration t f w1) as [[[|]|] w2] eqn:Hrun.
    all: unfold attempt; rewrite decide_False by done.
    all: unfold try_except, mbind, M_bind at 1 2; rewrite Hcp.
    all: unfold mbind, M_bind; rewrite Hrun.
    + done.
    + munfold.
      repeat match goal with
      | |- context [rollback_to_checkpoint ?a ?b ?w0] =>
          destruct (rollback_to_checkpoint a b w0) as [[?|] ?]; simpl
      end; done.
    + munfold.
      repeat match goal with
      | |- context [rollback_to_checkpoint ?a ?b ?w0] =>
          destruct (rollback_to_checkpoint a b w0) as [[?|] ?]; simpl
      end; done.
  - left. split; [done|].
    unfold attempt. rewrite decide_False by done.
    unfold try_except, mbind, M_bind at 1 2. rewrite Hcp.
    munfold.
    repeat match goal with
    | |- context [rollback_to_checkpoint ?a ?b ?w0] =>
        destruct (rollback_to_checkpoint a b w0) as [[?|] ?]; simpl
    end; done.
Qed.

(** The turn of a tenant that is not failed: it is attempted, and it is
    the only tenant the attempt can fail, touch or call. *)
Lemma attempt_turn `{Env} cn f t rs w :
  t ∉ failed_dbs rs →
  ∃ rs' w' evs,
    attempt cn f t rs w = (Ok rs', w')
    ∧ trace w' = trace w ++ evs
    ∧ (∀ t', t' ≠ t →
         (t' ∈ failed_dbs rs' ↔ t' ∈ failed_dbs rs)
         ∧ dbs w' !! t' = dbs w !! t'
         ∧ calls_of t' evs = [])
    ∧ ((no_tracking t w ∧ attempts_of t evs = [] ∧ rs' = add_failed rs t)
       ∨ (∃ data w1,
            create_checkpoint t cn w = (Ok data, w1)
            ∧ attempts_of t evs = [name f]
            ∧ match run_tenant_migration t f w1 with
              | (Ok true, w2) => rs' = add_successful rs t ∧ w' = w2
              | _ => rs' = add_failed rs t
              end)).
Proof.
  intros Hnin.
  destruct (attempt_cases cn f t rs w)
    as (rs' & w' & evs & Hatt & _ & Hoth & Htr & Hc).
  exists rs', w', evs. split; [done|]. split; [done|].
  destruct Hc as [(Hin & _)
                 |[(_ & Hno & -> & _ & Haft)
                  |(_ & (db & tt & Hdb & Hh) & rest & -> & Haft & Hrs)]];
    [done|..].
  - split.
    { intros t' Hne. split; [|split; [by apply Hoth|]].
      - rewrite elem_of_add_failed. split; [by intros [?|?]|by left].
      - by eapply aftermath_calls. }
    left. split; [done|]. split; [by eapply aftermath_attempts|done].
  - split.
    { intros t' Hne. split; [|split; [by apply Hoth|]].
      - destruct Hrs as [-> | ->].
        + by rewrite add_successful_failed.
        + rewrite elem_of_add_failed. split; [by intros [?|?]|by left].
      - unfold calls_of.
        rewrite !filter_cons_False by (simpl; congruence).
        by eapply aftermath_calls. }
    right.
    destruct (attempt_outcome cn f t rs w Hnin)
      as [[Hno _]|(data & w1 & Hcp & Hout)].
    { specialize (Hno db Hdb). congruence. }
    exists data, w1. split; [done|]. split.
    { unfold attempts_of. simpl. rewrite decide_True by done. simpl.
      f_equal. by eapply aftermath_attempts. }
    rewrite Hatt in Hout.
    destruct (run_tenant_migration t f w1) as [[[|]|] w2];
      simpl in Hout; by simplify_eq.
Qed.

(** A tenant that fails during the loops fails at one of its own
    turns. *)
Lemma run_steps_first_failure `{Env} cn t ss rs w rs' w' :
  run_steps cn ss rs w = (Ok rs', w') →
  t ∉ failed_dbs rs → t ∈ failed_dbs rs' →
  ∃ done f rest rs0 w0,
    ss = done ++ Attempt f t :: rest
    ∧ run_steps cn done rs w = (Ok rs0, w0)
    ∧ (t ∉ failed_dbs rs0)
    ∧ (attempt cn f t rs0 w0).1 = Ok (add_failed rs0 t)
    ∧ run_steps cn rest (add_failed rs0 t) (attempt cn f t rs0 w0).2
      = (Ok rs', w').
Proof.
  revert rs w. induction ss as [|s ss IH]; intros rs w Hrun Hnin Hin.
  { simpl in Hrun. munfold. by simplify_eq. }
  destruct (run_step_cases cn s rs w) as (rs1 & w1 & evs & Hstep & _).
  simpl in Hrun. unfold mbind, M_bind in Hrun. rewrite Hstep in Hrun.
  destruct (decide (t ∈ failed_dbs rs1)) as [Hin1|Hnin1].
  - destruct (run_step_lists cn s rs w rs1 w1 Hstep)
      as [->|(f & t0 & -> & _ & [->| ->])]; [done|..].
    { by rewrite add_successful_failed in Hin1. }
    apply elem_of_add_failed in Hin1 as [?| ->]; [done|].
    simpl in Hstep.
    exists [], f, ss, rs, w. split; [done|]. split; [done|].
    split; [done|]. by rewrite Hstep.
  - destruct (IH rs1 w1 Hrun Hnin1 Hin)
      as (done & f & rest & rs0 & w0 & -> & Hdone & Hnin0 & Hfail & Hrest).
    exists (s :: done), f, rest, rs0, w0. split; [done|].
    split; [|done]. simpl. unfold mbind, M_bind. by rewrite Hstep.
Qed.

(** C5.  (1) The loops always return: no failure of a tenant raises out
    of them.  (2) From any point of the inner loop at which [t] is in
    [failed_dbs], over the rest of that loop and all further files: [t]
    stays in [failed_dbs], its database is not touched and the trace
    gains no checkpoint, executor call or rollback of [t].  (3) A tenant
    that is not in [failed_dbs] at the end had the executor called on
    every file, in catalogue order, once per occurrence in the tenant
    list; so exactly on the files in order when it is listed once.
    (4) At the turn of a tenant [t] that is not in [failed_dbs], the body
    of the inner loop attempts it: without a tracking table the
    checkpoint raises and [t] is failed; otherwise the checkpoint is
    written, the executor is called on the file, and [t] is added to
    [successful_dbs] when the executor returns [True] and to
    [failed_dbs] when it returns [False] or raises.  No other tenant
    enters or leaves [failed_dbs] at that turn, and no other tenant's
    database or calls are touched.  (5) The loops are their schedule run
    step by step, and a tenant that fails during the loops fails at one
    of its own turns: until then it had the executor called on every
    file of the schedule, and after it no call of it is made. *)
Theorem failed_tenant_isolated `{Env} (cn : string) :
  (∀ fs ts rs w, ∃ rs' w', for_files cn fs ts rs w = (Ok rs', w'))
  ∧ (∀ t f rest fs ts rs w,
       t ∈ failed_dbs rs →
       ∃ rs1 w1 rs2 w2,
         for_tenants cn f rest rs w = (Ok rs1, w1)
         ∧ for_files cn fs ts rs1 w1 = (Ok rs2, w2)
         ∧ t ∈ failed_dbs rs2
         ∧ dbs w2 !! t = dbs w !! t
         ∧ calls_of t (trace w2) = calls_of t (trace w))
  ∧ (∀ t fs ts rs w rs' w',
       for_files cn fs ts rs w = (Ok rs', w') →
       t ∉ failed_dbs rs' →
       ∃ evs,
         trace w' = trace w ++ evs
         ∧ attempts_of t evs =
             (fs ≫= λ f, replicate (length (filter (λ x, x = t) ts)) (name f))
         ∧ (NoDup ts → t ∈ ts → attempts_of t evs = name <$> fs))
  ∧ (∀ f t rs w,
       t ∉ failed_dbs rs →
       ∃ rs' w' evs,
         attempt cn f t rs w = (Ok rs', w')
         ∧ trace w' = trace w ++ evs
         ∧ (∀ t', t' ≠ t →
              (t' ∈ failed_dbs rs' ↔ t' ∈ failed_dbs rs)
              ∧ dbs w' !! t' = dbs w !! t'
              ∧ calls_of t' evs = [])
         ∧ ((no_tracking t w ∧ attempts_of t evs = []
             ∧ rs' = add_failed rs t)
            ∨ (∃ data w1,
                 create_checkpoint t cn w = (Ok data, w1)
                 ∧ attempts_of t evs = [name f]
                 ∧ match run_tenant_migration t f w1 with
                   | (Ok true, w2) => rs' = add_successful rs t ∧ w' = w2
                   | _ => rs' = add_failed rs t
                   end)))
  ∧ (∀ fs ts rs w,
       for_files cn fs ts rs w = run_steps cn (schedule fs ts) rs w)
  ∧ (∀ t fs ts rs w rs' w',
       for_files cn fs ts rs w = (Ok rs', w') →
       t ∉ failed_dbs rs → t ∈ failed_dbs rs' →
       ∃ done f rest rs0 w0 evs0,
         schedule fs ts = done ++ Attempt f t :: rest
         ∧ run_steps cn done rs w = (Ok rs0, w0)
         ∧ (t ∉ failed_dbs rs0)
         ∧ trace w0 = trace w ++ evs0
         ∧ attempts_of t evs0 = planned_for t done
         ∧ (attempt cn f t rs0 w0).1 = Ok (add_failed rs0 t)
         ∧ run_steps cn rest (add_failed rs0 t) (attempt cn f t rs0 w0).2
           = (Ok rs', w')
         ∧ calls_of t (trace w') = calls_of t (trace (attempt cn f t rs0 w0).2)).
Proof.
  split; [|split; [|split; [|split; [|split]]]].
  - intros fs ts rs w.
    destruct (run_steps_invariant cn (λ _ _ _, True)) with
      (ss := schedule fs ts) (rs := rs) (w := w) as (rs' & w' & Hrun & _);
      [done..|].
    exists rs', w'. by rewrite for_files_steps.
  - intros t f rest fs ts rs w Hin.
    destruct (run_steps_failed_frozen cn t (Attempt f <$> rest) rs w Hin)
      as (rs1 & w1 & Hrun1 & Hin1 & Hdb1 & Hc1).
    destruct (run_steps_failed_frozen cn t (schedule fs ts) rs1 w1 Hin1)
      as (rs2 & w2 & Hrun2 & Hin2 & Hdb2 & Hc2).
    exists rs1, w1, rs2, w2.
    rewrite for_tenants_steps, for_files_steps.
    repeat split; [done|done|done|congruence|congruence].
  - intros t fs ts rs w rs' w' Hrun Hnin.
    rewrite for_files_steps in Hrun.
    destruct (run_steps_attempts cn t _ rs w rs' w' Hrun Hnin)
      as (evs & Htr & Hatt).
    exists evs. split; [done|]. split.
    + by rewrite Hatt, planned_for_schedule.
    + intros Hnd Hin. by rewrite Hatt, planned_for_schedule_NoDup.
  - intros f t rs w. apply attempt_turn.
  - intros fs ts rs w. apply for_files_steps.
  - intros t fs ts rs w rs' w' Hrun Hnin Hin.
    rewrite for_files_steps in Hrun.
    destruct (run_steps_first_failure cn t _ rs w rs' w' Hrun Hnin Hin)
      as (done & f & rest & rs0 & w0 & Hsched & Hdone & Hnin0 & Hfail & Hrest).
    destruct (run_steps_attempts cn t done rs w rs0 w0 Hdone Hnin0)
      as (evs0 & Htr0 & Hatt0).
    destruct (run_steps_failed_frozen cn t rest (add_failed rs0 t)
                (attempt cn f t rs0 w0).2)
      as (rs2 & w2 & Hrun2 & _ & _ & Hcalls).
    { apply elem_of_add_failed. by right. }
    rewrite Hrest in Hrun2. simplify_eq.
    by exists done, f, rest, rs0, w0, evs0.
Qed.

(** ** Checkpoints *)

Lemma checkpoint_before_each_call_app cn evs1 evs2 :
  checkpoint_before_each_call cn evs1 →
  checkpoint_before_each_call cn evs2 →
  checkpoint_before_each_call cn (evs1 ++ evs2).
Proof.
  intros H1 H2 pre t f post Heq.
  apply app_eq_inv in Heq as [(k & -> & Hk)|(k & -> & ->)].
  - destruct k as [|e k]; simpl in Hk.
    + destruct (H2 [] t f post) as [pre' Hpre]; [done|].
      by destruct pre'.
    + simplify_eq. by apply (H1 pre t f k).
  - destruct (H2 k t f post) as [pre' ->]; [done|].
    exists (evs1 ++ pre'). by rewrite (assoc (++)).
Qed.

Lemma checkpoint_before_each_call_quiet cn evs :
  (∀ t f, MigrateCall t f ∉ evs) → checkpoint_before_each_call cn evs.
Proof.
  intros Hno pre t f post ->. exfalso. apply (Hno t f).
  apply elem_of_app. right. left.
Qed.

Lemma aftermath_no_call t cn evs t' f :
  Forall (is_aftermath t cn) evs → MigrateCall t' f ∉ evs.
Proof.
  intros Hall Hin. rewrite Forall_forall in Hall. by apply Hall in Hin.
Qed.

Lemma aftermath_no_checkpoint t cn evs t' n :
  Forall (is_aftermath t cn) evs → Checkpointed t' n ∉ evs.
Proof.
  intros Hall Hin. rewrite Forall_forall in Hall. by apply Hall in Hin.
Qed.

Lemma checkpoints_named_app cn evs1 evs2 :
  checkpoints_named cn evs1 → checkpoints_named cn evs2 →
  checkpoints_named cn (evs1 ++ evs2).
Proof.
  intros H1 H2 t n [?|?]%elem_of_app; [by eapply H1|by eapply H2].
Qed.

(** The events of one step keep both properties. *)
Lemma run_step_checkpoints `{Env} cn s rs w rs' w' :
  run_step cn s rs w = (Ok rs', w') →
  ∃ evs, trace w' = trace w ++ evs
         ∧ checkpoint_before_each_call cn evs
         ∧ checkpoints_named cn evs.
Proof.
  intros Hrun.
  destruct (run_step_cases cn s rs w)
    as (rs1 & w1 & evs & Hrun1 & _ & Htr & Hc).
  rewrite Hrun in Hrun1. simplify_eq.
  exists evs. split; [done|].
  destruct s as [f|f t].
  { destruct Hc as (_ & _ & ->). split.
    - apply checkpoint_before_each_call_quiet.
      by intros t f' ?%list_elem_of_singleton.
    - by intros t n ?%list_elem_of_singleton. }
  destruct Hc as [_ [(_ & _ & _ & ->)
                    |[(_ & _ & _ & _ & Haft)|(_ & _ & rest & -> & Haft & _)]]].
  - split.
    + apply checkpoint_before_each_call_quiet.
      by intros t' f' ?%list_elem_of_singleton.
    + by intros t' n ?%list_elem_of_singleton.
  - split.
    + apply checkpoint_before_each_call_quiet.
      intros t' f'. by eapply aftermath_no_call.
    + intros t' n Hin. by eapply aftermath_no_checkpoint in Hin.
  - split.
    + apply (checkpoint_before_each_call_app cn
               [Checkpointed t cn; MigrateCall t (name f)] rest).
      * intros pre t' f' post Heq.
        destruct pre as [|e [|e' pre]]; simplify_eq/=.
        -- by exists [].
        -- by destruct pre.
      * apply checkpoint_before_each_call_quiet.
        intros t' f'. by eapply aftermath_no_call.
    + intros t' n Hin.
      apply elem_of_cons in Hin as [?|Hin]; [by simplify_eq|].
      apply elem_of_cons in Hin as [?|Hin]; [done|].
      by eapply aftermath_no_checkpoint in Hin.
Qed.

Lemma run_steps_checkpoints `{Env} cn ss rs w :
  ∃ rs' w' evs,
    run_steps cn ss rs w = (Ok rs', w')
    ∧ trace w' = trace w ++ evs
    ∧ checkpoint_before_each_call cn evs
    ∧ checkpoints_named cn evs.
Proof.
  destruct (run_steps_invariant cn
              (λ _ _ w1, ∃ evs, trace w1 = trace w ++ evs
                                ∧ checkpoint_before_each_call cn evs
                                ∧ checkpoints_named cn evs))
    with (ss := ss) (rs := rs) (w := w) as (rs' & w' & Hrun & evs & HI).
  - intros s ss' rs0 w0 rs1 w1 (evs0 & Htr0 & Hb0 & Hn0) Hstep.
    destruct (run_step_checkpoints cn s rs0 w0 rs1 w1 Hstep)
      as (evs & Htr & Hb & Hn).
    exists (evs0 ++ evs). split; [by rewrite Htr, Htr0, (assoc (++))|].
    split; [by apply checkpoint_before_each_call_app
           |by apply checkpoints_named_app].
  - exists []. split; [by rewrite app_nil_r|]. split.
    + by apply checkpoint_before_each_call_quiet; intros ?? ?%not_elem_of_nil.
    + by intros ?? ?%not_elem_of_nil.
  - by exists rs', w', evs.
Qed.

(** C7.  (1) On a reachable tenant with a tracking table,
    [create_checkpoint] appends one row with the given name in
    [migration_file] and status [checkpoint], whatever rows the table
    already holds, and logs it; without a tracking table it raises and
    writes nothing.  (2) A run chooses its checkpoint name
    [pre_migration_<stamp>] once, before the loops; every call of the
    executor in the run comes right after a logged checkpoint of the same
    tenant under that name, and every checkpoint of the run carries that
    name. *)
Theorem checkpoint_before_every_attempt `{Env} :
  (∀ t cn w db tt,
     dbs w !! t = Some db → history db = Some tt →
     ∃ data w' row,
       create_checkpoint t cn w = (Ok data, w')
       ∧ dbs w' !! t =
           Some {| tables := tables db;
                   history := Some {| rows := rows tt ++ [row];
                                      next_id := next_id tt + 1 |};
                   create_allowed := create_allowed db |}
       ∧ migration_file row = cn
       ∧ migration_hash row = "checkpoint"
       ∧ status row = checkpoint
       ∧ trace w' = trace w ++ [Checkpointed t cn])
  ∧ (∀ t cn w,
       no_tracking t w →
       ∃ w', create_checkpoint t cn w = (Raise, w')
             ∧ dbs w' = dbs w ∧ trace w' = trace w)
  ∧ (∀ fs ts w,
       ∃ cn rs w' evs,
         migration_loops fs ts w = (Ok (cn, rs), w')
         ∧ cn = "pre_migration_" +:+ strftime (datetime_now (py_reads w))
         ∧ trace w' = trace w ++ evs
         ∧ checkpoint_before_each_call cn evs
         ∧ checkpoints_named cn evs).
Proof.
  split; [|split].
  - intros t cn w db tt Hdb Hh.
    destruct (create_checkpoint_cases t cn w)
      as [(db0 & tt0 & data & w1 & Hdb0 & Hh0 & Hcp & _ & Hdbs1 & Htr1)
         |(Hnt & _)].
    2:{ exfalso. specialize (Hnt db Hdb). congruence. }
    assert (db0 = db) as -> by congruence.
    assert (tt0 = tt) as -> by congruence.
    exists data, w1. eexists. split; [done|].
    split; [rewrite Hdbs1; apply lookup_insert_eq|]. done.
  - intros t cn w Hnt.
    destruct (create_checkpoint_cases t cn w)
      as [(db0 & tt0 & _ & _ & Hdb0 & Hh0 & _)
         |(_ & w' & Hcp & _ & Hdbs & Htr)].
    + specialize (Hnt db0 Hdb0). congruence.
    + by exists w'.
  - intros fs ts w. unfold migration_loops, make_checkpoint_name,
      read_datetime_now. munfold.
    rewrite for_files_steps.
    destruct (run_steps_checkpoints
                ("pre_migration_" +:+ strftime (datetime_now (py_reads w)))
                (schedule fs ts)
                {| successful_dbs := []; failed_dbs := [] |}
                (with_py_reads w (S (py_reads w))))
      as (rs' & w' & evs & -> & Htr & Hb & Hn).
    eexists _, rs', w', evs. by split.
Qed.

(** ** The whole run *)

Lemma create_migration_tracking_table_frame t w :
  ∃ r w',
    create_migration_tracking_table t w = (r, w')
    ∧ static w w' ∧ others_same t w w' ∧ trace w' = trace w
    ∧ (tracking_unavailable t w → dbs w' = dbs w).
Proof.
  unfold create_migration_tracking_table, tracking_unavailable.
  munfold. mcase.
  all: do 2 eexists; split; [reflexivity|]; simpl; frame_goals.
  all: try done.
  intros Hun. destruct (Hun _ eq_refl). congruence.
Qed.

Lemma init_tracking_spec ts w :
  ∃ w' evs,
    init_tracking ts w = (Ok (), w')
    ∧ static w w'
    ∧ trace w' = trace w ++ evs
    ∧ Forall is_print evs
    ∧ ∀ t, tracking_unavailable t w → dbs w' !! t = dbs w !! t.
Proof.
  revert w. induction ts as [|t' ts IH]; intros w.
  { exists w, []. simpl. rewrite app_nil_r. by frame_goals. }
  destruct (create_migration_tracking_table_frame t' w)
    as (r & w1 & Hrun & Hst1 & Hoth1 & Htr1 & Hun1).
  assert (∃ w2 evs2, try_except (create_migration_tracking_table t')
                       (print (MsgInitWarning t')) w = (Ok (), w2)
                     ∧ static w w2 ∧ dbs w2 = dbs w1
                     ∧ trace w2 = trace w ++ evs2 ∧ Forall is_print evs2)
    as (w2 & evs2 & Htry & Hst2 & Hdbs2 & Htr2 & Hpr2).
  { unfold try_except. rewrite Hrun. destruct r as [[]|].
    - exists w1, []. rewrite app_nil_r. by frame_goals.
    - munfold. do 2 eexists. split; [reflexivity|].
      destruct Hst1 as (?&?&?&?). rewrite Htr1. by frame_goals. }
  destruct (IH w2) as (w3 & evs3 & Hinit & Hst3 & Htr3 & Hpr3 & Hun3).
  exists w3, (evs2 ++ evs3). simpl. unfold mbind, M_bind. rewrite Htry.
  split; [done|]. split.
  { destruct Hst2 as (?&?&?&?), Hst3 as (?&?&?&?). repeat split; congruence. }
  split; [by rewrite Htr3, Htr2, (assoc (++))|].
  split; [by apply Forall_app|].
  intros t Hun.
  assert (dbs w2 !! t = dbs w !! t) as Heq.
  { rewrite Hdbs2. destruct (decide (t = t')) as [->|Hne].
    - by rewrite Hun1.
    - by apply Hoth1. }
  rewrite Hun3; [done|]. intros db Hdb. apply Hun. by rewrite <- Heq.
Qed.

Lemma falsy_cases w :
  credentials_configured w
  ∨ (falsy (db_username w) || falsy (db_password w) = true).
Proof.
  unfold credentials_configured.
  destruct (falsy (db_username w)), (falsy (db_password w)); auto.
Qed.

Lemma aftermath_progress t cn evs :
  Forall (is_aftermath t cn) evs → Forall is_progress evs.
Proof.
  intros Hp. eapply Forall_impl; [exact Hp|]. intros [| | |[]]; done.
Qed.

Lemma print_progress evs : Forall is_print evs → Forall is_progress evs.
Proof.
  intros Hp. eapply Forall_impl; [exact Hp|]. intros [| | |[]]; done.
Qed.

Lemma run_step_progress `{Env} cn s rs w rs' w' :
  run_step cn s rs w = (Ok rs', w') →
  ∃ evs, trace w' = trace w ++ evs ∧ Forall is_progress evs.
Proof.
  intros Hrun.
  destruct (run_step_cases cn s rs w)
    as (rs1 & w1 & evs & Hrun1 & _ & Htr & Hc).
  rewrite Hrun in Hrun1. simplify_eq.
  exists evs. split; [done|].
  destruct s as [f|f t].
  { destruct Hc as (_ & _ & ->). by repeat constructor. }
  destruct Hc as [_ [(_ & _ & _ & ->)
                    |[(_ & _ & _ & _ & Haft)|(_ & _ & rest & -> & Haft & _)]]].
  - by repeat constructor.
  - by eapply aftermath_progress.
  - do 2 (constructor; [done|]). by eapply aftermath_progress.
Qed.

(** The loops return, and log no summary. *)
Lemma migration_loops_total `{Env} fs ts w :
  ∃ cn rs w' evs,
    migration_loops fs ts w = (Ok (cn, rs), w')
    ∧ trace w' = trace w ++ evs
    ∧ Forall is_progress evs.
Proof.
  unfold migration_loops, make_checkpoint_name, read_datetime_now. munfold.
  rewrite for_files_steps.
  set (w0 := with_py_reads w (S (py_reads w))).
  destruct (run_steps_invariant
              ("pre_migration_" +:+ strftime (datetime_now (py_reads w)))
              (λ _ _ w1, ∃ evs, trace w1 = trace w ++ evs
                                ∧ Forall is_progress evs))
    with (ss := schedule fs ts)
         (rs := {| successful_dbs := []; failed_dbs := [] |}) (w := w0)
    as (rs' & w' & -> & evs & Htr & Hp).
  - intros s ss' rs0 w1 rs1 w2 (evs0 & Htr0 & Hp0) Hstep.
    destruct (run_step_progress _ s rs0 w1 rs1 w2 Hstep) as (evs & Htr & Hp).
    exists (evs0 ++ evs). split; [by rewrite Htr, Htr0, (assoc (++))|].
    by apply Forall_app.
  - exists []. by rewrite app_nil_r.
  - by eexists _, rs', w', evs.
Qed.

(** The five ways [run_all_tenant_migrations] can go. *)
Lemma run_all_cases `{Env} w :
  ∃ r w' evs,
    run_all_tenant_migrations w = (Ok r, w')
    ∧ trace w' = trace w ++ evs
    ∧ ((¬ credentials_configured w ∧ r = false
        ∧ evs = [Print MsgNoCredentials])
       ∨ (credentials_configured w ∧ companies w = None ∧ r = false
          ∧ evs = [Print MsgRunError])
       ∨ (credentials_configured w
          ∧ ∃ rows, companies w = Some rows
            ∧ ((merge_sort String.le rows = [] ∧ r = true
                ∧ evs = [Print MsgNoTenants])
               ∨ (merge_sort String.le rows ≠ [] ∧ catalog w = []
                  ∧ r = true ∧ Forall is_print evs)
               ∨ (merge_sort String.le rows ≠ [] ∧ catalog w ≠ []
                  ∧ ∃ w1 evs1 cn rs w2 evs2,
                      init_tracking (merge_sort String.le rows) w
                        = (Ok (), w1)
                      ∧ trace w1 = trace w ++ evs1
                      ∧ Forall is_print evs1
                      ∧ migration_loops (catalog w)
                          (merge_sort String.le rows) w1 = (Ok (cn, rs), w2)
                      ∧ trace w2 = trace w1 ++ evs2
                      ∧ Forall is_progress evs2
                      ∧ evs = evs1 ++ evs2 ++
                              [Print (MsgSummary (successful_dbs rs)
                                        (failed_dbs rs) cn)]
                      ∧ dbs w' = dbs w2
                      ∧ r = bool_decide (length (failed_dbs rs) = 0%nat))))).
Proof.
  unfold run_all_tenant_migrations, try_except.
  unfold mbind, M_bind at 1.
  destruct (falsy_cases w) as [Hcred|Hfalsy].
  2:{ simpl. rewrite Hfalsy. munfold. do 3 eexists.
      split; [reflexivity|]. split; [reflexivity|]. left.
      split; [|done]. intros [H1 H2]. by rewrite H1, H2 in Hfalsy. }
  simpl. destruct Hcred as [Hu Hp]. rewrite Hu, Hp. simpl.
  unfold get_tenant_databases, mbind, M_bind at 1.
  destruct (companies w) as [rows|] eqn:Hco.
  2:{ munfold. do 3 eexists. split; [reflexivity|]. split; [reflexivity|].
      right; left. done. }
  destruct (decide (merge_sort String.le rows = [])) as [Hts|Hts].
  { munfold. do 3 eexists. split; [reflexivity|]. split; [reflexivity|].
    right; right. split; [done|]. exists rows. split; [done|]. by left. }
  unfold get_tenant_migration_files, catalog. munfold.
  destruct (tenant_versions w) as [dir|] eqn:Hdir; simpl.
  2:{ do 3 eexists. split; [reflexivity|]. split; [by trace_norm|].
      right; right. split; [done|]. exists rows. split; [done|].
      right; left. by frame_goals. }
  destruct (decide (discover dir = [])) as [Hfs|Hfs]; simpl.
  { do 3 eexists. split; [reflexivity|]. split; [reflexivity|].
    right; right. split; [done|]. exists rows. split; [done|].
    right; left. by frame_goals. }
  destruct (init_tracking_spec (merge_sort String.le rows) w)
    as (w1 & evs1 & Hinit & Hst1 & Htr1 & Hpr1 & _).
  rewrite Hinit.
  destruct (migration_loops_total (discover dir)
              (merge_sort String.le rows) w1)
    as (cn & rs & w2 & evs2 & Hloops & Htr2 & Hpr2).
  rewrite Hloops. simpl.
  do 3 eexists. split; [reflexivity|].
  split; [simpl; rewrite Htr2, Htr1; by rewrite <- !(assoc (++))|].
  right; right. split; [done|]. exists rows. split; [done|].
  right; right. split; [done|]. split; [done|].
  by exists w1, evs1, cn, rs, w2, evs2.
Qed.

(** C9.  Started without a switch, [main] always exits, with code 0 or
    1.  The code is 0 exactly when the registry could be reached and no
    summary of the run lists a failed tenant (a run that stops before the
    loops prints no summary).  With the registry reachable, an empty
    tenant list gives 0 and so does an empty catalogue; an unreachable
    [auth] database gives 1. *)
Theorem main_exit_code `{Env} (script : string) (w : World) :
  ∃ code w' evs,
    main [script] w = (Ok code, w')
    ∧ trace w' = trace w ++ evs
    ∧ (code = 0 ∨ code = 1)
    ∧ (code = 0 ↔
       registry_reachable w
       ∧ ∀ s f c, Print (MsgSummary s f c) ∈ evs → f = [])
    ∧ (registry_reachable w → companies w = Some [] → code = 0)
    ∧ (registry_reachable w → catalog w = [] → code = 0)
    ∧ (companies w = None → code = 1).
Proof.
  destruct (run_all_cases w) as (r & w' & evs & Hrun & Htr & Hc).
  exists (if r then 0 else 1), w', evs.
  split. { unfold main. simpl. unfold mbind, M_bind. by rewrite Hrun. }
  split; [done|]. split; [destruct r; auto|].
  unfold registry_reachable.
  destruct Hc as [(Hcred & -> & ->)
                 |[(Hcred & Hco & -> & ->)|(Hcred & rows & Hco & Hc)]].
  - split; [split; [done|by intros [[? _] _]]|].
    split; [by intros [? _]|]. split; [by intros [? _]|done].
  - rewrite Hco.
    split; [split; [done|by intros [[_ [? ?]] _]]|].
    split; [done|]. split; [by intros [_ [? ?]]|done].
  - rewrite Hco.
    destruct Hc as [(Hts & -> & ->)
                   |[(Hts & Hcat & -> & Hpr)
                    |(Hts & Hcat & w1 & evs1 & cn & rs & w2 & evs2 & _ & _
                      & Hpr1 & _ & _ & Hpr2 & -> & _ & ->)]].
    + split; [|done]. split; [|done]. intros _. split; [eauto|].
      by intros s f c ?%list_elem_of_singleton.
    + split; [|done]. split; [|done]. intros _. split; [eauto|].
      intros s f c Hin. rewrite Forall_forall in Hpr. by apply Hpr in Hin.
    + split; [|split; [|split]].
      * split.
        -- intros Hcode. split; [eauto|]. intros s f c Hin.
           destruct (failed_dbs rs) eqn:Hf; [|done].
           apply elem_of_app in Hin as [Hin|Hin].
           { apply print_progress in Hpr1. rewrite Forall_forall in Hpr1.
             by apply Hpr1 in Hin. }
           apply elem_of_app in Hin as [Hin|Hin].
           { rewrite Forall_forall in Hpr2. by apply Hpr2 in Hin. }
           apply list_elem_of_singleton in Hin. by simplify_eq.
        -- intros [_ Hsum].
           rewrite (Hsum (successful_dbs rs) (failed_dbs rs) cn); [done|].
           rewrite !elem_of_app, list_elem_of_singleton. auto.
      * intros _ ?. simplify_eq.
      * done.
      * done.
Qed.

(** ** A tenant without a tracking store *)

Lemma run_steps_no_tracking `{Env} cn t ss rs w :
  no_tracking t w →
(t ∉ successful_dbs rs) →
  (t ∈ failed_dbs rs ∨ ∃ f, Attempt f t ∈ ss) →
  ∃ rs' w' evs,
    run_steps cn ss rs w = (Ok rs', w')
    ∧ trace w' = trace w ++ evs
    ∧ attempts_of t evs = []
    ∧ dbs w' !! t = dbs w !! t
    ∧ t ∈ failed_dbs rs'
    ∧ t ∉ successful_dbs rs'.
Proof.
  intros Hnt Hns Hsched.
  destruct (run_steps_invariant cn
              (λ ss1 rs1 w1,
                 dbs w1 !! t = dbs w !! t
                 ∧ (t ∉ successful_dbs rs1)
                 ∧ (t ∈ failed_dbs rs1 ∨ ∃ f, Attempt f t ∈ ss1)
                 ∧ ∃ evs, trace w1 = trace w ++ evs ∧ attempts_of t evs = []))
    with (ss := ss) (rs := rs) (w := w)
    as (rs' & w' & Hrun & Hdb & Hns' & Hf' & evs & Htr & Hatt).
  - intros s ss' rs0 w0 rs1 w1 (Hdb0 & Hns0 & Hf0 & evs0 & Htr0 & Hatt0) Hstep.
    destruct (step_attempt_cases s t) as [[f ->]|Hother].
    + destruct (run_step_cases cn (Attempt f t) rs0 w0)
        as (rs2 & w2 & evs & Hstep2 & _ & Htr & _ & Hc).
      rewrite Hstep in Hstep2. simplify_eq.
      destruct Hc as [(Hin & -> & -> & ->)
                     |[(_ & _ & -> & -> & Haft)
                      |(_ & (db & tt' & Hdb' & Hh') & _)]].
      * split; [done|]. split; [done|]. split; [by left|].
        exists (evs0 ++ [Print (MsgSkippedFailed t)]).
        split; [by rewrite Htr, Htr0, (assoc (++))|].
        by rewrite attempts_of_app, Hatt0.
      * split; [done|]. split; [by rewrite add_failed_successful|].
        split; [left; apply elem_of_add_failed; by right|].
        exists (evs0 ++ evs).
        split; [by rewrite Htr, Htr0, (assoc (++))|].
        rewrite attempts_of_app, Hatt0. by eapply aftermath_attempts.
      * exfalso. rewrite Hdb0 in Hdb'. specialize (Hnt db Hdb'). congruence.
    + destruct (run_step_other cn s rs0 w0 rs1 w1 t Hstep Hother)
        as (Hdb1 & evs & Htr & _ & Hatt).
      split; [congruence|]. split; [|split].
      * destruct (run_step_lists cn s rs0 w0 rs1 w1 Hstep)
          as [->|(f & t' & -> & _ & [->| ->])]; [done|..].
        -- rewrite elem_of_add_successful. intros [?| ->]; [done|].
           by apply (Hother f).
        -- by rewrite add_failed_successful.
      * destruct Hf0 as [Hin|[f Hin]].
        -- left. by eapply run_step_failed_mono.
        -- right. exists f. apply elem_of_cons in Hin as [Heq|?]; [|done].
           by destruct (Hother f).
      * exists (evs0 ++ evs). split; [by rewrite Htr, Htr0, (assoc (++))|].
        by rewrite attempts_of_app, Hatt0, Hatt.
  - split; [done|]. split; [done|]. split; [done|].
    exists []. by rewrite app_nil_r.
  - exists rs', w', evs. repeat split; try done.
    destruct Hf' as [?|[f Hin]]; [done|]. by apply not_elem_of_nil in Hin.
Qed.

Lemma attempt_in_schedule f fs t ts :
  t ∈ ts → Attempt f t ∈ schedule (f :: fs) ts.
Proof.
  intros Hin. unfold schedule. rewrite bind_cons.
  apply elem_of_app. left. right.
  apply list_elem_of_fmap. by exists t.
Qed.

(** C6.  In a run that reaches the loops (credentials, a registry that
    lists the tenant, a catalogue that is not empty), a tenant whose
    tracking store is unavailable (its database cannot be connected to, or
    it has no tracking table and none can be created) ends in
    [failed_dbs] and not in [successful_dbs]; the run returns [False];
    the executor is never called on that tenant and its database is as
    before. *)
Theorem unavailable_tracking_marks_failed `{Env} (t : string) (w : World)
    (rows : list string) :
  credentials_configured w →
  companies w = Some rows →
  t ∈ rows →
  catalog w ≠ [] →
  tracking_unavailable t w →
  ∃ w' evs succ failed cn,
    run_all_tenant_migrations w = (Ok false, w')
    ∧ trace w' = trace w ++ evs
    ∧ last evs = Some (Print (MsgSummary succ failed cn))
    ∧ t ∈ failed
    ∧ (t ∉ succ)
    ∧ attempts_of t evs = []
    ∧ dbs w' !! t = dbs w !! t.
Proof.
  intros Hcred Hco Hin Hcat Hun.
  destruct (run_all_cases w) as (r & w' & evs & Hrun & Htr & Hc).
  destruct Hc as [(? & _)|[(_ & ? & _)|(_ & rows' & Hco' & Hc)]];
    [done|congruence|].
  assert (rows' = rows) as -> by congruence.
  assert (t ∈ merge_sort String.le rows) as Hts
    by by rewrite merge_sort_Permutation.
  destruct Hc as [(Hnil & _)|[(_ & ? & _)|Hc]]; [|done|].
  { rewrite Hnil in Hts. by apply not_elem_of_nil in Hts. }
  destruct Hc as (_ & _ & w1 & evs1 & cn & rs & w2 & evs2 & Hinit & Htr1
                  & Hpr1 & Hloops & Htr2 & _ & -> & Hdbs & ->).
  destruct (init_tracking_spec (merge_sort String.le rows) w)
    as (w1' & evs1' & Hinit' & _ & _ & _ & Hkeep).
  rewrite Hinit in Hinit'. simplify_eq.
  specialize (Hkeep t Hun).
  assert (no_tracking t w1') as Hnt.
  { intros db Hdb. rewrite Hkeep in Hdb. by destruct (Hun db Hdb). }
  unfold migration_loops, make_checkpoint_name, read_datetime_now in Hloops.
  munfold. rewrite for_files_steps in Hloops.
  destruct (catalog w) as [|f fs] eqn:Hfs; [done|].
  destruct (run_steps_no_tracking
              ("pre_migration_" +:+ strftime (datetime_now (py_reads w1')))
              t (schedule (f :: fs) (merge_sort String.le rows))
              {| successful_dbs := []; failed_dbs := [] |}
              (with_py_reads w1' (S (py_reads w1'))))
    as (rs' & w2' & evs' & Hsteps & Htr' & Hatt & Hdb & Hfailed & Hsucc).
  { done. }
  { simpl. apply not_elem_of_nil. }
  { right. exists f. by apply attempt_in_schedule. }
  rewrite Hsteps in Hloops. simplify_eq. simpl in *.
  assert (evs2 = evs') as -> by (apply (inj (app (trace w1'))); congruence).
  eexists w', _, (successful_dbs rs), (failed_dbs rs), _.
  split.
  { rewrite Hrun. f_equal. f_equal. apply bool_decide_eq_false.
    intros Hlen. destruct (failed_dbs rs); [|done].
    by apply not_elem_of_nil in Hfailed. }
  split; [done|].
  split; [by rewrite (assoc (++)), last_snoc|].
  split; [done|]. split; [done|].
  split.
  { rewrite !attempts_of_app, Hatt.
    rewrite (aftermath_attempts t t "") by by apply is_print_aftermath.
    done. }
  congruence.
Qed.

Lemma unavailable_tracking_marks_failed_witness :
  credentials_configured
    (sample_world [create_activity_table]
       [("db_aaa", fresh_db); ("db_bbb", locked_db)])
  ∧ "db_bbb" ∈ ["db_aaa"; "db_bbb"]
  ∧ tracking_unavailable "db_bbb"
      (sample_world [create_activity_table]
         [("db_aaa", fresh_db); ("db_bbb", locked_db)])
  ∧ ∃ w' evs succ failed cn,
      @run_all_tenant_migrations sample_env
        (sample_world [create_activity_table]
           [("db_aaa", fresh_db); ("db_bbb", locked_db)]) = (Ok false, w')
      ∧ last evs = Some (Print (MsgSummary succ failed cn))
      ∧ "db_bbb" ∈ failed
      ∧ dbs w' !! "db_bbb" = Some locked_db.
Proof.
  assert (credentials_configured
            (sample_world [create_activity_table]
               [("db_aaa", fresh_db); ("db_bbb", locked_db)])) as Hcred
    by (split; reflexivity).
  assert ("db_bbb" ∈ ["db_aaa"; "db_bbb"]) as Hin by (right; left).
  assert (tracking_unavailable "db_bbb"
            (sample_world [create_activity_table]
               [("db_aaa", fresh_db); ("db_bbb", locked_db)])) as Hun.
  { intros db Hdb.
    assert (db = locked_db) as ->
      by (vm_compute in Hdb; injection Hdb as <-; reflexivity).
    split; reflexivity. }
  split; [exact Hcred|]. split; [exact Hin|]. split; [exact Hun|].
  destruct (@unavailable_tracking_marks_failed sample_env "db_bbb"
              (sample_world [create_activity_table]
                 [("db_aaa", fresh_db); ("db_bbb", locked_db)])
              ["db_aaa"; "db_bbb"] Hcred eq_refl Hin)
    as (w' & evs & succ & failed & cn & Hrun & _ & Hlast & Hf & _ & _ & Hdb);
    [by vm_compute|exact Hun|].
  exists w', evs, succ, failed, cn.
  split; [exact Hrun|]. split; [exact Hlast|]. split; [exact Hf|].
  rewrite Hdb. reflexivity.
Defined.

(** ** Order of the attempts *)

Lemma executor_calls_app tr1 tr2 :
  executor_calls (tr1 ++ tr2) = executor_calls tr1 ++ executor_calls tr2.
Proof. apply omap_app. Qed.

Lemma aftermath_executor_calls t cn evs :
  Forall (is_aftermath t cn) evs → executor_calls evs = [].
Proof.
  induction 1 as [|e evs He _ IH]; [done|].
  destruct e as [| | |m]; simpl in *; try done.
Qed.

Lemma planned_schedule fs ts :
  planned (schedule fs ts) = in_catalog_order fs ts.
Proof.
  unfold planned, schedule, in_catalog_order.
  induction fs as [|f fs IH]; [done|].
  rewrite !bind_cons, omap_app, IH. f_equal. simpl.
  clear IH. induction ts as [|t ts IH]; [done|]. simpl. by f_equal.
Qed.

Lemma run_step_executor_calls `{Env} cn s rs w rs' w' :
  run_step cn s rs w = (Ok rs', w') →
  ∃ evs, trace w' = trace w ++ evs
         ∧ executor_calls evs `sublist_of` planned [s].
Proof.
  intros Hrun.
  destruct (run_step_cases cn s rs w)
    as (rs1 & w1 & evs & Hrun1 & _ & Htr & Hc).
  rewrite Hrun in Hrun1. simplify_eq.
  exists evs. split; [done|].
  destruct s as [f|f t].
  { by destruct Hc as (_ & _ & ->). }
  destruct Hc as [_ [(_ & _ & _ & ->)
                    |[(_ & _ & _ & _ & Haft)|(_ & _ & rest & -> & Haft & _)]]].
  - apply sublist_nil_l.
  - erewrite aftermath_executor_calls by done. apply sublist_nil_l.
  - simpl. by erewrite aftermath_executor_calls.
Qed.

Lemma run_steps_executor_calls `{Env} cn ss rs w :
  ∃ rs' w' evs,
    run_steps cn ss rs w = (Ok rs', w')
    ∧ trace w' = trace w ++ evs
    ∧ executor_calls evs `sublist_of` planned ss.
Proof.
  destruct (run_steps_invariant cn
              (λ ss1 _ w1,
                 ∃ evs, trace w1 = trace w ++ evs
                        ∧ executor_calls evs ++ planned ss1
                          `sublist_of` planned ss))
    with (ss := ss) (rs := rs) (w := w) as (rs' & w' & Hrun & evs & Htr & Hsub).
  - intros s ss' rs0 w0 rs1 w1 (evs0 & Htr0 & Hsub0) Hstep.
    destruct (run_step_executor_calls cn s rs0 w0 rs1 w1 Hstep)
      as (evs & Htr & Hsub).
    exists (evs0 ++ evs). split; [by rewrite Htr, Htr0, (assoc (++))|].
    etrans; [|exact Hsub0].
    rewrite executor_calls_app, <- (assoc (++)).
    apply sublist_app; [done|].
    replace (planned (s :: ss')) with (planned [s] ++ planned ss')
      by (symmetry; apply (omap_app _ [s] ss')).
    by apply sublist_app.
  - exists []. by rewrite app_nil_r.
  - exists rs', w', evs. by rewrite app_nil_r in Hsub.
Qed.

(** C8.  (1) The catalogue is the directory's [*.py] files without
    [__init__.py], in ascending order of file name.  (2) The tenant list
    is the registry's [db_name] column in ascending order.  (3) The
    executor calls of the loops, and so of a whole run, are in
    files-outer, tenants-inner order over these two lists: they form a
    subsequence of it (tenants already failed, or whose checkpoint cannot
    be written, are left out). *)
Theorem attempts_in_order `{Env} :
  (∀ dir,
     StronglySorted file_le (discover dir)
     ∧ discover dir ≡ₚ
         filter (λ f, name f ≠ "__init__.py"
                      ∧ ends_with ".py" (name f) = true) dir
     ∧ ∀ f, f ∈ discover dir → name f ≠ "__init__.py")
  ∧ (∀ w rows,
       companies w = Some rows →
       ∃ ts, get_tenant_databases w = (Ok ts, w)
             ∧ StronglySorted String.le ts ∧ ts ≡ₚ rows)
  ∧ (∀ cn fs ts rs w,
       ∃ rs' w' evs,
         for_files cn fs ts rs w = (Ok rs', w')
         ∧ trace w' = trace w ++ evs
         ∧ executor_calls evs `sublist_of` in_catalog_order fs ts)
  ∧ (∀ w,
       ∃ r w' evs,
         run_all_tenant_migrations w = (Ok r, w')
         ∧ trace w' = trace w ++ evs
         ∧ executor_calls evs
           `sublist_of` in_catalog_order (catalog w) (tenant_list w)).
Proof.
  assert (∀ cn fs ts rs w,
       ∃ rs' w' evs,
         for_files cn fs ts rs w = (Ok rs', w')
         ∧ trace w' = trace w ++ evs
         ∧ executor_calls evs `sublist_of` in_catalog_order fs ts) as Hloops.
  { intros cn fs ts rs w.
    destruct (run_steps_executor_calls cn (schedule fs ts) rs w)
      as (rs' & w' & evs & Hrun & Htr & Hsub).
    exists rs', w', evs. by rewrite for_files_steps, <- planned_schedule. }
  split; [|split; [|split; [done|]]].
  - intros dir. unfold discover. split; [|split].
    + apply StronglySorted_merge_sort; apply _.
    + by rewrite merge_sort_Permutation, list_filter_filter.
    + intros f Hf. rewrite merge_sort_Permutation in Hf.
      by apply list_elem_of_filter in Hf as [? _].
  - intros w rows Hco. unfold get_tenant_databases. rewrite Hco.
    eexists. split; [done|]. split.
    + apply StronglySorted_merge_sort; apply _.
    + apply merge_sort_Permutation.
  - intros w.
    destruct (run_all_cases w) as (r & w' & evs & Hrun & Htr & Hc).
    exists r, w', evs. split; [done|]. split; [done|].
    assert (∀ l, Forall is_print l → executor_calls l = []) as Hquiet.
    { intros l Hl. apply (aftermath_executor_calls "" "").
      by apply is_print_aftermath. }
    destruct Hc as [(_ & _ & ->)
                   |[(_ & _ & _ & ->)|(_ & rows & Hco & Hc)]];
      [apply sublist_nil_l..|].
    unfold tenant_list. rewrite Hco.
    destruct Hc as [(_ & _ & ->)
                   |[(_ & _ & _ & Hpr)
                    |(_ & _ & w1 & evs1 & cn & rs & w2 & evs2 & _ & Htr1
                      & Hpr1 & Hml & Htr2 & _ & -> & _)]].
    + apply sublist_nil_l.
    + rewrite Hquiet by done. apply sublist_nil_l.
    + rewrite !executor_calls_app, Hquiet by done. simpl.
      rewrite app_nil_r.
      unfold migration_loops, make_checkpoint_name, read_datetime_now in Hml.
      munfold.
      destruct (Hloops
                  ("pre_migration_" +:+ strftime (datetime_now (py_reads w1)))
                  (catalog w) (merge_sort String.le rows)
                  {| successful_dbs := []; failed_dbs := [] |}
                  (with_py_reads w1 (S (py_reads w1))))
        as (rs' & w2' & evs' & Hff & Htr' & Hsub).
      rewrite Hff in Hml. simplify_eq. simpl in *.
      assert (evs2 = evs') as -> by (apply (inj (app (trace w1))); congruence).
      done.
Qed.

(** ** Sample runs *)

Example discover_sample :
  name <$> discover [package_marker; create_audit_table; readme_file;
                     create_activity_table]
  = ["dcbb9a6075b4_create_activity_table.py";
     "e7a1c0ffee42_create_audit_table.py"].
Proof. by vm_compute. Qed.

Example tenant_list_sample : tenant_list two_tenants = ["db_aaa"; "db_bbb"].
Proof. by vm_compute. Qed.

Example two_tenants_calls :
  executor_calls (trace (@run_all_tenant_migrations sample_env two_tenants).2)
  = [("dcbb9a6075b4_create_activity_table.py", "db_aaa");
     ("dcbb9a6075b4_create_activity_table.py", "db_bbb");
     ("e7a1c0ffee42_create_audit_table.py", "db_aaa");
     ("e7a1c0ffee42_create_audit_table.py", "db_bbb")].
Proof. by vm_compute. Qed.

Example two_tenants_exit_code :
  (@main sample_env ["run_tenant_migrations.py"] two_tenants).1 = Ok 1.
Proof. by vm_compute. Qed.

(** The tracking table of [db_bbb] after the run: two checkpoints of one
    name around the one applied row, which stays [applied] because it is
    older than the latest checkpoint. *)
Example two_tenants_history :
  (λ db, (λ r, (migration_file r, status r)) <$>
           from_option rows [] (history db))
    <$> dbs (@run_all_tenant_migrations sample_env two_tenants).2 !! "db_bbb"
  = Some [("pre_migration_20250609_174925", checkpoint);
          ("dcbb9a6075b4_create_activity_table.py", applied);
          ("pre_migration_20250609_174925", checkpoint)].
Proof. by vm_compute. Qed.

Example second_run_skips :
  let w1 := (@run_all_tenant_migrations sample_env
               (sample_world [create_activity_table] [("db_aaa", fresh_db)])).2
  in
  (@run_all_tenant_migrations sample_env w1).1 = Ok true
  ∧ Print (MsgSkippedApplied "dcbb9a6075b4_create_activity_table.py" "db_aaa")
    ∈ trace (@run_all_tenant_migrations sample_env w1).2
  ∧ tables <$> dbs (@run_all_tenant_migrations sample_env w1).2 !! "db_aaa"
    = Some ["leads"; "activity"].
Proof.
  split; [by vm_compute|]. split; [|by vm_compute].
  apply list_elem_of_In. vm_compute. tauto.
Qed.

Example rollback_sample :
  (λ w, (λ db, status <$> from_option rows [] (history db))
          <$> dbs w !! "db_aaa")
    (rollback_to_checkpoint "db_aaa" "cp"
       (sample_world [] [("db_aaa", tracked_db)])).2
  = Some [applied; checkpoint; applied; checkpoint; rolled_back; rolled_back].
Proof. by vm_compute. Qed.

(** * Further properties of the runner *)

(** ** Reading and creating the tracking table *)

(** X1.  [get_applied_migrations] never raises and never writes: a tenant
    that cannot be connected to, or has no tracking table, has no applied
    migrations; otherwise the result holds the [applied] rows, each once, in
    ascending order of [applied_at]. *)
Theorem get_applied_migrations_reads (t : string) (w : World) :
  ∃ l,
    get_applied_migrations t w = (Ok l, w)
    ∧ (no_tracking t w → l = [])
    ∧ (∀ db tt,
         dbs w !! t = Some db → history db = Some tt →
         l ≡ₚ (λ r, (migration_file r, migration_hash r, applied_at r))
                <$> filter (λ r, status r = applied) (rows tt)
         ∧ StronglySorted (λ a b, a.2 ≤ b.2) l).
Proof.
  unfold get_applied_migrations, no_tracking. munfold.
  destruct (dbs w !! t) as [db|] eqn:Hdb; simpl.
  - destruct (history db) as [tt|] eqn:Hh; simpl.
    + eexists. split; [reflexivity|]. split.
      * intros Hno. specialize (Hno db eq_refl). congruence.
      * intros db' tt' ? ?. simplify_eq. unfold select_applied. split.
        -- by rewrite merge_sort_Permutation.
        -- apply (StronglySorted_fmap _ applied_at_le); [done|].
           apply StronglySorted_merge_sort; apply _.
    + eexists. split; [reflexivity|]. split; [done|]. congruence.
  - eexists. split; [reflexivity|]. split; [done|]. congruence.
Qed.

(** X2.  [create_migration_tracking_table] is [CREATE TABLE IF NOT EXISTS]:
    when it returns, the tenant has a tracking table and calling it again
    changes nothing; an existing table is left exactly as it is, a missing
    one is created empty beside the tenant's own tables.  It raises,
    without writing, exactly when the database cannot be connected to or
    the role may not create tables, whether the table exists or not. *)
Theorem create_migration_tracking_table_idempotent (t : string) (w : World) :
  match create_migration_tracking_table t w with
  | (Ok _, w') =>
      create_migration_tracking_table t w' = (Ok (), w')
      ∧ (∃ db, dbs w !! t = Some db ∧ create_allowed db = true)
      ∧ (∃ db', dbs w' !! t = Some db' ∧ is_Some (history db'))
      ∧ (∀ db tt, dbs w !! t = Some db → history db = Some tt → w' = w)
      ∧ (∀ db, dbs w !! t = Some db → history db = None →
               dbs w' =
                 <[t := {| tables := tables db;
                           history := Some {| rows := []; next_id := 1 |};
                           create_allowed := create_allowed db |}]> (dbs w))
  | (Raise, w') =>
      w' = w ∧ ∀ db, dbs w !! t = Some db → create_allowed db = false
  end.
Proof.
  unfold create_migration_tracking_table. munfold.
  destruct (dbs w !! t) as [db|] eqn:Hdb; simpl; [|split; [done|congruence]].
  destruct (history db) as [tt|] eqn:Hh; simpl.
  - destruct (create_allowed db) eqn:Hca; simpl.
    + rewrite Hdb. simpl. rewrite Hh, Hca. simpl.
      split; [done|]. split; [eauto|]. split; [eauto|].
      split; [done|]. congruence.
    + split; [done|]. intros db' ?. by simplify_eq.
  - destruct (create_allowed db) eqn:Hca; simpl.
    + rewrite lookup_insert_eq. simpl. rewrite Hca. simpl.
      split; [done|]. split; [eauto|]. split; [eauto|].
      split; [congruence|]. intros db' ? _. by simplify_eq.
    + split; [done|]. intros db' ?. by simplify_eq.
Qed.

Lemma init_tracking_step t0 w :
  ∃ w1,
    try_except (create_migration_tracking_table t0)
      (print (MsgInitWarning t0)) w = (Ok (), w1)
    ∧ db_txns w1 = db_txns w
    ∧ ∀ t, dbs w1 !! t = initialised [t0] t <$> dbs w !! t.
Proof.
  unfold create_migration_tracking_table, initialised. munfold.
  destruct (dbs w !! t0) as [db|] eqn:Hdb; simpl.
  - destruct (history db) as [tt|] eqn:Hh; simpl.
    + destruct (create_allowed db) eqn:Hca; simpl.
      all: eexists; (split; [reflexivity|]); (split; [done|]).
      all: intros t; simpl.
      all: destruct (dbs w !! t) as [db'|] eqn:Hdb'; [|done]; simpl.
      all: f_equal; destruct db' as [tb [h|] ca]; simpl; [done|].
      all: destruct (decide (t ∈ [t0])) as [->%list_elem_of_singleton|];
        [|done].
      all: simplify_eq.
    + destruct (create_allowed db) eqn:Hca; simpl.
      * eexists. split; [reflexivity|]. split; [done|].
        intros t. simpl. destruct (decide (t = t0)) as [->|Hne].
        -- rewrite lookup_insert_eq, Hdb. simpl. rewrite Hh, Hca.
           rewrite decide_True by left. unfold with_history. by rewrite Hca.
        -- rewrite lookup_insert_ne by done.
           destruct (dbs w !! t) as [db'|] eqn:Hdb'; [|done]. simpl.
           f_equal. destruct db' as [tb [h|] ca]; simpl; [done|].
           rewrite decide_False; [done|]. by intros ?%list_elem_of_singleton.
      * eexists. split; [reflexivity|]. split; [done|].
        intros t. simpl. destruct (dbs w !! t) as [db'|] eqn:Hdb'; [|done].
        simpl. f_equal. destruct db' as [tb [h|] ca]; simpl; [done|].
        destruct (decide (t ∈ [t0])) as [->%list_elem_of_singleton|]; [|done].
        by simplify_eq/=.
  - eexists. split; [reflexivity|]. split; [done|].
    intros t. simpl. destruct (dbs w !! t) as [db'|] eqn:Hdb'; [|done].
    simpl. f_equal. destruct db' as [tb [h|] ca]; simpl; [done|].
    destruct (decide (t ∈ [t0])) as [->%list_elem_of_singleton|]; [|done].
    simplify_eq.
Qed.

Lemma initialised_cons t0 ts t db :
  initialised ts t (initialised [t0] t db) = initialised (t0 :: ts) t db.
Proof.
  unfold initialised. destruct db as [tb [h|] ca]; simpl; [done|].
  destruct (decide (t ∈ [t0])) as [Hin|Hnin].
  - apply list_elem_of_singleton in Hin as ->.
    rewrite (decide_True (P := t0 ∈ t0 :: ts)) by left.
    destruct ca; simpl; [done|]. by destruct (decide (t0 ∈ ts)).
  - simpl. destruct (decide (t ∈ ts)) as [Hin|Hnin'].
    + by rewrite (decide_True (P := t ∈ t0 :: ts)) by by right.
    + rewrite (decide_False (P := t ∈ t0 :: ts)); [done|].
      intros [->|?]%elem_of_cons; [|done]. apply Hnin. left.
Qed.

(** X3.  The initialisation loop of [run_all_tenant_migrations] never
    raises, takes no timestamp, neither adds nor drops a database, and
    leaves each tenant database as it was except that a missing tracking
    table is created, empty, for the listed tenants whose role may create
    tables (for the others the failure is only a warning). *)
Theorem init_tracking_creates (ts : list string) (w : World) :
  ∃ w',
    init_tracking ts w = (Ok (), w')
    ∧ db_txns w' = db_txns w
    ∧ ∀ t, dbs w' !! t = initialised ts t <$> dbs w !! t.
Proof.
  revert w. induction ts as [|t0 ts IH]; intros w.
  - exists w. split; [done|]. split; [done|]. intros t.
    destruct (dbs w !! t) as [db|]; [|done]. simpl. f_equal.
    unfold initialised.
    rewrite (decide_False (P := t ∈ [])) by apply not_elem_of_nil.
    by destruct db as [tb [h|] ca].
  - destruct (init_tracking_step t0 w) as (w1 & Hstep & Htx1 & Hdbs1).
    destruct (IH w1) as (w' & Hrun & Htx & Hdbs).
    exists w'. simpl. unfold mbind, M_bind. rewrite Hstep.
    split; [done|]. split; [congruence|].
    intros t. rewrite Hdbs, Hdbs1.
    destruct (dbs w !! t) as [db|]; [|done]. simpl.
    by rewrite initialised_cons.
Qed.

(** ** Rolling back twice *)

Lemma update_rolled_back_twice since r :
  update_rolled_back since (update_rolled_back since r)
  = update_rolled_back since r.
Proof.
  unfold update_rolled_back.
  destruct (decide (applied_at r > since ∧ status r = applied)) as [?|Hn].
  - by rewrite decide_False by (simpl; by intros [_ ?]).
  - by rewrite decide_False.
Qed.

Lemma update_rolled_back_checkpoints since cn (l : list MigrationRecord) :
  filter (λ r, migration_file r = cn ∧ status r = checkpoint)
    (update_rolled_back since <$> l)
  = filter (λ r, migration_file r = cn ∧ status r = checkpoint) l.
Proof.
  induction l as [|r l IH]; [done|]. csimpl.
  unfold update_rolled_back at 1.
  destruct (decide (applied_at r > since ∧ status r = applied)) as [[_ Hs]|_].
  - rewrite !filter_cons_False; [done|..].
    + rewrite Hs. by intros [_ ?].
    + simpl. by intros [_ ?].
  - rewrite !filter_cons, IH. done.
Qed.

(** X4.  Rolling back to a checkpoint a second time gives the same result
    and changes no database any further. *)
Theorem rollback_to_checkpoint_idempotent (t cn : string) (w : World) :
  match rollback_to_checkpoint t cn w with
  | (r, w1) =>
      ∃ w2, rollback_to_checkpoint t cn w1 = (r, w2) ∧ dbs w2 = dbs w1
  end.
Proof.
  unfold rollback_to_checkpoint. munfold.
  destruct (dbs w !! t) as [db|] eqn:Hdb; simpl.
  2:{ rewrite Hdb. eexists. by split. }
  destruct (history db) as [tt|] eqn:Hh; simpl.
  2:{ rewrite Hdb. simpl. rewrite Hh. eexists. by split. }
  destruct (select_latest_checkpoint tt cn) as [c|] eqn:Hsel; simpl.
  2:{ rewrite Hdb. simpl. rewrite Hh, Hsel. eexists. by split. }
  rewrite lookup_insert_eq. simpl.
  unfold select_latest_checkpoint in *. simpl.
  rewrite update_rolled_back_checkpoints, Hsel. simpl.
  eexists. split; [reflexivity|]. simpl.
  rewrite insert_insert_eq. do 3 f_equal.
  rewrite <- list_fmap_compose. apply list_fmap_ext.
  intros i r _. apply update_rolled_back_twice.
Qed.

(** ** Errors inside the executor *)

(** X5.  An [upgrade] that raises is never committed: the executor returns
    without changing any database and without taking a timestamp. It returns
    [True] only if the file was already recorded as applied (then [upgrade]
    is not even run), and [False] otherwise. *)
Theorem failed_upgrade_not_committed `{Env} (t : string) (f : MigrationFile)
    (w : World) (upgrade : list string → option (list string)) :
  module f = Upgrade upgrade →
  (∀ db, dbs w !! t = Some db → upgrade (tables db) = None) →
  ∃ r w',
    run_tenant_migration t f w = (Ok r, w')
    ∧ dbs w' = dbs w
    ∧ db_txns w' = db_txns w
    ∧ (r = true ↔
       ∃ db tt row,
         dbs w !! t = Some db ∧ history db = Some tt ∧ row ∈ rows tt
         ∧ applied_with (name f) (get_migration_hash f) row).
Proof.
  intros Hmod Hfail.
  unfold run_tenant_migration, get_applied_migrations. munfold.
  destruct (dbs w !! t) as [db|] eqn:Hdb; simpl.
  - destruct (history db) as [tt|] eqn:Hh; simpl.
    + destruct (already_applied (select_applied tt) (name f)
                  (get_migration_hash f)) eqn:Happ; simpl.
      * apply already_applied_iff in Happ as (row & Hrow & Hw).
        do 2 eexists. split; [reflexivity|]. split; [done|]. split; [done|].
        split; [|done]. intros _. by exists db, tt, row.
      * rewrite Hmod. simpl. rewrite Hdb. simpl. rewrite (Hfail db eq_refl).
        simpl. do 2 eexists. split; [reflexivity|]. split; [done|].
        split; [done|]. split; [done|].
        intros (db' & tt' & row & Hd & Hh' & Hrow & Hw).
        assert (db' = db) as -> by congruence.
        assert (tt' = tt) as -> by congruence.
        assert (already_applied (select_applied tt) (name f)
                  (get_migration_hash f) = true) as Ht
          by (apply already_applied_iff; eauto).
        congruence.
    + rewrite Hmod. simpl. rewrite Hdb. simpl. rewrite (Hfail db eq_refl).
      simpl. do 2 eexists. split; [reflexivity|]. split; [done|].
      split; [done|]. split; [done|].
      intros (db' & tt' & row & ? & ? & _). by simplify_eq.
  - rewrite Hmod. simpl. rewrite Hdb. simpl.
    do 2 eexists. split; [reflexivity|]. split; [done|].
    split; [done|]. split; [done|].
    intros (db' & tt' & row & ? & _). done.
Qed.

Lemma failed_upgrade_not_committed_witness :
  module create_audit_table = Upgrade (create_table "audit")
  ∧ ∃ w',
      @run_tenant_migration sample_env "db_bbb" create_audit_table
        (sample_world [create_audit_table] [("db_bbb", audited_db)])
      = (Ok false, w')
      ∧ dbs w' = dbs (sample_world [create_audit_table]
                        [("db_bbb", audited_db)]).
Proof.
  split; [reflexivity|].
  destruct (@failed_upgrade_not_committed sample_env "db_bbb"
              create_audit_table
              (sample_world [create_audit_table] [("db_bbb", audited_db)])
              (create_table "audit") eq_refl)
    as (r & w' & Hrun & Hdbs & _ & Hr).
  - intros db Hdb.
    assert (db = audited_db) as ->
      by (vm_compute in Hdb; injection Hdb as <-; reflexivity).
    reflexivity.
  - exists w'. split; [|exact Hdbs].
    destruct r; [|exact Hrun].
    destruct Hr as [Hr _].
    destruct (Hr eq_refl) as (db & tt & row & Hdb & Hh & Hrow & _).
    exfalso.
    assert (db = audited_db) as ->
      by (vm_compute in Hdb; injection Hdb as <-; reflexivity).
    injection Hh as <-. simpl in Hrow. by apply not_elem_of_nil in Hrow.
Defined.

Lemma run_tenant_migration_load_error `{Env} t f w :
  module f = LoadError →
  (∀ db tt, dbs w !! t = Some db → history db = Some tt →
     ∀ r, r ∈ rows tt → ¬ applied_with (name f) (get_migration_hash f) r) →
  run_tenant_migration t f w
  = (Raise, with_trace w (trace w ++ [MigrateCall t (name f)])).
Proof.
  intros Hmod Hno.
  unfold run_tenant_migration, get_applied_migrations. munfold.
  destruct (dbs w !! t) as [db|] eqn:Hdb; simpl.
  - destruct (history db) as [tt|] eqn:Hh; simpl.
    + rewrite (already_applied_none tt) by eauto. by rewrite Hmod.
    + by rewrite Hmod.
  - by rewrite Hmod.
Qed.

(** X6.  A migration file whose import raises, attempted on a tenant that is
    not yet failed, whose checkpoint can be written and that has no
    [applied] row for the file: the exception leaves the executor (it is
    raised before its [try]), the orchestrator catches it, calls the
    rollback under the run's checkpoint name and adds the tenant to
    [failed_dbs]; the tenant's tables are as before. *)
Theorem import_error_marks_failed `{Env} (cn : string) (f : MigrationFile)
    (t : string) (rs : RunState) (w : World) (db : TenantDb)
    (tt : TrackingTable) :
  module f = LoadError →
  t ∉ failed_dbs rs →
  dbs w !! t = Some db →
  history db = Some tt →
  (∀ r, r ∈ rows tt → ¬ applied_with (name f) (get_migration_hash f) r) →
  ∃ data w1 w2 w' db',
    create_checkpoint t cn w = (Ok data, w1)
    ∧ run_tenant_migration t f w1 = (Raise, w2)
    ∧ dbs w2 = dbs w1
    ∧ attempt cn f t rs w = (Ok (add_failed rs t), w')
    ∧ trace w' = trace w ++ [Checkpointed t cn;
                             MigrateCall t (name f);
                             Print (MsgError (name f) t);
                             RollbackCall t cn;
                             Print (MsgRolledBack t cn)]
    ∧ dbs w' !! t = Some db'
    ∧ tables db' = tables db.
Proof.
  intros Hmod Hnin Hdb Hh Hno.
  destruct (create_checkpoint_cases t cn w)
    as [(db0 & tt0 & data & w1 & Hdb0 & Hh0 & Hcp & Hst1 & Hdbs1 & Htr1)
       |(Hnt & _)].
  2:{ exfalso. specialize (Hnt db Hdb). congruence. }
  assert (db0 = db) as -> by congruence.
  assert (tt0 = tt) as -> by congruence.
  set (tt1 := insert_row tt cn "checkpoint" (current_timestamp (db_txns w))
                checkpoint (Some data)) in *.
  assert (dbs w1 !! t = Some (with_history db tt1)) as Hdb1
    by (rewrite Hdbs1; apply lookup_insert_eq).
  assert (run_tenant_migration t f w1
          = (Raise, with_trace w1 (trace w1 ++ [MigrateCall t (name f)])))
    as Hrun.
  { apply run_tenant_migration_load_error; [done|].
    intros db' tt' Hdb' Hh' r Hr. rewrite Hdb1 in Hdb'. simplify_eq.
    simpl in Hh'. simplify_eq. simpl in Hr.
    apply elem_of_app in Hr as [Hr|Hr]; [by apply Hno|].
    apply list_elem_of_singleton in Hr. subst r. by intros [? _]. }
  destruct (select_latest_checkpoint tt1 cn) as [c|] eqn:Hsel.
  2:{ exfalso. rewrite select_latest_checkpoint_None in Hsel.
      eapply (Hsel _); [|split]; simpl.
      - apply elem_of_app. right. left.
      - done.
      - done. }
  destruct (rollback_to_checkpoint_found t cn
              (with_trace
                 (with_trace w1 (trace w1 ++ [MigrateCall t (name f)]))
                 ((trace w1 ++ [MigrateCall t (name f)])
                  ++ [Print (MsgError (name f) t)]))
              (with_history db tt1) tt1 c)
    as (w3 & Hrb & Hst3 & Htr3 & Hdbs3); [done..|].
  eexists data, w1, _, w3, _.
  split; [done|]. split; [exact Hrun|]. split; [done|].
  split.
  { unfold attempt. rewrite decide_False by done.
    unfold try_except, mbind, M_bind at 1 2. rewrite Hcp.
    unfold mbind, M_bind. rewrite Hrun. munfold. by rewrite Hrb. }
  split.
  { rewrite Htr3. simpl. rewrite Htr1. by trace_norm. }
  split; [rewrite Hdbs3; apply lookup_insert_eq|done].
Qed.

Lemma import_error_marks_failed_witness :
  module broken_import = LoadError
  ∧ ("db_aaa" ∉ failed_dbs no_runs)
  ∧ ∃ w',
      @attempt sample_env "pre_migration_20250609_174925" broken_import
        "db_aaa" no_runs
        (sample_world [broken_import] [("db_aaa", fresh_db)])
      = (Ok {| successful_dbs := []; failed_dbs := ["db_aaa"] |}, w').
Proof.
  split; [reflexivity|]. split; [apply not_elem_of_nil|].
  destruct (@import_error_marks_failed sample_env
              "pre_migration_20250609_174925" broken_import "db_aaa" no_runs
              (sample_world [broken_import] [("db_aaa", fresh_db)])
              fresh_db empty_table)
    as (data & w1 & w2 & w' & db' & _ & _ & _ & Hatt & _).
  - reflexivity.
  - apply not_elem_of_nil.
  - reflexivity.
  - reflexivity.
  - intros r Hr. simpl in Hr. by apply not_elem_of_nil in Hr.
  - exists w'. exact Hatt.
Defined.

(** ** The read-only switches *)

Lemma get_applied_migrations_of t w :
  get_applied_migrations t w = (Ok (applied_migrations_of w t), w).
Proof.
  unfold get_applied_migrations, applied_migrations_of. munfold.
  destruct (dbs w !! t) as [db|]; simpl; [|done].
  by destruct (history db).
Qed.

Lemma show_tenants_history_output ts w :
  show_tenants_history ts w
  = (Ok (),
     with_trace w
       (trace w ++
        ((λ t, Print (MsgHistory t (applied_migrations_of w t))) <$> ts))).
Proof.
  revert w. induction ts as [|t ts IH]; intros w.
  - simpl. unfold mret, M_ret. f_equal. rewrite app_nil_r. by destruct w.
  - simpl. unfold mbind, M_bind, try_except.
    rewrite get_applied_migrations_of. munfold. rewrite IH. simpl.
    f_equal. unfold with_trace. simpl. f_equal. by rewrite <- (assoc (++)).
Qed.

Lemma show_migration_history_returns w :
  ∃ evs, show_migration_history w = (Ok (), with_trace w (trace w ++ evs)).
Proof.
  unfold show_migration_history, get_tenant_databases, try_except.
  unfold mbind, M_bind.
  destruct (companies w) as [rows|]; [|by eexists].
  destruct (decide (merge_sort String.le rows = [])); [by eexists|].
  rewrite show_tenants_history_output. by eexists.
Qed.

(** X7.  [show_migration_history] never raises and writes nothing: with the
    registry out of reach it prints an error; with no tenant it says so;
    otherwise it prints, for each tenant in ascending order, the tenant's
    applied migrations, which are none for a tenant that cannot be connected
    to or has no tracking table. *)
Theorem show_migration_history_output (w : World) :
  show_migration_history w
  = (Ok (),
     with_trace w
       (trace w ++
        match companies w with
        | None => [Print MsgHistoryError]
        | Some rows =>
            if decide (merge_sort String.le rows = [])
            then [Print MsgNoTenants]
            else (λ t, Print (MsgHistory t (applied_migrations_of w t)))
                   <$> merge_sort String.le rows
        end)).
Proof.
  unfold show_migration_history, get_tenant_databases, try_except.
  unfold mbind, M_bind.
  destruct (companies w) as [rows|]; [|done].
  destruct (decide (merge_sort String.le rows = [])); [done|].
  by rewrite show_tenants_history_output.
Qed.

(** X8.  Started with [--list], [--history] or [--help], [main] exits with
    code 0 whatever the state of the registry and of the tenants, and writes
    nothing: no database changes and no timestamp is taken. *)
Theorem main_switches_read_only `{Env} (script arg : string)
    (rest : list string) (w : World) :
  arg ∈ ["--list"; "--history"; "--help"] →
  ∃ w',
    main (script :: arg :: rest) w = (Ok 0, w')
    ∧ static w w'
    ∧ dbs w' = dbs w
    ∧ db_txns w' = db_txns w
    ∧ py_reads w' = py_reads w.
Proof.
  intros Harg. unfold main. simpl.
  destruct (decide (arg = "--list")) as [->|Hl].
  { unfold get_tenant_databases. munfold.
    destruct (companies w); simpl; eexists; (split; [reflexivity|]);
      by frame_goals. }
  destruct (decide (arg = "--history")) as [->|Hh].
  { destruct (show_migration_history_returns w) as [evs Hshow].
    unfold mbind, M_bind. rewrite Hshow.
    eexists. split; [reflexivity|]. by frame_goals. }
  destruct (decide (arg = "--help")) as [->|Hp].
  { munfold. eexists. split; [reflexivity|]. by frame_goals. }
  exfalso. rewrite !elem_of_cons in Harg.
  destruct Harg as [?|[?|[?|Hnil]]]; [done..|].
  by apply not_elem_of_nil in Hnil.
Qed.

Lemma main_switches_read_only_witness :
  "--history" ∈ ["--list"; "--history"; "--help"]
  ∧ ∃ w',
      @main sample_env ["run_tenant_migrations.py"; "--history"] two_tenants
      = (Ok 0, w')
      ∧ dbs w' = dbs two_tenants.
Proof.
  assert ("--history" ∈ ["--list"; "--history"; "--help"]) as Hin
    by (right; left).
  split; [exact Hin|].
  destruct (@main_switches_read_only sample_env "run_tenant_migrations.py"
              "--history" [] two_tenants Hin)
    as (w' & Hmain & _ & Hdbs & _).
  exists w'. split; [exact Hmain|exact Hdbs].
Defined.

(** ** What every operation does to the tenant databases

    A relation on tenant databases that is a preorder and holds across
    the four writes of the program (creating the tracking table,
    inserting a row, the rollback update, committing an [upgrade]) holds
    across the whole of [main]. *)

Section Evolution.
Context `{Env} (Rdb : relation TenantDb) `{!PreOrder Rdb}.
Hypothesis Rdb_create : ∀ db,
  history db = None →
  Rdb db (with_history db {| rows := []; next_id := 1 |}).
Hypothesis Rdb_insert : ∀ db tt file hash now s data,
  history db = Some tt →
  Rdb db (with_history db (insert_row tt file hash now s data)).
Hypothesis Rdb_rollback : ∀ db tt since,
  history db = Some tt →
  Rdb db (with_history db
            {| rows := update_rolled_back since <$> rows tt;
               next_id := next_id tt |}).
Hypothesis Rdb_upgrade : ∀ db tables', Rdb db (with_tables db tables').

Lemma lifted_same w w' : dbs w' = dbs w → lifted Rdb w w'.
Proof. intros Heq t. rewrite Heq. by destruct (dbs w !! t); constructor. Qed.

Lemma lifted_trans w1 w2 w3 :
  lifted Rdb w1 w2 → lifted Rdb w2 w3 → lifted Rdb w1 w3.
Proof.
  intros H12 H23 t. specialize (H12 t). specialize (H23 t).
  destruct H12 as [db1 db2 ?|]; inversion H23; simplify_eq; constructor.
  by etrans.
Qed.

Lemma lifted_commit w w' t db db' :
  dbs w !! t = Some db → Rdb db db' → dbs w' = <[t:=db']> (dbs w) →
  lifted Rdb w w'.
Proof.
  intros Hdb HR Heq t'. rewrite Heq. destruct (decide (t' = t)) as [->|Hne].
  - rewrite lookup_insert_eq, Hdb. by constructor.
  - rewrite lookup_insert_ne by done. by destruct (dbs w !! t'); constructor.
Qed.

Lemma preserves_bind {A B} (m : M A) (f : A → M B) :
  preserves (lifted Rdb) m → (∀ a, preserves (lifted Rdb) (f a)) →
  preserves (lifted Rdb) (m ≫= f).
Proof.
  intros Hm Hf w. specialize (Hm w). unfold mbind, M_bind.
  destruct (m w) as [[a|] w1]; simpl in *; [|done].
  eapply lifted_trans; [exact Hm|apply Hf].
Qed.

Lemma preserves_try_except {A} (body handler : M A) :
  preserves (lifted Rdb) body → preserves (lifted Rdb) handler →
  preserves (lifted Rdb) (try_except body handler).
Proof.
  intros Hb Hh w. specialize (Hb w). unfold try_except.
  destruct (body w) as [[a|] w1]; simpl in *; [done|].
  eapply lifted_trans; [exact Hb|apply Hh].
Qed.

Lemma preserves_mret {A} (a : A) : preserves (lifted Rdb) (mret a).
Proof. intros w. by apply lifted_same. Qed.

Lemma preserves_raise {A} : preserves (lifted Rdb) (raise (A := A)).
Proof. intros w. by apply lifted_same. Qed.

Lemma preserves_print m : preserves (lifted Rdb) (print m).
Proof. intros w. by apply lifted_same. Qed.

Lemma preserves_emit e : preserves (lifted Rdb) (emit e).
Proof. intros w. by apply lifted_same. Qed.

Lemma preserves_get_applied_migrations t :
  preserves (lifted Rdb) (get_applied_migrations t).
Proof.
  intros w. apply lifted_same.
  unfold get_applied_migrations. munfold. by mcase.
Qed.

Lemma preserves_get_tenant_databases :
  preserves (lifted Rdb) get_tenant_databases.
Proof.
  intros w. apply lifted_same. unfold get_tenant_databases. by mcase.
Qed.

Lemma preserves_get_tenant_migration_files :
  preserves (lifted Rdb) get_tenant_migration_files.
Proof.
  intros w. apply lifted_same. unfold get_tenant_migration_files.
  munfold. by mcase.
Qed.

Lemma preserves_make_checkpoint_name :
  preserves (lifted Rdb) make_checkpoint_name.
Proof. intros w. by apply lifted_same. Qed.

Ltac solve_Rdb :=
  simpl in *;
  first [ by apply Rdb_create
        | by eapply Rdb_insert
        | by eapply Rdb_rollback
        | by apply Rdb_upgrade
        | etrans; [apply Rdb_upgrade|by eapply Rdb_insert] ].

Ltac solve_lifted :=
  simpl; rewrite ?insert_insert_eq;
  first [ by apply lifted_same
        | eapply lifted_commit; cycle 2;
          [reflexivity|eassumption|solve_Rdb] ].

Lemma preserves_create_migration_tracking_table t :
  preserves (lifted Rdb) (create_migration_tracking_table t).
Proof.
  intros w. unfold create_migration_tracking_table. munfold.
  mcase; solve_lifted.
Qed.

Lemma preserves_create_checkpoint t cn :
  preserves (lifted Rdb) (create_checkpoint t cn).
Proof.
  intros w. unfold create_checkpoint, read_current_timestamp,
    read_datetime_now. munfold.
  mcase; solve_lifted.
Qed.

Lemma preserves_rollback_to_checkpoint t cn :
  preserves (lifted Rdb) (rollback_to_checkpoint t cn).
Proof.
  intros w. unfold rollback_to_checkpoint. munfold.
  mcase; solve_lifted.
Qed.

Lemma preserves_run_tenant_migration t f :
  preserves (lifted Rdb) (run_tenant_migration t f).
Proof.
  intros w. unfold run_tenant_migration, get_applied_migrations,
    record_migration_success, read_current_timestamp. munfold.
  mcase; solve_lifted.
Qed.

Ltac solve_preserves :=
  repeat first
    [ assumption
    | apply preserves_get_applied_migrations
    | apply preserves_get_tenant_databases
    | apply preserves_get_tenant_migration_files
    | apply preserves_make_checkpoint_name
    | apply preserves_create_migration_tracking_table
    | apply preserves_create_checkpoint
    | apply preserves_rollback_to_checkpoint
    | apply preserves_run_tenant_migration
    | apply preserves_print
    | apply preserves_emit
    | apply preserves_mret
    | apply preserves_raise
    | apply preserves_try_except
    | apply preserves_bind; [|intros ?]
    | match goal with
      | |- preserves _ (if ?b then _ else _) => destruct b
      | |- preserves _ (match ?x with _ => _ end) => destruct x
      end ].

Lemma preserves_attempt cn f t rs :
  preserves (lifted Rdb) (attempt cn f t rs).
Proof. unfold attempt. solve_preserves. Qed.

Lemma preserves_for_tenants cn f ts rs :
  preserves (lifted Rdb) (for_tenants cn f ts rs).
Proof.
  revert rs. induction ts as [|t ts IH]; intros rs; simpl.
  - apply preserves_mret.
  - apply preserves_bind; [apply preserves_attempt|done].
Qed.

Lemma preserves_for_files cn fs ts rs :
  preserves (lifted Rdb) (for_files cn fs ts rs).
Proof.
  revert rs. induction fs as [|f fs IH]; intros rs; simpl.
  - apply preserves_mret.
  - apply preserves_bind; [apply preserves_print|intros _].
    apply preserves_bind; [apply preserves_for_tenants|done].
Qed.

Lemma preserves_init_tracking ts :
  preserves (lifted Rdb) (init_tracking ts).
Proof. induction ts as [|t ts IH]; simpl; solve_preserves. Qed.

Lemma preserves_migration_loops fs ts :
  preserves (lifted Rdb) (migration_loops fs ts).
Proof.
  unfold migration_loops. solve_preserves. apply preserves_for_files.
Qed.

Lemma preserves_run_all_tenant_migrations :
  preserves (lifted Rdb) run_all_tenant_migrations.
Proof.
  unfold run_all_tenant_migrations. solve_preserves.
  - apply preserves_init_tracking.
  - apply preserves_for_files.
Qed.

Lemma preserves_show_tenants_history ts :
  preserves (lifted Rdb) (show_tenants_history ts).
Proof. induction ts as [|t ts IH]; simpl; solve_preserves. Qed.

Lemma preserves_show_migration_history :
  preserves (lifted Rdb) show_migration_history.
Proof.
  unfold show_migration_history. solve_preserves.
  apply preserves_show_tenants_history.
Qed.

Lemma preserves_main argv : preserves (lifted Rdb) (main argv).
Proof.
  unfold main. solve_preserves.
  all: first [ apply preserves_show_tenants_history
             | apply preserves_init_tracking
             | apply preserves_for_files ].
Qed.

End Evolution.

(** *** The tracking rows are append-only *)

Lemma row_evolves_refl r : row_evolves r r.
Proof. unfold row_evolves. tauto. Qed.

Lemma row_evolves_trans r1 r2 r3 :
  row_evolves r1 r2 → row_evolves r2 r3 → row_evolves r1 r3.
Proof.
  unfold row_evolves.
  intros (?&?&?&?&?&H12) (?&?&?&?&?&H23).
  repeat (split; [congruence|]).
  destruct H12 as [?|[? ?]], H23 as [?|[? ?]]; [left|right|right|];
    try split; congruence.
Qed.

Lemma row_evolves_update since r : row_evolves r (update_rolled_back since r).
Proof.
  unfold update_rolled_back.
  destruct (decide _) as [[_ Hs]|_]; [|apply row_evolves_refl].
  unfold row_evolves. simpl. repeat (split; [done|]). by right.
Qed.

Global Instance db_evolves_preorder : PreOrder db_evolves.
Proof.
  split.
  - intros db. split; [done|]. split; [done|].
    exists (rows_of db), []. split; [by rewrite app_nil_r|].
    apply Forall2_same_length_lookup. split; [done|].
    intros i r r' ? ?. simplify_eq. apply row_evolves_refl.
  - intros db1 db2 db3 (Hc12 & Hh12 & k12 & n12 & Hr12 & Hf12)
      (Hc23 & Hh23 & k23 & n23 & Hr23 & Hf23).
    split; [congruence|]. split; [auto|].
    rewrite Hr12 in Hf23.
    apply Forall2_app_inv_l in Hf23 as (k1 & k2 & Hk1 & Hk2 & ->).
    exists k1, (k2 ++ n23). split; [by rewrite Hr23, (assoc (++))|].
    eapply Forall2_trans; [|exact Hf12|exact Hk1].
    apply row_evolves_trans.
Qed.

Lemma rows_evolve_refl (l : list MigrationRecord) : Forall2 row_evolves l l.
Proof.
  apply Forall2_same_length_lookup. split; [done|].
  intros i r r' ? ?. simplify_eq. apply row_evolves_refl.
Qed.

Lemma db_evolves_upgrade db tables' : db_evolves db (with_tables db tables').
Proof.
  split; [done|]. split; [done|].
  exists (rows_of db), []. split; [by rewrite app_nil_r|].
  apply rows_evolve_refl.
Qed.

Lemma db_evolves_create db :
  history db = None →
  db_evolves db (with_history db {| rows := []; next_id := 1 |}).
Proof.
  intros Hh. split; [done|]. split; [simpl; eauto|].
  exists [], []. unfold rows_of. rewrite Hh. by split.
Qed.

Lemma db_evolves_insert db tt file hash now s data :
  history db = Some tt →
  db_evolves db (with_history db (insert_row tt file hash now s data)).
Proof.
  intros Hh. split; [done|]. split; [simpl; eauto|].
  eexists (rows tt), _. unfold rows_of. rewrite Hh. simpl.
  split; [reflexivity|]. apply rows_evolve_refl.
Qed.

Lemma db_evolves_rollback db tt since :
  history db = Some tt →
  db_evolves db
    (with_history db {| rows := update_rolled_back since <$> rows tt;
                        next_id := next_id tt |}).
Proof.
  intros Hh. split; [done|]. split; [simpl; eauto|].
  exists (update_rolled_back since <$> rows tt), [].
  unfold rows_of. rewrite Hh. simpl. split; [by rewrite app_nil_r|].
  apply Forall2_fmap_r, Forall2_same_length_lookup. split; [done|].
  intros i r r' ? ?. simplify_eq. apply row_evolves_update.
Qed.

(** X9.  Whatever its arguments and whether the run succeeds or not, [main]
    neither creates nor drops a tenant database, never drops a tracking
    table and never deletes, reorders or rewrites a tracking row: every row
    that was there is still there, in place, with the same id, file, hash,
    timestamp and payload, and with the same status or turned from [applied]
    to [rolled_back]; new rows only come after the old ones. *)
Theorem tracking_rows_append_only `{Env} (argv : list string) (w : World)
    (t : string) :
  match dbs w !! t with
  | None => dbs (main argv w).2 !! t = None
  | Some db =>
      ∃ db' kept new,
        dbs (main argv w).2 !! t = Some db'
        ∧ create_allowed db' = create_allowed db
        ∧ (is_Some (history db) → is_Some (history db'))
        ∧ rows_of db' = kept ++ new
        ∧ Forall2 row_evolves (rows_of db) kept
  end.
Proof.
  pose proof (preserves_main db_evolves db_evolves_create
                db_evolves_insert db_evolves_rollback db_evolves_upgrade
                argv w t) as Hmain.
  destruct Hmain as [db db' (Hc & Hh & kept & new & Hrows & Hf)|]; [|done].
  by exists db', kept, new.
Qed.

(** *** The primary key of the tracking table *)

Global Instance keeps_ids_ok_preorder : PreOrder keeps_ids_ok.
Proof. split; unfold keeps_ids_ok; [by intros ?|intros ???; auto]. Qed.

Lemma ids_ok_create db :
  history db = None →
  keeps_ids_ok db (with_history db {| rows := []; next_id := 1 |}).
Proof. intros _ _. unfold ids_ok. simpl. split; constructor. Qed.

Lemma ids_ok_upgrade db tables' : keeps_ids_ok db (with_tables db tables').
Proof. by intros Hi. Qed.

Lemma ids_ok_insert db tt file hash now s data :
  history db = Some tt →
  keeps_ids_ok db (with_history db (insert_row tt file hash now s data)).
Proof.
  unfold keeps_ids_ok, ids_ok. intros Hh. rewrite Hh. simpl.
  intros [Hnd Hlt]. split.
  - rewrite fmap_app. apply NoDup_app. split; [done|].
    split; [|apply NoDup_singleton].
    intros i Hi ->%list_elem_of_singleton.
    apply list_elem_of_fmap in Hi as (r & Hr & Hin).
    rewrite Forall_forall in Hlt. specialize (Hlt r Hin). simpl in Hlt, Hr. lia.
  - apply Forall_app. split.
    + eapply Forall_impl; [exact Hlt|]. simpl. intros. lia.
    + constructor; [simpl; lia|constructor].
Qed.

Lemma ids_ok_rollback db tt since :
  history db = Some tt →
  keeps_ids_ok db
    (with_history db {| rows := update_rolled_back since <$> rows tt;
                        next_id := next_id tt |}).
Proof.
  unfold keeps_ids_ok, ids_ok. intros Hh. rewrite Hh. simpl.
  assert (∀ r, row_id (update_rolled_back since r) = row_id r) as Hid.
  { intros r. unfold update_rolled_back. by destruct (decide _). }
  intros [Hnd Hlt]. split.
  - rewrite <- list_fmap_compose.
    erewrite list_fmap_ext; [exact Hnd|]. intros i r _. apply Hid.
  - apply Forall_fmap. eapply Forall_impl; [exact Hlt|].
    intros r ?. simpl. by rewrite Hid.
Qed.

(** X10.  If every tracking table has distinct ids below the next value of
    its sequence, the same holds after [main], whatever its arguments. *)
Theorem tracking_ids_stay_unique `{Env} (argv : list string) (w : World) :
  (∀ t db, dbs w !! t = Some db → ids_ok db) →
  ∀ t db', dbs (main argv w).2 !! t = Some db' → ids_ok db'.
Proof.
  intros Hok t db' Hdb'.
  pose proof (preserves_main keeps_ids_ok ids_ok_create ids_ok_insert
                ids_ok_rollback ids_ok_upgrade argv w t) as Hmain.
  rewrite Hdb' in Hmain. inversion Hmain as [db ? HR Heq|]; subst.
  apply HR. apply (Hok t). done.
Qed.

Lemma tracking_ids_stay_unique_witness :
  (∀ t db, dbs two_tenants !! t = Some db → ids_ok db)
  ∧ ∃ db',
      dbs (@main sample_env ["run_tenant_migrations.py"] two_tenants).2
        !! "db_bbb" = Some db'
      ∧ ids_ok db'.
Proof.
  assert (∀ t db, dbs two_tenants !! t = Some db → ids_ok db) as Hok.
  { intros t db Hdb.
    assert (dbs two_tenants
            = <["db_bbb" := audited_db]> (<["db_aaa" := fresh_db]> ∅))
      as Heq by reflexivity.
    rewrite Heq in Hdb.
    apply lookup_insert_Some in Hdb as [[_ <-]|[_ Hdb]].
    { unfold ids_ok. simpl. split; constructor. }
    apply lookup_insert_Some in Hdb as [[_ <-]|[_ Hdb]].
    { unfold ids_ok. simpl. split; constructor. }
    by rewrite lookup_empty in Hdb. }
  split; [exact Hok|].
  destruct (dbs (@main sample_env ["run_tenant_migrations.py"]
                   two_tenants).2 !! "db_bbb") as [db'|] eqn:Hdb'.
  - exists db'. split; [reflexivity|].
    exact (@tracking_ids_stay_unique sample_env
             ["run_tenant_migrations.py"] two_tenants Hok "db_bbb" db' Hdb').
  - exfalso. vm_compute in Hdb'. discriminate.
Defined.

(** ** The rollback of a run changes no row

    The orchestrator rolls back to the checkpoint it has just written.
    That checkpoint is then the latest row of the table, so no [applied]
    row is dated after it. *)

Global Instance grows_preorder : PreOrder grows.
Proof.
  split.
  - intros db. exists []. by rewrite app_nil_r.
  - intros db1 db2 db3 (n12 & H12 & Hf12) (n23 & H23 & Hf23).
    exists (n12 ++ n23). split; [by rewrite H23, H12, (assoc (++))|].
    by apply Forall_app.
Qed.

Lemma grows_insert db tt file hash now s data :
  history db = Some tt → s ≠ rolled_back →
  grows db (with_history db (insert_row tt file hash now s data)).
Proof.
  intros Hh Hs. eexists. unfold rows_of. rewrite Hh. simpl.
  split; [reflexivity|]. by repeat constructor.
Qed.

Lemma grows_same_rows db db' : rows_of db' = rows_of db → grows db db'.
Proof. intros Heq. exists []. by rewrite app_nil_r. Qed.

Lemma grows_upgrade_insert db tt l file hash now s data :
  history db = Some tt → s ≠ rolled_back →
  grows db (with_history (with_tables db l)
              (insert_row tt file hash now s data)).
Proof.
  intros Hh Hs. eexists. unfold rows_of. rewrite Hh. simpl.
  split; [reflexivity|]. by repeat constructor.
Qed.

Lemma rows_upgrade_insert db tt l file hash now s data r :
  history db = Some tt →
  r ∈ rows_of (with_history (with_tables db l)
                 (insert_row tt file hash now s data)) →
  r ∈ rows_of db ∨ applied_at r = now.
Proof.
  intros Hh. unfold rows_of. rewrite Hh. simpl.
  intros [?|Hr]%elem_of_app; [by left|right].
  by apply list_elem_of_singleton in Hr as ->.
Qed.

Section NoFlip.
Context `{Env}.
Hypothesis clock : clock_nondecreasing.

Lemma advances_refl w w' :
  dbs w' = dbs w → db_txns w' = db_txns w → advances w w'.
Proof.
  intros Hd Ht. split; [lia|]. split; [by apply (lifted_same grows)|].
  intros Hdated t db r. rewrite Hd, Ht. apply Hdated.
Qed.

Lemma advances_trans w1 w2 w3 :
  advances w1 w2 → advances w2 w3 → advances w1 w3.
Proof.
  intros (?&?&?) (?&?&?). split; [lia|].
  split; [by eapply (lifted_trans grows)|auto].
Qed.

(** A commit on tenant [t] that keeps the old rows and adds rows dated
    at the clock reading just taken. *)
Lemma advances_commit w w' t db db' :
  dbs w !! t = Some db →
  dbs w' = <[t:=db']> (dbs w) →
  (db_txns w ≤ db_txns w')%nat →
  grows db db' →
  (∀ r, r ∈ rows_of db' → r ∈ rows_of db ∨
        applied_at r ≤ current_timestamp (db_txns w')) →
  advances w w'.
Proof.
  intros Hdb Hdbs Htx Hg Hnew. split; [done|].
  split; [by apply (lifted_commit grows w w' t db db')|].
  intros Hdated t' db0 r. rewrite Hdbs.
  destruct (decide (t' = t)) as [->|Hne].
  - rewrite lookup_insert_eq. intros ? Hr. simplify_eq.
    destruct (Hnew r Hr) as [Hold|?]; [|done].
    etrans; [by eapply Hdated|]. by apply clock.
  - rewrite lookup_insert_ne by done. intros Hdb0 Hr.
    etrans; [by eapply Hdated|]. by apply clock.
Qed.

Lemma advances_tick w w' :
  dbs w' = dbs w → (db_txns w ≤ db_txns w')%nat → advances w w'.
Proof.
  intros Hd Ht. split; [done|]. split; [by apply (lifted_same grows)|].
  intros Hdated t db r. rewrite Hd. intros Hdb Hr.
  etrans; [by eapply Hdated|]. by apply clock.
Qed.

Lemma create_checkpoint_advances t cn w :
  advances w (create_checkpoint t cn w).2
  ∧ (dated w → ∀ data, (create_checkpoint t cn w).1 = Ok data →
     fresh_checkpoint t cn (create_checkpoint t cn w).2).
Proof.
  unfold create_checkpoint, read_current_timestamp, read_datetime_now.
  munfold.
  destruct (dbs w !! t) as [db|] eqn:Hdb; simpl;
    [|split; [by apply advances_refl|done]].
  destruct (history db) as [tt|] eqn:Hh; simpl;
    [|split; [by apply advances_refl|done]].
  split.
  - eapply advances_commit; [exact Hdb|reflexivity|simpl; lia| |].
    + by apply grows_insert.
    + unfold rows_of. rewrite Hh. simpl.
      intros r [?|Hr]%elem_of_app; [by left|right].
      apply list_elem_of_singleton in Hr as ->.
      simpl. apply clock. lia.
  - intros Hdated data _. eexists _, _, _.
    split; [simpl; apply lookup_insert_eq|]. split; [reflexivity|].
    split; [simpl; apply elem_of_app; right; left|]. split; [done|].
    simpl. intros r [Hr|Hr]%elem_of_app.
    + apply (Hdated t db r Hdb). unfold rows_of. by rewrite Hh.
    + by apply list_elem_of_singleton in Hr as ->.
Qed.

Lemma run_tenant_migration_advances t f w :
  advances w (run_tenant_migration t f w).2.
Proof.
  unfold run_tenant_migration, get_applied_migrations,
    record_migration_success, read_current_timestamp. munfold.
  mcase; simpl; rewrite ?insert_insert_eq.
  all: try (by apply advances_refl).
  all: try (apply advances_tick; [done|simpl; lia]).
  all: eapply advances_commit; [eassumption|reflexivity|simpl; lia|..].
  all: simpl in *.
  all: try (by apply grows_same_rows).
  all: try (by apply grows_upgrade_insert).
  all: intros r Hr; try (by left).
  all: eapply rows_upgrade_insert in Hr as [?| ->]; [by left| |eassumption].
  all: right; apply clock; lia.
Qed.

Lemma rollback_keeps_rows t cn w :
  fresh_checkpoint t cn w ∨ no_tracking t w →
  dbs (rollback_to_checkpoint t cn w).2 = dbs w
  ∧ db_txns (rollback_to_checkpoint t cn w).2 = db_txns w.
Proof.
  intros Hctx. unfold rollback_to_checkpoint. munfold.
  destruct (dbs w !! t) as [db|] eqn:Hdb; simpl; [|done].
  destruct (history db) as [tt|] eqn:Hh; simpl; [|done].
  destruct (select_latest_checkpoint tt cn) as [c0|] eqn:Hsel; simpl; [|done].
  split; [|done].
  destruct Hctx as [(db' & tt' & c & Hdb' & Hh' & Hc & Hcp & Hmax)|Hno].
  2:{ specialize (Hno db Hdb). congruence. }
  assert (db' = db) as -> by congruence.
  assert (tt' = tt) as -> by congruence.
  apply select_latest_checkpoint_Some in Hsel as (_ & _ & Hmax0).
  specialize (Hmax0 c Hc Hcp).
  assert (update_rolled_back (applied_at c0) <$> rows tt = rows tt) as ->.
  { rewrite <- (list_fmap_id (rows tt)) at 2. apply list_fmap_ext.
    intros i r Hr%list_elem_of_lookup_2. unfold update_rolled_back.
    rewrite decide_False; [done|]. intros [Hgt _].
    specialize (Hmax r Hr). lia. }
  apply insert_id. rewrite Hdb. f_equal.
  destruct db as [tb h ca], tt as [rws nid]. simpl in *. by subst.
Qed.

Lemma fresh_checkpoint_same t cn w w' :
  dbs w' = dbs w → fresh_checkpoint t cn w → fresh_checkpoint t cn w'.
Proof. intros Heq. unfold fresh_checkpoint. by rewrite Heq. Qed.

Lemma no_tracking_same t w w' :
  dbs w' = dbs w → no_tracking t w → no_tracking t w'.
Proof. intros Heq. unfold no_tracking. by rewrite Heq. Qed.

(** The handler of the inner loop, and the failure branch of its [try],
    from a world where the rollback cannot change a row. *)
Lemma handler_keeps_rows t cn f rs w :
  fresh_checkpoint t cn w ∨ no_tracking t w →
  let h := (print (MsgError (name f) t);;
            try_except (rollback_to_checkpoint t cn;; mret ())
                       (print (MsgRollbackError t));;
            mret (add_failed rs t)) : M RunState in
  dbs (h w).2 = dbs w ∧ db_txns (h w).2 = db_txns w.
Proof.
  intros Hctx. simpl. munfold.
  set (w1 := with_trace w (trace w ++ [Print (MsgError (name f) t)])).
  destruct (rollback_keeps_rows t cn w1) as [Hd Ht].
  { destruct Hctx; [left|right];
      [by eapply fresh_checkpoint_same|by eapply no_tracking_same]. }
  destruct (rollback_to_checkpoint t cn w1) as [[b|] w2]; simpl in *; done.
Qed.

Lemma attempt_advances cn f t rs w :
  dated w → advances w (attempt cn f t rs w).2.
Proof.
  intros Hdated. unfold attempt.
  destruct (decide (t ∈ failed_dbs rs)); [by apply advances_refl|].
  unfold try_except at 1.
  destruct (create_checkpoint_advances t cn w) as [Hadv1 Hfresh1].
  unfold mbind, M_bind at 1 2.
  destruct (create_checkpoint t cn w) as [[data|] w1] eqn:Hcp; simpl in *.
  - specialize (Hfresh1 Hdated data eq_refl).
    pose proof (run_tenant_migration_advances t f w1) as Hadv2.
    destruct Hfresh1 as (db & tt & c & Hdb & Hh & Hc & Hcpn & Hmax).
    assert (fresh_checkpoint t cn w1) as Hfresh by (by exists db, tt, c).
    pose proof (run_tenant_migration_failure_keeps_dbs t f w1 db tt) as Hkeep.
    unfold mbind, M_bind at 1.
    destruct (run_tenant_migration t f w1) as [[[|]|] w2] eqn:Hrun;
      simpl in *.
    + by eapply advances_trans.
    + specialize (Hkeep _ _ Hdb Hh eq_refl ltac:(done)).
      eapply advances_trans; [exact Hadv1|].
      eapply advances_trans; [exact Hadv2|].
      munfold.
      set (w2p := with_trace w2 (trace w2 ++ [Print (MsgRollingBack t)])).
      assert (fresh_checkpoint t cn w2p) as Hf2
        by (eapply fresh_checkpoint_same; [|exact Hfresh]; by rewrite <- Hkeep).
      destruct (rollback_keeps_rows t cn w2p (or_introl Hf2)) as [Hd3 Ht3].
      destruct (rollback_to_checkpoint t cn w2p) as [[b|] w3]; simpl in *.
      * by apply advances_refl.
      * destruct (handler_keeps_rows t cn f rs w3) as [Hd4 Ht4].
        { left. by eapply fresh_checkpoint_same. }
        simpl in *. munfold. apply advances_refl; congruence.
    + specialize (Hkeep _ _ Hdb Hh eq_refl ltac:(done)).
      eapply advances_trans; [exact Hadv1|].
      eapply advances_trans; [exact Hadv2|].
      destruct (handler_keeps_rows t cn f rs w2) as [Hd4 Ht4].
      { left. eapply fresh_checkpoint_same; [|exact Hfresh]. done. }
      simpl in *. munfold. apply advances_refl; congruence.
  - eapply advances_trans; [exact Hadv1|].
    destruct (create_checkpoint_cases t cn w)
      as [(?&?&?&?&_&_&Hcp'&_)|(Hno & w1' & Hcp' & _ & Hdbs1 & _)];
      [congruence|].
    assert (w1' = w1) as -> by congruence.
    destruct (handler_keeps_rows t cn f rs w1) as [Hd4 Ht4].
    { right. by eapply no_tracking_same. }
    simpl in *. munfold. apply advances_refl; congruence.
Qed.

Lemma steady_same w w' :
  dbs w' = dbs w → db_txns w' = db_txns w → steady w w'.
Proof. intros ?? _. by apply advances_refl. Qed.

Lemma steady_trans w1 w2 w3 : steady w1 w2 → steady w2 w3 → steady w1 w3.
Proof.
  intros H12 H23 Hd. specialize (H12 Hd).
  eapply advances_trans; [exact H12|]. apply H23. by apply H12.
Qed.

Lemma steady_bind {A B} (m : M A) (f : A → M B) :
  preserves steady m → (∀ a, preserves steady (f a)) →
  preserves steady (m ≫= f).
Proof.
  intros Hm Hf w. specialize (Hm w). unfold mbind, M_bind.
  destruct (m w) as [[a|] w1]; simpl in *; [|done].
  eapply steady_trans; [exact Hm|apply Hf].
Qed.

Lemma steady_try_except {A} (body handler : M A) :
  preserves steady body → preserves steady handler →
  preserves steady (try_except body handler).
Proof.
  intros Hb Hh w. specialize (Hb w). unfold try_except.
  destruct (body w) as [[a|] w1]; simpl in *; [done|].
  eapply steady_trans; [exact Hb|apply Hh].
Qed.

Lemma steady_mret {A} (a : A) : preserves steady (mret a).
Proof. intros w. by apply steady_same. Qed.

Lemma steady_print m : preserves steady (print m).
Proof. intros w. by apply steady_same. Qed.

Lemma steady_get_tenant_databases : preserves steady get_tenant_databases.
Proof.
  intros w _. unfold get_tenant_databases.
  mcase; simpl; first [by apply advances_refl
                      |apply advances_tick; [done|simpl; lia]].
Qed.

Lemma steady_get_tenant_migration_files :
  preserves steady get_tenant_migration_files.
Proof.
  intros w _. unfold get_tenant_migration_files. munfold.
  mcase; simpl; first [by apply advances_refl
                      |apply advances_tick; [done|simpl; lia]].
Qed.

Lemma steady_make_checkpoint_name : preserves steady make_checkpoint_name.
Proof. intros w. by apply steady_same. Qed.

Lemma steady_create_migration_tracking_table t :
  preserves steady (create_migration_tracking_table t).
Proof.
  intros w _. unfold create_migration_tracking_table. munfold.
  mcase; simpl; rewrite ?insert_insert_eq.
  all: try (by apply advances_refl).
  all: try (apply advances_tick; [done|simpl; lia]).
  all: eapply advances_commit; [eassumption|reflexivity|simpl; lia|..].
  all: simpl in *.
  all: try (apply grows_same_rows; unfold rows_of; simpl in *).
  all: try (intros r Hr; left; revert Hr; unfold rows_of; simpl in * ).
  all: by repeat match goal with H : history _ = _ |- _ => rewrite H end.
Qed.

Lemma steady_attempt cn f t rs : preserves steady (attempt cn f t rs).
Proof. intros w Hd. by apply attempt_advances. Qed.

Lemma steady_for_tenants cn f ts rs :
  preserves steady (for_tenants cn f ts rs).
Proof.
  revert rs. induction ts as [|t ts IH]; intros rs; simpl.
  - apply steady_mret.
  - apply steady_bind; [apply steady_attempt|done].
Qed.

Lemma steady_for_files cn fs ts rs :
  preserves steady (for_files cn fs ts rs).
Proof.
  revert rs. induction fs as [|f fs IH]; intros rs; simpl.
  - apply steady_mret.
  - apply steady_bind; [apply steady_print|intros _].
    apply steady_bind; [apply steady_for_tenants|done].
Qed.

Lemma steady_init_tracking ts : preserves steady (init_tracking ts).
Proof.
  induction ts as [|t ts IH]; simpl; [apply steady_mret|].
  apply steady_bind; [|done].
  apply steady_try_except;
    [apply steady_create_migration_tracking_table|apply steady_print].
Qed.

Lemma steady_run_all_tenant_migrations :
  preserves steady run_all_tenant_migrations.
Proof.
  unfold run_all_tenant_migrations, migration_loops.
  apply steady_try_except.
  2:{ apply steady_bind; [apply steady_print|intros; apply steady_mret]. }
  apply steady_bind; [intros w; by apply steady_same|intros creds].
  destruct (falsy _ || falsy _).
  { apply steady_bind; [apply steady_print|intros; apply steady_mret]. }
  apply steady_bind; [apply steady_get_tenant_databases|intros ts].
  destruct (decide (ts = [])).
  { apply steady_bind; [apply steady_print|intros; apply steady_mret]. }
  apply steady_bind; [apply steady_get_tenant_migration_files|intros fs].
  destruct (decide (fs = [])).
  { apply steady_bind; [apply steady_print|intros; apply steady_mret]. }
  apply steady_bind; [apply steady_init_tracking|intros _].
  apply steady_bind.
  - apply steady_bind; [apply steady_make_checkpoint_name|intros cn].
    apply steady_bind; [apply steady_for_files|intros; apply steady_mret].
  - intros r.
    apply steady_bind; [apply steady_print|intros; apply steady_mret].
Qed.

End NoFlip.

(** X11.  When the database clock never goes back and no tracking row is
    dated in the future, a whole run of [run_all_tenant_migrations]
    leaves every existing tracking row of every tenant as it was, its
    [status] included: the rollbacks of the run mark no row
    [rolled_back], and the rows the run adds are not [rolled_back]
    either. *)
Theorem run_rollbacks_flip_no_row `{Env} w t db :
  clock_nondecreasing → dated w →
  dbs w !! t = Some db →
  ∃ db' new,
    dbs (run_all_tenant_migrations w).2 !! t = Some db'
    ∧ rows_of db' = rows_of db ++ new
    ∧ Forall (λ r, status r ≠ rolled_back) new.
Proof.
  intros clock Hdated Hdb.
  destruct (steady_run_all_tenant_migrations clock w Hdated) as (_ & Hl & _).
  specialize (Hl t). rewrite Hdb in Hl.
  inversion Hl as [db0 db' (new & Hrows & Hnew) Heq0 Heq|]. subst.
  by exists db', new.
Qed.

Lemma run_rollbacks_flip_no_row_witness :
  @clock_nondecreasing sample_env
  ∧ @dated sample_env stamped_fleet
  ∧ dbs stamped_fleet !! "db_bbb" = Some stamped_audited_db
  ∧ ∃ db' new,
      dbs (@run_all_tenant_migrations sample_env stamped_fleet).2 !! "db_bbb"
        = Some db'
      ∧ rows_of db' = rows_of stamped_audited_db ++ new
      ∧ Forall (λ r, status r ≠ rolled_back) new.
Proof.
  assert (@clock_nondecreasing sample_env) as Hclock.
  { intros n m Hnm. simpl. lia. }
  assert (@dated sample_env stamped_fleet) as Hdated.
  { intros t db r Hdb Hr. unfold stamped_fleet, sample_world in Hdb.
    simpl in Hdb.
    apply lookup_insert_Some in Hdb as [[_ <-]|[_ Hdb]].
    - apply list_elem_of_singleton in Hr as ->. simpl. lia.
    - apply lookup_insert_Some in Hdb as [[_ <-]|[_ Hdb]].
      + apply list_elem_of_singleton in Hr as ->. simpl. lia.
      + by rewrite lookup_empty in Hdb. }
  split; [exact Hclock|]. split; [exact Hdated|]. split; [reflexivity|].
  exact (@run_rollbacks_flip_no_row sample_env stamped_fleet "db_bbb"
           stamped_audited_db Hclock Hdated eq_refl).
Defined.

(** ** A run on tenants that are up to date *)

Global Instance checkpointed_preorder : PreOrder checkpointed.
Proof.
  split.
  - intros db. split; [done|]. exists []. by rewrite app_nil_r.
  - intros db1 db2 db3 (Ht12 & n12 & H12 & Hf12) (Ht23 & n23 & H23 & Hf23).
    split; [congruence|].
    exists (n12 ++ n23). split; [by rewrite H23, H12, (assoc (++))|].
    by apply Forall_app.
Qed.

Lemma recorded_mono `{Env} w w' t f :
  lifted checkpointed w w' → recorded w t f → recorded w' t f.
Proof.
  intros Hl (db & tt & r & Hdb & Hh & Hr & Ha). specialize (Hl t).
  rewrite Hdb in Hl.
  destruct (dbs w' !! t) as [db'|] eqn:Hdb'; [|inversion Hl].
  inversion Hl as [? ? (_ & new & Hrows & _)|]; subst.
  unfold rows_of in Hrows. rewrite Hh in Hrows. simpl in Hrows.
  destruct (history db') as [tt'|] eqn:Hh'; simpl in Hrows.
  - exists db', tt', r. split; [done|]. split; [done|]. split; [|done].
    rewrite Hrows. apply elem_of_app. by left.
  - destruct (rows tt); [by apply not_elem_of_nil in Hr|done].
Qed.

(** The body of the inner loop on a tenant that has the file recorded:
    a checkpoint row, then the executor skips. *)
Lemma attempt_recorded `{Env} cn f t rs w :
  t ∉ failed_dbs rs → recorded w t f →
  ∃ w',
    attempt cn f t rs w = (Ok (add_successful rs t), w')
    ∧ static w w' ∧ lifted checkpointed w w'.
Proof.
  intros Hnf (db & tt & r & Hdb & Hh & Hr & Ha).
  destruct (create_checkpoint_cases t cn w)
    as [(db0 & tt0 & data & w1 & Hdb0 & Hh0 & Hcp & Hst1 & Hdbs1 & _)
       |(Hno & _)].
  2:{ specialize (Hno db Hdb). congruence. }
  assert (db0 = db) as -> by congruence.
  assert (tt0 = tt) as -> by congruence.
  set (tt1 := insert_row tt cn "checkpoint" (current_timestamp (db_txns w))
                checkpoint (Some data)) in *.
  assert (run_tenant_migration t f w1
          = (Ok true,
             with_trace w1 (trace w1 ++ [MigrateCall t (name f);
                              Print (MsgSkippedApplied (name f) t)])))
    as Hrun.
  { apply (run_tenant_migration_skip t f w1 (with_history db tt1) tt1).
    - rewrite Hdbs1. apply lookup_insert_eq.
    - done.
    - exists r. split; [|done]. simpl. apply elem_of_app. by left. }
  eexists. split.
  { unfold attempt. rewrite decide_False by done.
    unfold try_except, mbind, M_bind at 1 2. rewrite Hcp.
    unfold mbind, M_bind. rewrite Hrun. reflexivity. }
  split.
  { destruct Hst1 as (?&?&?&?). by repeat split. }
  apply (lifted_commit checkpointed w _ t db (with_history db tt1));
    [done| |done].
  split; [done|]. eexists. unfold rows_of. rewrite Hh. simpl.
  split; [reflexivity|]. by repeat constructor.
Qed.

Lemma schedule_recorded `{Env} w fs ts :
  (∀ t f, t ∈ ts → f ∈ fs → recorded w t f) →
  Forall (step_recorded w) (schedule fs ts).
Proof.
  intros Hrec. apply Forall_forall. intros s Hs.
  unfold schedule in Hs. apply list_elem_of_bind in Hs as (f & Hs & Hf).
  apply elem_of_cons in Hs as [->|Hs]; [done|].
  apply list_elem_of_fmap in Hs as (t & -> & Ht). simpl. by apply Hrec.
Qed.

(** The loops on an up-to-date fleet: no tenant fails, and only
    checkpoint rows are written. *)
Lemma run_steps_recorded `{Env} cn ss w :
  Forall (step_recorded w) ss →
  ∃ rs' w',
    run_steps cn ss {| successful_dbs := []; failed_dbs := [] |} w
      = (Ok rs', w')
    ∧ failed_dbs rs' = [] ∧ static w w' ∧ lifted checkpointed w w'.
Proof.
  intros Hrec.
  destruct (run_steps_invariant cn
              (λ ss0 rs0 w0, failed_dbs rs0 = []
                             ∧ Forall (step_recorded w0) ss0
                             ∧ static w w0 ∧ lifted checkpointed w w0))
    with (ss := ss) (rs := {| successful_dbs := []; failed_dbs := [] |})
         (w := w)
    as (rs' & w' & Hrun & Hf & _ & Hst & Hl).
  - intros s ss0 rs0 w0 rs1 w1 (Hf0 & Hrec0 & Hst0 & Hl0) Hstep.
    apply Forall_cons in Hrec0 as [Hs Hrec0].
    destruct s as [f|f t]; simpl in Hstep.
    + munfold. simplify_eq. split; [done|]. split; [done|].
      split; [done|]. intros t. apply Hl0.
    + destruct (attempt_recorded cn f t rs0 w0) as (w1' & Hatt & Hst1 & Hl1).
      { rewrite Hf0. apply not_elem_of_nil. }
      { exact Hs. }
      rewrite Hatt in Hstep. simplify_eq.
      split; [by rewrite add_successful_failed|].
      split.
      { eapply Forall_impl; [exact Hrec0|].
        intros [f'|f' t']; simpl; [done|]. by apply recorded_mono. }
      split.
      { destruct Hst0 as (?&?&?&?), Hst1 as (?&?&?&?).
        repeat split; congruence. }
      by eapply (lifted_trans checkpointed).
  - split; [done|]. split; [done|]. split; [by repeat split|].
    by apply (lifted_same checkpointed).
  - by exists rs', w'.
Qed.

Lemma init_tracking_tracked ts w :
  (∀ t, t ∈ ts → ∃ db tt, dbs w !! t = Some db ∧ history db = Some tt) →
  ∃ w1, init_tracking ts w = (Ok (), w1) ∧ static w w1 ∧ dbs w1 = dbs w.
Proof.
  revert w. induction ts as [|t ts IH]; intros w Htr.
  { exists w. by repeat split. }
  destruct (Htr t) as (db & tt & Hdb & Hh); [left|].
  simpl. unfold create_migration_tracking_table. munfold.
  rewrite Hdb. simpl. rewrite Hh.
  destruct (create_allowed db); simpl.
  - apply IH. intros t' Ht'. apply Htr. by right.
  - destruct (IH (with_trace w (trace w ++ [Print (MsgInitWarning t)])))
      as (w1 & Hinit & Hst & Hdbs).
    { intros t' Ht'. simpl. apply Htr. by right. }
    by exists w1.
Qed.

(** X12.  When the registry can be reached and every file of the
    catalogue is already recorded as applied, under the hash of its
    present content, on every listed tenant, a run returns [True] and
    applies nothing: each tenant database keeps its tables and its
    tracking rows, after which the run has only written checkpoint rows;
    the tenants are still up to date, so the same holds for the next
    run. *)
Theorem up_to_date_run_applies_nothing `{Env} (w : World) :
  registry_reachable w → up_to_date w →
  ∃ w',
    run_all_tenant_migrations w = (Ok true, w')
    ∧ up_to_date w'
    ∧ ∀ t, option_Forall2 checkpointed (dbs w !! t) (dbs w' !! t).
Proof.
  intros [[Hu Hp] [rows Hco]] Hup.
  unfold up_to_date, tenant_list, catalog in *.
  unfold run_all_tenant_migrations, try_except.
  unfold mbind, M_bind at 1. simpl. rewrite Hu, Hp. simpl.
  unfold get_tenant_databases, mbind, M_bind at 1. rewrite Hco in *.
  destruct (decide (merge_sort String.le rows = [])) as [Hts|Hts].
  { munfold. eexists. split; [reflexivity|]. simpl. rewrite Hco.
    split; [done|]. by apply (lifted_same checkpointed). }
  unfold get_tenant_migration_files. munfold.
  destruct (tenant_versions w) as [dir|] eqn:Hdir; simpl.
  2:{ eexists. split; [reflexivity|]. simpl. rewrite Hco, Hdir.
      split; [done|]. by apply (lifted_same checkpointed). }
  destruct (decide (discover dir = [])) as [Hfs|Hfs]; simpl.
  { eexists. split; [reflexivity|]. simpl. rewrite Hco, Hdir.
    split; [done|]. by apply (lifted_same checkpointed). }
  destruct (init_tracking_tracked (merge_sort String.le rows) w)
    as (w1 & Hinit & (_ & _ & Hco1 & Hdir1) & Hdbs1).
  { intros t Ht. destruct (discover dir) as [|f fs] eqn:Hd; [done|].
    destruct (Hup t f Ht) as (db & tt & _ & Hdb & Hh & _); [left|].
    by exists db, tt. }
  rewrite Hinit.
  unfold migration_loops, make_checkpoint_name, read_datetime_now. munfold.
  rewrite for_files_steps.
  set (w0 := with_py_reads w1 (S (py_reads w1))).
  assert (∀ t f, t ∈ merge_sort String.le rows → f ∈ discover dir →
                 recorded w0 t f) as Hup0.
  { intros t f Ht Hf.
    destruct (Hup t f Ht Hf) as (db & tt & r & Hdb & ?).
    exists db, tt, r. split; [|done]. simpl. by rewrite Hdbs1. }
  destruct (run_steps_recorded
              ("pre_migration_" +:+ strftime (datetime_now (py_reads w1)))
              (schedule (discover dir) (merge_sort String.le rows)) w0)
    as (rs' & w' & Hrun & Hf & (_ & _ & Hco' & Hdir') & Hl).
  { by apply schedule_recorded. }
  rewrite Hrun. simpl. rewrite Hf. simpl.
  eexists. split; [reflexivity|]. simpl in *.
  rewrite Hco', Hdir', Hco1, Hdir1, Hco, Hdir.
  split.
  - intros t f Ht Hf'.
    apply (recorded_mono w0); [intros t'; apply Hl|]. by apply Hup0.
  - intros t. rewrite <- Hdbs1. apply Hl.
Qed.

Lemma up_to_date_run_applies_nothing_witness :
  registry_reachable migrated_fleet
  ∧ @up_to_date sample_env migrated_fleet
  ∧ ∃ w',
      @run_all_tenant_migrations sample_env migrated_fleet = (Ok true, w')
      ∧ @up_to_date sample_env w'
      ∧ ∀ t, option_Forall2 checkpointed
               (dbs migrated_fleet !! t) (dbs w' !! t).
Proof.
  assert (registry_reachable migrated_fleet) as Hreg.
  { split; [by split|]. by eexists. }
  assert (@up_to_date sample_env migrated_fleet) as Hup.
  { intros t f Ht Hf. vm_compute in Ht, Hf.
    apply list_elem_of_singleton in Ht as ->.
    apply list_elem_of_singleton in Hf as ->.
    eexists migrated_db, _, _. split; [reflexivity|].
    split; [reflexivity|]. split; [left|]. by split. }
  split; [exact Hreg|]. split; [exact Hup|].
  exact (@up_to_date_run_applies_nothing sample_env migrated_fleet Hreg Hup).
Defined.

(** ** What a successful run leaves behind *)

Lemma recorded_grows `{Env} w w' t f :
  lifted grows w w' → recorded w t f → recorded w' t f.
Proof.
  intros Hl (db & tt & r & Hdb & Hh & Hr & Ha). specialize (Hl t).
  rewrite Hdb in Hl.
  destruct (dbs w' !! t) as [db'|] eqn:Hdb'; [|inversion Hl].
  inversion Hl as [? ? (new & Hrows & _)|]; subst.
  unfold rows_of in Hrows. rewrite Hh in Hrows. simpl in Hrows.
  destruct (history db') as [tt'|] eqn:Hh'; simpl in Hrows.
  - exists db', tt', r. split; [done|]. split; [done|]. split; [|done].
    rewrite Hrows. apply elem_of_app. by left.
  - destruct (rows tt); [by apply not_elem_of_nil in Hr|done].
Qed.

(** The executor returns [True] only with the file recorded. *)
Lemma run_tenant_migration_true `{Env} t f w :
  match run_tenant_migration t f w with
  | (Ok true, w') => recorded w' t f ∧ lifted grows w w'
  | _ => True
  end.
Proof.
  unfold run_tenant_migration, get_applied_migrations,
    record_migration_success, read_current_timestamp. munfold.
  mcase; try done.
  all: simpl; rewrite ?insert_insert_eq.
  - split; [|by apply (lifted_same grows)].
    match goal with
    | Hb : already_applied _ _ _ = true |- _ =>
        apply already_applied_iff in Hb as (r & Hr & Ha)
    end.
    by eexists _, _, r.
  - split.
    + eexists _, _, _. split; [apply lookup_insert_eq|].
      split; [reflexivity|].
      split; [simpl; apply elem_of_app; right; left|]. by repeat split.
    + eapply (lifted_commit grows); [eassumption| |reflexivity].
      by apply grows_upgrade_insert.
  - split.
    + eexists _, _, _. split; [apply lookup_insert_eq|].
      split; [reflexivity|].
      split; [simpl; apply elem_of_app; right; left|]. by repeat split.
    + eapply (lifted_commit grows); [eassumption| |reflexivity].
      by apply grows_upgrade_insert.
Qed.

(** One pass through the body of the inner loop that leaves
    [failed_dbs] empty: the file is recorded on the tenant, and no
    tracking row was touched. *)
Lemma attempt_success `{Env} cn f t rs w :
  match attempt cn f t rs w with
  | (Ok rs', w') =>
      failed_dbs rs' = [] → recorded w' t f ∧ lifted grows w w'
  | _ => True
  end.
Proof.
  unfold attempt. destruct (decide (t ∈ failed_dbs rs)) as [Hin|Hnin].
  { munfold. intros Hf. rewrite Hf in Hin. by apply not_elem_of_nil in Hin. }
  assert (failed_dbs (add_failed rs t) ≠ []) as Hbad.
  { intros Hf.
    assert (t ∈ failed_dbs (add_failed rs t)) as Hin
      by (apply elem_of_add_failed; by right).
    rewrite Hf in Hin. by apply not_elem_of_nil in Hin. }
  unfold try_except at 1. unfold mbind, M_bind at 1 2.
  destruct (create_checkpoint_cases t cn w)
    as [(db & tt & data & w1 & Hdb & Hh & -> & _ & Hdbs1 & _)
       |(_ & w1 & -> & _)].
  - unfold mbind, M_bind at 1.
    pose proof (run_tenant_migration_true t f w1) as Htrue.
    destruct (run_tenant_migration t f w1) as [[[|]|] w2].
    + simpl. intros _. destruct Htrue as [Hrec Hg]. split; [done|].
      eapply (lifted_trans grows); [|exact Hg].
      eapply (lifted_commit grows); [exact Hdb| |exact Hdbs1].
      by apply grows_insert.
    + munfold.
      repeat match goal with
      | |- context [rollback_to_checkpoint ?a ?b ?w0] =>
          destruct (rollback_to_checkpoint a b w0) as [[?|] ?]; simpl
      end; done.
    + munfold.
      repeat match goal with
      | |- context [rollback_to_checkpoint ?a ?b ?w0] =>
          destruct (rollback_to_checkpoint a b w0) as [[?|] ?]; simpl
      end; done.
  - munfold.
    repeat match goal with
    | |- context [rollback_to_checkpoint ?a ?b ?w0] =>
        destruct (rollback_to_checkpoint a b w0) as [[?|] ?]; simpl
    end; done.
Qed.

Lemma run_steps_success `{Env} cn all w :
  ∃ rs' w',
    run_steps cn all {| successful_dbs := []; failed_dbs := [] |} w
      = (Ok rs', w')
    ∧ static w w'
    ∧ (failed_dbs rs' = [] →
       Forall (step_recorded w') all ∧ lifted grows w w').
Proof.
  destruct (run_steps_invariant cn
              (λ ss rs0 w0,
                 static w w0
                 ∧ ∃ done, all = done ++ ss
                   ∧ (failed_dbs rs0 = [] →
                      Forall (step_recorded w0) done ∧ lifted grows w w0)))
    with (ss := all) (rs := {| successful_dbs := []; failed_dbs := [] |})
         (w := w)
    as (rs' & w' & Hrun & Hst & done & Hall & Hend).
  - intros s ss rs0 w0 rs1 w1 (Hst0 & done & Hall & Hdone) Hstep.
    split.
    { destruct (run_step_cases cn s rs0 w0)
        as (rs2 & w2 & evs & Hrun2 & Hst2 & _).
      rewrite Hstep in Hrun2. simplify_eq.
      destruct Hst0 as (?&?&?&?), Hst2 as (?&?&?&?).
      repeat split; congruence. }
    exists (done ++ [s]). split; [by rewrite <- (assoc (++))|].
    intros Hf1.
    assert (failed_dbs rs0 = []) as Hf0.
    { destruct (failed_dbs rs0) as [|x l] eqn:Hl; [done|].
      assert (x ∈ failed_dbs rs1) as Hx.
      { eapply run_step_failed_mono; [exact Hstep|]. rewrite Hl. left. }
      rewrite Hf1 in Hx. by apply not_elem_of_nil in Hx. }
    destruct (Hdone Hf0) as [Hrec Hg].
    assert (step_recorded w1 s ∧ lifted grows w0 w1) as [Hs Hg1].
    { destruct s as [f|f t]; simpl in Hstep.
      - munfold. simplify_eq. split; [done|]. by apply (lifted_same grows).
      - pose proof (attempt_success cn f t rs0 w0) as Hatt.
        rewrite Hstep in Hatt. by apply Hatt. }
    split; [|by eapply (lifted_trans grows)].
    apply Forall_app. split; [|by repeat constructor].
    eapply Forall_impl; [exact Hrec|].
    intros [f'|f' t']; simpl; [done|]. by apply recorded_grows.
  - split; [by repeat split|]. exists []. split; [done|].
    intros _. split; [constructor|]. by apply (lifted_same grows).
  - exists rs', w'. split; [done|]. split; [done|].
    rewrite app_nil_r in Hall. by subst.
Qed.

Lemma attempt_scheduled f fs t ts :
  f ∈ fs → t ∈ ts → Attempt f t ∈ schedule fs ts.
Proof.
  intros Hf Ht. unfold schedule. apply list_elem_of_bind. exists f.
  split; [|done]. right. apply list_elem_of_fmap. by exists t.
Qed.

(** X13.  A run that returns [True] leaves the fleet up to date: every
    file of the catalogue is then recorded as applied, under the hash of
    its present content, in the tracking table of every listed tenant. *)
Theorem successful_run_is_up_to_date `{Env} (w w' : World) :
  run_all_tenant_migrations w = (Ok true, w') → up_to_date w'.
Proof.
  unfold up_to_date, tenant_list, catalog.
  unfold run_all_tenant_migrations, try_except.
  unfold mbind, M_bind at 1.
  destruct (falsy_cases w) as [[Hu Hp]|Hfalsy].
  2:{ simpl. rewrite Hfalsy. munfold. intros ?. simplify_eq. }
  simpl. rewrite Hu, Hp. simpl.
  unfold get_tenant_databases, mbind, M_bind at 1.
  destruct (companies w) as [rows|] eqn:Hco.
  2:{ munfold. intros ?. simplify_eq. }
  destruct (decide (merge_sort String.le rows = [])) as [Hts|Hts].
  { munfold. intros ?. simplify_eq. simpl. rewrite Hco, Hts.
    intros t f Ht. by apply not_elem_of_nil in Ht. }
  unfold get_tenant_migration_files. munfold.
  destruct (tenant_versions w) as [dir|] eqn:Hdir; simpl.
  2:{ intros ?. simplify_eq. simpl. rewrite Hdir.
      intros t f _ Hf. by apply not_elem_of_nil in Hf. }
  destruct (decide (discover dir = [])) as [Hfs|Hfs]; simpl.
  { intros ?. simplify_eq. simpl. rewrite Hdir, Hfs.
    intros t f _ Hf. by apply not_elem_of_nil in Hf. }
  destruct (init_tracking_spec (merge_sort String.le rows) w)
    as (w1 & evs1 & Hinit & (_ & _ & Hco1 & Hdir1) & _).
  rewrite Hinit.
  unfold migration_loops, make_checkpoint_name, read_datetime_now. munfold.
  rewrite for_files_steps.
  set (w0 := with_py_reads w1 (S (py_reads w1))).
  destruct (run_steps_success
              ("pre_migration_" +:+ strftime (datetime_now (py_reads w1)))
              (schedule (discover dir) (merge_sort String.le rows)) w0)
    as (rs' & w2 & Hrun & (_ & _ & Hco2 & Hdir2) & Hend).
  rewrite Hrun. simpl. intros Heq. injection Heq as Hb <-.
  apply bool_decide_eq_true in Hb. apply nil_length_inv in Hb.
  destruct (Hend Hb) as [Hrec _]. simpl in *.
  rewrite Hco2, Hdir2, Hco1, Hdir1, Hco, Hdir.
  intros t f Ht Hf. rewrite Forall_forall in Hrec.
  destruct (Hrec (Attempt f t)) as (db & tt & r & ?);
    [by apply attempt_scheduled|].
  by exists db, tt, r.
Qed.

Lemma successful_run_is_up_to_date_witness :
  @run_all_tenant_migrations sample_env
    (sample_world [package_marker; create_activity_table]
       [("db_aaa", fresh_db); ("db_bbb", untracked_db)])
  = (Ok true,
     (@run_all_tenant_migrations sample_env
        (sample_world [package_marker; create_activity_table]
           [("db_aaa", fresh_db); ("db_bbb", untracked_db)])).2)
  ∧ @up_to_date sample_env
      (@run_all_tenant_migrations sample_env
         (sample_world [package_marker; create_activity_table]
            [("db_aaa", fresh_db); ("db_bbb", untracked_db)])).2.
Proof.
  assert (@run_all_tenant_migrations sample_env
            (sample_world [package_marker; create_activity_table]
               [("db_aaa", fresh_db); ("db_bbb", untracked_db)])
          = (Ok true,
             (@run_all_tenant_migrations sample_env
                (sample_world [package_marker; create_activity_table]
                   [("db_aaa", fresh_db); ("db_bbb", untracked_db)])).2))
    as Hrun by (vm_compute; reflexivity).
  split; [exact Hrun|].
  exact (@successful_run_is_up_to_date sample_env _ _ Hrun).
Defined.

(** ** The two lists of the summary *)

Lemma schedule_tenant f fs t ts : Attempt f t ∈ schedule fs ts → t ∈ ts.
Proof.
  unfold schedule. intros (f' & Hs & _)%list_elem_of_bind.
  apply elem_of_cons in Hs as [?|Hs]; [done|].
  apply list_elem_of_fmap in Hs as (t' & ? & ?). by simplify_eq.
Qed.

(** X14.  With a catalogue that is not empty, the loops of
    [run_all_tenant_migrations] return, and the two lists of the summary
    account for the tenants: every listed tenant is in [successful_dbs]
    or in [failed_dbs], and the lists hold listed tenants only. *)
Theorem summary_accounts_for_every_tenant `{Env} (cn : string)
    (fs : list MigrationFile) (ts : list string) (w : World) :
  fs ≠ [] →
  ∃ rs' w',
    for_files cn fs ts {| successful_dbs := []; failed_dbs := [] |} w
      = (Ok rs', w')
    ∧ ∀ t, t ∈ ts ↔ t ∈ successful_dbs rs' ∨ t ∈ failed_dbs rs'.
Proof.
  intros Hfs. rewrite for_files_steps.
  destruct (run_steps_invariant cn
              (λ ss rs0 _,
                 (∀ x, x ∈ successful_dbs rs0 ∨ x ∈ failed_dbs rs0 → x ∈ ts)
                 ∧ ∃ done, schedule fs ts = done ++ ss
                   ∧ ∀ f t, Attempt f t ∈ done →
                       t ∈ successful_dbs rs0 ∨ t ∈ failed_dbs rs0))
    with (ss := schedule fs ts)
         (rs := {| successful_dbs := []; failed_dbs := [] |}) (w := w)
    as (rs' & w' & Hrun & Hin & done & Hall & Hdone).
  - intros s ss rs0 w0 rs1 w1 (Hin0 & done & Hall & Hdone) Hstep.
    assert (∀ x, x ∈ successful_dbs rs0 ∨ x ∈ failed_dbs rs0 →
                 x ∈ successful_dbs rs1 ∨ x ∈ failed_dbs rs1) as Hmono.
    { intros x.
      destruct (run_step_lists cn s rs0 w0 rs1 w1 Hstep)
        as [->|(f & t & _ & _ & [->| ->])]; [done|..].
      - rewrite add_successful_failed, elem_of_add_successful. tauto.
      - rewrite add_failed_successful, elem_of_add_failed. tauto. }
    split.
    + intros x.
      destruct (run_step_lists cn s rs0 w0 rs1 w1 Hstep)
        as [->|(f & t & -> & _ & Hrs)]; [apply Hin0|].
      assert (t ∈ ts) as Ht.
      { apply (schedule_tenant f fs). rewrite Hall.
        apply elem_of_app. right. left. }
      destruct Hrs as [-> | ->].
      * rewrite add_successful_failed, elem_of_add_successful.
        intros [[?| ->]|?]; auto.
      * rewrite add_failed_successful, elem_of_add_failed.
        intros [?|[?| ->]]; auto.
    + exists (done ++ [s]). split; [by rewrite <- (assoc (++))|].
      intros f t [Hd|Hs]%elem_of_app; [by apply Hmono, (Hdone f)|].
      apply list_elem_of_singleton in Hs as <-.
      destruct (run_step_cases cn (Attempt f t) rs0 w0)
        as (rs2 & w2 & evs & Hrun2 & _ & _ & _ & Hc).
      rewrite Hstep in Hrun2. simplify_eq.
      destruct Hc as [(Hf & -> & _)
                     |[(_ & _ & -> & _)|(_ & _ & rest & _ & _ & [->| ->])]].
      * by right.
      * right. apply elem_of_add_failed. by right.
      * left. apply elem_of_add_successful. by right.
      * right. apply elem_of_add_failed. by right.
  - split; [intros x [Hx|Hx]; by apply not_elem_of_nil in Hx|].
    exists []. split; [done|]. intros f t Hx. by apply not_elem_of_nil in Hx.
  - exists rs', w'. split; [done|]. intros t. split; [|apply Hin].
    intros Ht. destruct fs as [|f fs]; [done|].
    apply (Hdone f). rewrite app_nil_r in Hall. rewrite <- Hall.
    by apply attempt_in_schedule.
Qed.

Lemma summary_accounts_for_every_tenant_witness :
  [create_audit_table; create_activity_table] ≠ []
  ∧ ∃ rs' w',
      @for_files sample_env "pre_migration_20250609_174925"
        [create_audit_table; create_activity_table] ["db_aaa"; "db_bbb"]
        {| successful_dbs := []; failed_dbs := [] |} two_tenants
        = (Ok rs', w')
      ∧ ∀ t, t ∈ ["db_aaa"; "db_bbb"]
             ↔ t ∈ successful_dbs rs' ∨ t ∈ failed_dbs rs'.
Proof.
  split; [done|].
  apply (@summary_accounts_for_every_tenant sample_env). done.
Defined.

(** ** The command line *)

(** X15.  [main] reads its first argument only, and only to look for
    one of the three switches: with any other first argument, whatever
    follows, it runs the migrations exactly as it does without
    arguments. *)
Theorem main_ignores_other_arguments `{Env} (script arg : string)
    (rest : list string) (w : World) :
  arg ∉ ["--list"; "--history"; "--help"] →
  main (script :: arg :: rest) w = main [script] w.
Proof.
  intros Harg. unfold main. simpl.
  rewrite !decide_False; [done|..].
  all: intros ->; apply Harg; repeat first [by left|right].
Qed.

Lemma main_ignores_other_arguments_witness :
("--dry-run" ∉ ["--list"; "--history"; "--help"])
  ∧ @main sample_env ["run_tenant_migrations.py"; "--dry-run"] two_tenants
    = @main sample_env ["run_tenant_migrations.py"] two_tenants.
Proof.
  assert ("--dry-run" ∉ ["--list"; "--history"; "--help"]) as Harg.
  { intros Hin. repeat (apply elem_of_cons in Hin as [Hin|Hin]; [done|]).
    by apply not_elem_of_nil in Hin. }
  split; [exact Harg|].
  exact (@main_ignores_other_arguments sample_env _ _ [] two_tenants Harg).
Defined.
